(** * Verification of chainer's [resize_images]

    A shallow embedding of [chainer/functions/array/resize_images.py]
    (the NumPy path) and the properties of its coordinate generator, its
    panel-blocked forward engine, its gradient-scatter engine and its two
    operator nodes.  The two CUDA kernels are embedded beside the CPU
    engines and compared with them.

    Conventions of the embedding.
    - Python integers are [Z]; [//] is [Z.div] with the
      [ZeroDivisionError] of a zero divisor written out.
    - [numpy.intp] values are [Z], with the 64-bit wrap-around written out
      where the code does arithmetic on them.
    - An array is its element type tag, its shape and its row-major
      contents; [numpy.empty] returns cells of an arbitrary value
      [garbage].
    - Floating-point numbers are idealised: a finite float is an exact
      rational in canonical form ([Qc]) and the operations on finite
      floats are exact, so rounding, signed zeros and overflow are not
      part of the model.  The coordinates keep the non-finite results of
      a division by zero ([NaN], [Inf]); pixel and weight arrays hold
      finite numbers only.
    - The conversion of a non-finite float to an index is an error of the
      model, [InvalidCast]: NumPy only warns and stores a meaningless
      integer there, which the engines cannot use.
    - Python exceptions are values of [exn]; fallible code lives in the
      error monad [result]. *)

From Stdlib Require Import ZArith List Lia Bool.
From Stdlib Require Import QArith Qcanon Qround.
From Stdlib Require Import Permutation.
From Stdlib Require Import SpecFloat.
Import ListNotations.

Local Open Scope Z_scope.

(** ** Exceptions and the error monad *)

Inductive exn : Type :=
| ZeroDivisionError   (* Python integer division by zero *)
| IndexError          (* fancy indexing out of bounds *)
| ValueError          (* bad shape, negative bincount entry, zero range step *)
| InvalidType         (* chainer.utils.type_check.InvalidType *)
| InvalidCast         (* a non-finite float converted to an integer *)
| Diverged.           (* a loop of the model ran out of fuel *)

Inductive result (A : Type) : Type :=
| Ok (a : A)
| Raise (e : exn).

Arguments Ok {A} a.
Arguments Raise {A} e.

Definition bind {A B : Type} (r : result A) (k : A -> result B) : result B :=
  match r with
  | Ok a => k a
  | Raise e => Raise e
  end.

Notation "x <- r ;; k" := (bind r (fun x => k))
  (at level 61, r at next level, right associativity).
Notation "' pat <- r ;; k" := (bind r (fun x => match x with pat => k end))
  (at level 61, pat pattern, r at next level, right associativity).

Fixpoint mapM {A B : Type} (f : A -> result B) (l : list A) : result (list B) :=
  match l with
  | [] => Ok []
  | a :: l' => b <- f a ;; bs <- mapM f l' ;; Ok (b :: bs)
  end.

(** ** Python integers *)

(** [a // b] on Python integers. *)
Definition floordiv (a b : Z) : result Z :=
  if b =? 0 then Raise ZeroDivisionError else Ok (a / b).

(** The body of [range(start, stop, step)], unrolled [fuel] times. *)
Fixpoint range_loop (fuel : nat) (i stop step : Z) : list Z :=
  match fuel with
  | O => []
  | S fuel' =>
      if (if 0 <? step then i <? stop else stop <? i)
      then i :: range_loop fuel' (i + step) stop step
      else []
  end.

(** [range(start, stop, step)]; the distance between the two ends bounds
    the number of elements, since [step] is not zero. *)
Definition py_range (start stop step : Z) : result (list Z) :=
  if step =? 0 then Raise ValueError
  else Ok (range_loop (Z.to_nat (Z.abs (stop - start))) start stop step).

(** [numpy.arange(n)] as integers: 0, 1, ..., n-1 (empty when [n <= 0]). *)
Definition arange (n : Z) : list Z := map Z.of_nat (seq 0 (Z.to_nat n)).

(** ** The panel-size heuristic *)

(** The [while True] loop of [_infer_lines]: doubles [lines] as long as the
    double does not exceed [target_lines].  [None] when the fuel is spent. *)
Fixpoint infer_lines_loop (fuel : nat) (lines target_lines : Z) : option Z :=
  match fuel with
  | O => None
  | S fuel' =>
      let next_lines := lines * 2 in
      if next_lines >? target_lines then Some lines
      else infer_lines_loop fuel' next_lines target_lines
  end.

Definition _infer_lines (B C H W out_H out_W kH kW : Z) : result Z :=
  let target_size := 2 ^ 17 in
  q <- floordiv (H * W) out_H ;;
  let line_size := B * C * (q + kH * kW * out_W) in
  target_lines <- floordiv target_size line_size ;;
  if target_lines <? out_H then
    match infer_lines_loop (S (Z.to_nat target_lines)) 1 target_lines with
    | Some lines => Ok lines
    | None => Raise Diverged
    end
  else Ok out_H.

(** ** Arrays *)

Inductive scalar_type : Type := Float16 | Float32 | Float64 | Intp.

Definition scalar_type_eqb (a b : scalar_type) : bool :=
  match a, b with
  | Float16, Float16 | Float32, Float32 | Float64, Float64 | Intp, Intp => true
  | _, _ => false
  end.

(** A dense row-major array: element type tag, shape and flat contents. *)
Record array (A : Type) : Type := mk_array {
  dtype : scalar_type;
  shape : list Z;
  data : list A
}.

Arguments mk_array {A} dtype shape data.
Arguments dtype {A} a.
Arguments shape {A} a.
Arguments data {A} a.

Definition ndim {A : Type} (a : array A) : Z := Z.of_nat (length (shape a)).

Definition zip_with {A B C : Type} (f : A -> B -> C) (l1 : list A) (l2 : list B) : list C :=
  map (fun p => f (fst p) (snd p)) (combine l1 l2).

Definition znth {A : Type} (i : Z) (l : list A) (d : A) : A := nth (Z.to_nat i) l d.

(** [l[a:b]] on a flat list, for [0 <= a]. *)
Definition slice {A : Type} (l : list A) (a b : Z) : list A :=
  firstn (Z.to_nat (b - a)) (skipn (Z.to_nat a) l).

(** [a[i:j]] along the first axis of a two-dimensional array, for
    [0 <= i <= j]: both bounds are clipped to the number of rows.  (The
    grids are two-dimensional; another rank is left to [broadcast_to],
    which refuses it.) *)
Definition slice_rows {A : Type} (a : array A) (i j : Z) : array A :=
  match shape a with
  | [h; w] =>
      let i' := Z.min i h in
      let j' := Z.max i' (Z.min j h) in
      mk_array (dtype a) [j' - i'; w] (slice (data a) (i' * w) (j' * w))
  | _ => a
  end.

(** The contents of a two-dimensional array [a] seen with shape [(h, w)],
    as NumPy broadcasts the source of an assignment or an operand: an axis
    of [a] must have the wanted length or length 1. *)
Definition broadcast_to {A : Type} (d : A) (a : array A) (h w : Z) : result (list A) :=
  match shape a with
  | [ah; aw] =>
      if (ah =? h) && (aw =? w) then Ok (data a)
      else if ((ah =? h) || (ah =? 1)) && ((aw =? w) || (aw =? 1)) then
        Ok (flat_map (fun i => map (fun j =>
              znth ((if ah =? 1 then 0 else i) * aw + (if aw =? 1 then 0 else j)) (data a) d)
              (arange w)) (arange h))
      else Raise ValueError
  | _ => Raise ValueError
  end.

(** [numpy.empty(shape)] and the like refuse a negative axis. *)
Definition check_alloc (sh : list Z) : result unit :=
  if existsb (fun d => d <? 0) sh then Raise ValueError else Ok tt.

Fixpoint foldM {S A : Type} (f : S -> A -> result S) (l : list A) (s : S) : result S :=
  match l with
  | [] => Ok s
  | a :: l' => s' <- f s a ;; foldM f l' s'
  end.

(** ** 64-bit indices *)

Definition wrap_intp (z : Z) : Z := (z + 2 ^ 63) mod 2 ^ 64 - 2 ^ 63.

(** An entry of an index array used for fancy indexing along an axis of
    length [dim]: negative entries count from the end, anything outside
    [[-dim, dim)] is an [IndexError]. *)
Definition normalize_index (dim idx : Z) : result Z :=
  if (- dim <=? idx) && (idx <? dim)
  then Ok (if idx <? 0 then idx + dim else idx)
  else Raise IndexError.

(** ** Floating-point coordinates *)

Inductive float : Type :=
| Fin (q : Qc)          (* a finite number *)
| Inf (negative : bool) (* an infinity and its sign *)
| NaN.

Definition Z2Qc (z : Z) : Qc := Q2Qc (inject_Z z).

Definition of_int (z : Z) : float := Fin (Z2Qc z).

Definition Qc_ltb (a b : Qc) : bool :=
  match (a ?= b)%Qc with Lt => true | _ => false end.

Definition Qc_eqb (a b : Qc) : bool :=
  match (a ?= b)%Qc with Eq => true | _ => false end.

Definition Qc_min (a b : Qc) : Qc := if Qc_ltb b a then b else a.
Definition Qc_max (a b : Qc) : Qc := if Qc_ltb a b then b else a.

Definition Qc_floor (a : Qc) : Z := Qfloor a.

(** Rounding toward zero. *)
Definition Qc_trunc (a : Qc) : Z :=
  if Qc_ltb a 0%Qc then Qceiling a else Qfloor a.

Definition fneg (a : float) : float :=
  match a with
  | Fin x => Fin (- x)%Qc
  | Inf s => Inf (negb s)
  | NaN => NaN
  end.

Definition fadd (a b : float) : float :=
  match a, b with
  | NaN, _ | _, NaN => NaN
  | Fin x, Fin y => Fin (x + y)%Qc
  | Inf s, Fin _ | Fin _, Inf s => Inf s
  | Inf s, Inf t => if Bool.eqb s t then Inf s else NaN
  end.

Definition fsub (a b : float) : float := fadd a (fneg b).

Definition fmul (a b : float) : float :=
  match a, b with
  | NaN, _ | _, NaN => NaN
  | Fin x, Fin y => Fin (x * y)%Qc
  | Inf s, Fin y | Fin y, Inf s =>
      if Qc_eqb y 0%Qc then NaN else Inf (xorb s (Qc_ltb y 0%Qc))
  | Inf s, Inf t => Inf (xorb s t)
  end.

(** Division of floats; a zero divisor is the float of the integer 0. *)
Definition fdiv (a b : float) : float :=
  match a, b with
  | NaN, _ | _, NaN => NaN
  | Fin x, Fin y =>
      if Qc_eqb y 0%Qc
      then (if Qc_eqb x 0%Qc then NaN else Inf (Qc_ltb x 0%Qc))
      else Fin (x / y)%Qc
  | Inf s, Fin y => Inf (xorb s (Qc_ltb y 0%Qc))
  | Fin _, Inf _ => Fin 0%Qc
  | Inf _, Inf _ => NaN
  end.

(** [numpy.maximum] and [numpy.minimum]: a NaN operand gives NaN. *)
Definition fmaximum (a b : float) : float :=
  match a, b with
  | NaN, _ | _, NaN => NaN
  | Fin x, Fin y => Fin (Qc_max x y)
  | Inf true, c | c, Inf true => c
  | Inf false, _ | _, Inf false => Inf false
  end.

Definition fminimum (a b : float) : float :=
  match a, b with
  | NaN, _ | _, NaN => NaN
  | Fin x, Fin y => Fin (Qc_min x y)
  | Inf false, c | c, Inf false => c
  | Inf true, _ | _, Inf true => Inf true
  end.

Definition ffloor (a : float) : float :=
  match a with
  | Fin x => of_int (Qc_floor x)
  | _ => a
  end.

(** [numpy.modf]: the fractional and the integral part, in this order. *)
Definition modf (a : float) : float * float :=
  match a with
  | Fin x => (Fin (x - Z2Qc (Qc_trunc x))%Qc, of_int (Qc_trunc x))
  | Inf s => (Fin 0%Qc, Inf s)
  | NaN => (NaN, NaN)
  end.

(** Python's [a / b] on integers (true division). *)
Definition truediv (a b : Z) : result float :=
  if b =? 0 then Raise ZeroDivisionError else Ok (Fin (Z2Qc a / Z2Qc b)%Qc).

(** [a.astype(numpy.intp)] on one element.  A float that is not finite (or
    does not fit) has no integer value: NumPy warns of an invalid value in
    the cast and stores a meaningless integer; the model stops there. *)
Definition astype_intp (a : float) : result Z :=
  match a with
  | Fin x =>
      let z := Qc_trunc x in
      if (- 2 ^ 63 <=? z) && (z <? 2 ^ 63) then Ok z else Raise InvalidCast
  | _ => Raise InvalidCast
  end.

(** [a.astype(x.dtype)] on one element of a weight array.  Pixel arrays of
    the model hold finite numbers only; a weight is finite whenever its
    index is, and the indices are converted first. *)
Definition astype_pixel (a : float) : result Qc :=
  match a with
  | Fin x => Ok x
  | _ => Raise InvalidCast
  end.

(** ** The coordinate generator *)

Inductive sampling_mode : Type := bilinear | nearest.

Definition half : float := Fin (Q2Qc (1 # 2)).

Definition compute_indices_and_weights
    (out_size in_size : Z * Z) (mode : sampling_mode) (align_corners : bool)
  : result (list float * list float * list float * list float) :=
  let '(out_H, out_W) := out_size in
  let '(H, W) := in_size in
  match mode with
  | bilinear =>
      let '(v, u) :=
        if align_corners then
          (map (fun i => fdiv (fmul (of_int i) (of_int (H - 1))) (of_int (out_H - 1)))
               (arange out_H),
           map (fun j => fdiv (fmul (of_int j) (of_int (W - 1))) (of_int (out_W - 1)))
               (arange out_W))
        else
          (map (fun i => fmaximum
                  (fsub (fdiv (fmul (fadd (of_int i) half) (of_int H)) (of_int out_H)) half)
                  (of_int 0))
               (arange out_H),
           map (fun j => fmaximum
                  (fsub (fdiv (fmul (fadd (of_int j) half) (of_int W)) (of_int out_W)) half)
                  (of_int 0))
               (arange out_W)) in
      let vw := map (fun a => fst (modf a)) v in
      let v := map (fun a => snd (modf a)) v in
      let uw := map (fun a => fst (modf a)) u in
      let u := map (fun a => snd (modf a)) u in
      Ok (v, u, vw, uw)
  | nearest =>
      y_scale <- truediv H out_H ;;
      x_scale <- truediv W out_W ;;
      let v := map (fun i => fminimum (ffloor (fmul (of_int i) y_scale)) (of_int (H - 1)))
                   (arange out_H) in
      let u := map (fun j => fminimum (ffloor (fmul (of_int j) x_scale)) (of_int (W - 1)))
                   (arange out_W) in
      let vw := map (fun _ => Fin 0%Qc) v in
      let uw := map (fun _ => Fin 0%Qc) u in
      Ok (v, u, vw, uw)
  end.

(** ** The CPU engines *)

(** [x[bc, vi, ui]] for [x] of shape (B, C, H, W) read as (B*C, H, W). *)
Definition pixel (x : array Qc) (H W bc vi ui : Z) : Qc :=
  znth ((bc * H + vi) * W + ui) (data x) 0%Qc.

(** [x[:, :, vcol[:, None], ucol[None, :]].reshape((B * C, 4, K))]: the
    four corner planes of every image, in the order (v0,u0), (v0,u1),
    (v1,u0), (v1,u1). *)
Definition gather_panel (x : array Qc) (B C H W : Z) (vcol ucol : list (list Z))
  : list (list (list Qc)) :=
  map (fun bc =>
         flat_map (fun va => map (fun ub => zip_with (pixel x H W bc) va ub) ucol) vcol)
      (arange (B * C)).

(** [numpy.einsum('ijk,jk->ik', panel, weights)] for planes of [K] cells. *)
Definition einsum_ijk_jk_ik (panel : list (list (list Qc))) (weights : list (list Qc))
    (K : nat) : list (list Qc) :=
  map (fun planes =>
         fold_left (fun acc pw => zip_with Qcplus acc (zip_with Qcmult (fst pw) (snd pw)))
                   (combine planes weights) (repeat 0%Qc K))
      panel.

(** [y[:, a:b] = block] on the rows of a two-dimensional [y]. *)
Definition assign_columns (y : list (list Qc)) (a b : Z) (block : list (list Qc))
  : list (list Qc) :=
  zip_with (fun row seg => firstn (Z.to_nat a) row ++ seg ++ skipn (Z.to_nat b) row)
           y block.

(** The clamped neighbour indices: [numpy.add(col, 1)] on [intp], then
    [numpy.minimum] with the last index of the axis. *)
Definition next_index (last : Z) (col : list Z) : list Z :=
  map (fun a => Z.min (wrap_intp (a + 1)) last) col.

(** The four weight planes [wcol[0,0], wcol[0,1], wcol[1,0], wcol[1,1]],
    built by the same four array operations as the source. *)
Definition weight_planes (uw vw : list Qc) : list (list Qc) :=
  let w01 := uw in
  let w00 := map (fun a => 1 - a)%Qc w01 in
  let w10 := zip_with Qcmult w00 vw in
  let w11 := zip_with Qcmult w01 vw in
  let w00 := zip_with Qcminus w00 w10 in
  let w01 := zip_with Qcminus w01 w11 in
  [w00; w01; w10; w11].

Section Engines.

(** What [numpy.empty] finds in the memory it returns. *)
Variable garbage : Qc.

(** One turn of the panel loop.  The state is the number of rows left in
    the index and weight buffers (they are re-sliced to [l] rows at each
    turn) and the output [y]. *)
Definition panel_step (x : array Qc) (v u : array Z) (vw uw : array Qc)
    (B C H W out_H out_W lines : Z)
    (st : Z * list (list Qc)) (i : Z) : result (Z * list (list Qc)) :=
  let '(rows, y) := st in
  let l := Z.min lines (out_H - i) in
  let rows := Z.min rows l in
  let i_end := i + l in
  (* indices *)
  vcol0 <- broadcast_to 0 (slice_rows v i i_end) rows out_W ;;
  ucol0 <- broadcast_to 0 (slice_rows u i i_end) rows out_W ;;
  let vcol1 := next_index (H - 1) vcol0 in
  let ucol1 := next_index (W - 1) ucol0 in
  (* weights *)
  uws <- broadcast_to 0%Qc (slice_rows uw i i_end) rows out_W ;;
  vws <- broadcast_to 0%Qc (slice_rows vw i i_end) rows out_W ;;
  let wcol := weight_planes uws vws in
  (* packing to the panel *)
  vcol <- mapM (mapM (normalize_index H)) [vcol0; vcol1] ;;
  ucol <- mapM (mapM (normalize_index W)) [ucol0; ucol1] ;;
  let panel := gather_panel x B C H W vcol ucol in
  (* interpolation: the reshape of the panel keeps the number of cells *)
  _ <- (if B * C * (2 * 2 * (rows * out_W)) =? B * C * 4 * (l * out_W)
        then Ok tt else Raise ValueError) ;;
  let iout := i * out_W in
  let iout_end := i_end * out_W in
  let block := einsum_ijk_jk_ik panel wcol (Z.to_nat (l * out_W)) in
  Ok (rows, assign_columns y iout iout_end block).

(** The panel loop of [interpolate_bilinear_cpu] for a given panel
    height [lines]: buffers, output, loop and final reshape. *)
Definition interpolate_panels (x : array Qc) (v u : array Z) (vw uw : array Qc)
    (B C H W out_H out_W lines : Z) : result (array Qc) :=
  _ <- check_alloc [2; lines; out_W; B * C; out_H * out_W] ;;
  let y := repeat (repeat garbage (Z.to_nat (out_H * out_W))) (Z.to_nat (B * C)) in
  starts <- py_range 0 out_H lines ;;
  '(_, y) <- foldM (panel_step x v u vw uw B C H W out_H out_W lines)
                   starts (lines, y) ;;
  Ok (mk_array (dtype x) [B; C; out_H; out_W] (concat y)).

Definition interpolate_bilinear_cpu (x : array Qc) (v u : array Z) (vw uw : array Qc)
  : result (array Qc) :=
  match shape x, shape v with
  | [B; C; H; W], [out_H; out_W] =>
      lines <- _infer_lines B C H W out_H out_W 2 2 ;;
      interpolate_panels x v u vw uw B C H W out_H out_W lines
  | _, _ => Raise ValueError
  end.

End Engines.

(** [gx[i] += w]. *)
Definition add_at (i : Z) (w : Qc) (gx : list Qc) : list Qc :=
  firstn (Z.to_nat i) gx ++
  match skipn (Z.to_nat i) gx with
  | [] => []
  | a :: rest => (a + w)%Qc :: rest
  end.

(** [numpy.bincount(indices, weights=weights, minlength=minlength)]. *)
Definition bincount (indices : list Z) (weights : list Qc) (minlength : Z)
  : result (list Qc) :=
  if existsb (fun i => i <? 0) indices then Raise ValueError
  else if negb (length indices =? length weights)%nat then Raise ValueError
  else if minlength <? 0 then Raise ValueError
  else
    let n := fold_left (fun m i => Z.max m (i + 1)) indices minlength in
    Ok (fold_left (fun gx iw => add_at (fst iw) (snd iw) gx)
                  (combine indices weights) (repeat 0%Qc (Z.to_nat n))).

(** [numpy.arange(0, stop, step, dtype=intp)] for integer arguments. *)
Definition arange_step (stop step : Z) : result (list Z) :=
  if step =? 0 then Raise ZeroDivisionError
  else Ok (range_loop (Z.to_nat (Z.abs stop)) 0 stop step).

Definition interpolate_grad_bilinear_cpu (gy : array Qc) (v u : array Z)
    (vw uw : array Qc) (H W : Z) : result (array Qc) :=
  match shape gy with
  | [B; C; out_H; out_W] =>
      (* indices *)
      _ <- check_alloc [2; out_H; out_W] ;;
      vcol0 <- broadcast_to 0 v out_H out_W ;;
      ucol0 <- broadcast_to 0 u out_H out_W ;;
      let vcol1 := next_index (H - 1) vcol0 in
      let ucol1 := next_index (W - 1) ucol0 in
      (* weights *)
      uws <- broadcast_to 0%Qc uw out_H out_W ;;
      vws <- broadcast_to 0%Qc vw out_H out_W ;;
      let wcol := weight_planes uws vws in
      (* grad *)
      let gycol :=
        flat_map (fun bc =>
                    flat_map (fun w => zip_with Qcmult
                                (slice (data gy) (bc * (out_H * out_W))
                                       ((bc + 1) * (out_H * out_W))) w) wcol)
                 (arange (B * C)) in
      (* ravel everything and use bincount *)
      let indices :=
        flat_map (fun va =>
                    flat_map (fun ub =>
                                zip_with (fun vi ui =>
                                            wrap_intp (wrap_intp (vi * W) + ui)) va ub)
                             [ucol0; ucol1])
                 [vcol0; vcol1] in
      offsets <- arange_step (B * C * H * W) (H * W) ;;
      let indices :=
        flat_map (fun off => map (fun idx => wrap_intp (off + idx)) indices) offsets in
      gx <- bincount indices gycol (B * C * H * W) ;;
      if Z.of_nat (length gx) =? B * C * H * W
      then Ok (mk_array (dtype gy) [B; C; H; W] gx)
      else Raise ValueError
  | _ => Raise ValueError
  end.

(** ** The GPU engines

    [cuda.elementwise] compiles the kernel text and runs it once for every
    flat index [i] of the common shape of its arguments that are not
    [raw]; here that shape is the one of the output (forward) or of [gy]
    (gradient), and a grid is seen through it by its cell
    [i mod (out_H * out_W)].  The grids are two-dimensional, as the nodes
    pass them, and are brought to the shape (out_H, out_W) as on the CPU.
    The index type [S] of the kernels is the 64-bit [intp] of the grids;
    the pixel type [T] is idealised like every float of the model. *)

(** [x[k]] on a [raw] argument: the kernel checks nothing, and outside the
    array CUDA defines no behaviour ([None]). *)
Definition raw_read (x : list Qc) (k : Z) : option Qc :=
  if (0 <=? k) && (k <? Z.of_nat (length x)) then Some (znth k x 0%Qc) else None.

(** [atomicAdd(&gx[k], w)] on a [raw] argument. *)
Definition atomicAdd (gx : list Qc) (k : Z) (w : Qc) : option (list Qc) :=
  if (0 <=? k) && (k <? Z.of_nat (length gx)) then Some (add_at k w gx) else None.

(** [S offset = i / outsize * H * W] (the division of C, toward zero). *)
Definition kernel_offset (H W outsize i : Z) : Z :=
  wrap_intp (wrap_intp (Z.quot i outsize * H) * W).

(** [offset + v * W + u] in the index type. *)
Definition kernel_address (offset v u W : Z) : Z :=
  wrap_intp (wrap_intp (offset + wrap_intp (v * W)) + u).

(** The kernel text of [interpolate_bilinear_gpu] for the thread [i]. *)
Definition interpolate_bilinear_kernel (x : list Qc) (v u : Z) (vw uw : Qc)
    (H W outsize i : Z) : option Qc :=
  (* indices *)
  let v0 := v in
  let v1 := Z.min (wrap_intp (v + 1)) (H - 1) in
  let u0 := u in
  let u1 := Z.min (wrap_intp (u + 1)) (W - 1) in
  (* weights *)
  let w0 := ((1 - vw) * (1 - uw))%Qc in
  let w1 := ((1 - vw) * uw)%Qc in
  let w2 := (vw * (1 - uw))%Qc in
  let w3 := (vw * uw)%Qc in
  (* fetch *)
  let offset := kernel_offset H W outsize i in
  match raw_read x (kernel_address offset v0 u0 W),
        raw_read x (kernel_address offset v0 u1 W),
        raw_read x (kernel_address offset v1 u0 W),
        raw_read x (kernel_address offset v1 u1 W) with
  | Some px0, Some px1, Some px2, Some px3 =>
      (* interpolate *)
      Some ((w0 * px0 + w1 * px1) + (w2 * px2 + w3 * px3))%Qc
  | _, _, _, _ => None
  end.

(** The results of all threads, if every one of them is defined. *)
Fixpoint all_defined {A B : Type} (f : A -> option B) (l : list A) : option (list B) :=
  match l with
  | [] => Some []
  | a :: l' =>
      match f a, all_defined f l' with
      | Some b, Some bs => Some (b :: bs)
      | _, _ => None
      end
  end.

Definition interpolate_bilinear_gpu (x : array Qc) (v u : array Z) (vw uw : array Qc)
  : result (option (array Qc)) :=
  match shape x, shape v with
  | [B; C; H; W], [out_H; out_W] =>
      _ <- check_alloc [B; C; out_H; out_W] ;;
      vs <- broadcast_to 0 v out_H out_W ;;
      us <- broadcast_to 0 u out_H out_W ;;
      vws <- broadcast_to 0%Qc vw out_H out_W ;;
      uws <- broadcast_to 0%Qc uw out_H out_W ;;
      let outsize := out_H * out_W in
      let thread (i : Z) :=
        let k := i mod outsize in
        interpolate_bilinear_kernel (data x) (znth k vs 0) (znth k us 0)
          (znth k vws 0%Qc) (znth k uws 0%Qc) H W outsize i in
      Ok (option_map (mk_array (dtype x) [B; C; out_H; out_W])
            (all_defined thread (arange (B * C * out_H * out_W))))
  | _, _ => Raise ValueError
  end.

(** The kernel text of [interpolate_grad_bilinear_gpu] for the thread [i]:
    the four atomic additions it asks for, as (address, amount). *)
Definition interpolate_grad_bilinear_kernel (gy : Qc) (v u : Z) (vw uw : Qc)
    (H W outsize i : Z) : list (Z * Qc) :=
  (* indices *)
  let v0 := v in
  let v1 := Z.min (wrap_intp (v + 1)) (H - 1) in
  let u0 := u in
  let u1 := Z.min (wrap_intp (u + 1)) (W - 1) in
  (* weights *)
  let w0 := ((1 - vw) * (1 - uw))%Qc in
  let w1 := ((1 - vw) * uw)%Qc in
  let w2 := (vw * (1 - uw))%Qc in
  let w3 := (vw * uw)%Qc in
  (* scatter *)
  let offset := kernel_offset H W outsize i in
  [(kernel_address offset v0 u0 W, (w0 * gy)%Qc);
   (kernel_address offset v0 u1 W, (w1 * gy)%Qc);
   (kernel_address offset v1 u0 W, (w2 * gy)%Qc);
   (kernel_address offset v1 u1 W, (w3 * gy)%Qc)].

(** Atomic additions reaching the memory one after the other. *)
Fixpoint run_atomic (ops : list (Z * Qc)) (gx : list Qc) : option (list Qc) :=
  match ops with
  | [] => Some gx
  | (k, w) :: ops' =>
      match atomicAdd gx k w with
      | Some gx' => run_atomic ops' gx'
      | None => None
      end
  end.

(** The atomic additions of a launch of the gradient kernel, thread by
    thread. *)
Definition grad_kernel_launch (gy : array Qc) (vs us : list Z) (vws uws : list Qc)
    (H W outsize size : Z) : list (Z * Qc) :=
  flat_map (fun i =>
              let k := i mod outsize in
              interpolate_grad_bilinear_kernel (znth i (data gy) 0%Qc)
                (znth k vs 0) (znth k us 0) (znth k vws 0%Qc) (znth k uws 0%Qc)
                H W outsize i)
           (arange size).

(** [interpolate_grad_bilinear_gpu] for an order in which the atomic
    additions of the launch reach the memory: [schedule] rearranges the
    list of the additions (the threads run concurrently). *)
Definition interpolate_grad_bilinear_gpu
    (schedule : list (Z * Qc) -> list (Z * Qc))
    (gy : array Qc) (v u : array Z) (vw uw : array Qc) (H W : Z)
  : result (option (array Qc)) :=
  match shape gy with
  | [B; C; out_H; out_W] =>
      _ <- check_alloc [B * C; H; W] ;;
      let gx := repeat 0%Qc (Z.to_nat (B * C * H * W)) in
      vs <- broadcast_to 0 v out_H out_W ;;
      us <- broadcast_to 0 u out_H out_W ;;
      vws <- broadcast_to 0%Qc vw out_H out_W ;;
      uws <- broadcast_to 0%Qc uw out_H out_W ;;
      let ops := grad_kernel_launch gy vs us vws uws H W (out_H * out_W)
                   (B * C * out_H * out_W) in
      Ok (option_map (mk_array (dtype gy) [B; C; H; W]) (run_atomic (schedule ops) gx))
  | _ => Raise ValueError
  end.

(** ** The operator nodes *)

(** Modelled from the spec: [chainer.utils.type_check.expect], defined
    outside the module verified here.  Section 4.6: a violated condition
    "fails with an InvalidShape/InvalidDtype error before any
    computation". *)
Definition type_check_expect (conditions : list bool) : result unit :=
  if forallb (fun c => c) conditions then Ok tt else Raise InvalidType.

(** Modelled from the spec: [FunctionNode.apply], defined outside the
    module verified here.  Section 3: the lifecycle of a node is "create ->
    validate-input-shape -> compute". *)
Definition apply_node {A B : Type} (check_type_forward : A -> result unit)
    (forward : A -> result B) (input : A) : result B :=
  _ <- check_type_forward input ;; forward input.

Record ResizeImages : Type := mk_ResizeImages {
  out_H : Z;
  out_W : Z;
  mode : sampling_mode;
  align_corners : bool
}.

Record ResizeImagesGrad : Type := mk_ResizeImagesGrad {
  g_out_H : Z;
  g_out_W : Z;
  input_shape : list Z;
  g_mode : sampling_mode;
  g_align_corners : bool
}.

(** [ResizeImages.__init__]; the assertion on [mode] is the type
    [sampling_mode]. *)
Definition ResizeImages_init (output_shape : Z * Z) (mode : sampling_mode)
    (align_corners : bool) : ResizeImages :=
  mk_ResizeImages (fst output_shape) (snd output_shape) mode align_corners.

Definition ResizeImagesGrad_init (input_shape : list Z) (output_shape : Z * Z)
    (mode : sampling_mode) (align_corners : bool) : ResizeImagesGrad :=
  mk_ResizeImagesGrad (fst output_shape) (snd output_shape) input_shape mode align_corners.

(** Both nodes have the same [check_type_forward] ([_argname] only names
    the single input). *)
Definition check_type_forward (x : array Qc) : result unit :=
  type_check_expect [scalar_type_eqb (dtype x) Float32; ndim x =? 4].

(** [xp.broadcast_arrays(v[:, None], u[None, :], vw[:, None], uw[None, :])]. *)
Definition broadcast_grids (v u : list Z) (vw uw : list Qc) (float_type : scalar_type)
  : array Z * array Z * array Qc * array Qc :=
  let sh := [Z.of_nat (length v); Z.of_nat (length u)] in
  (mk_array Intp sh (flat_map (fun a => map (fun _ => a) u) v),
   mk_array Intp sh (flat_map (fun _ => u) v),
   mk_array float_type sh (flat_map (fun a => map (fun _ => a) uw) vw),
   mk_array float_type sh (flat_map (fun _ => uw) vw)).

(** The part the two [forward] methods share: coordinates, conversions
    and the broadcast to the output grid. *)
Definition index_and_weight_grids (out_size in_size : Z * Z) (mode : sampling_mode)
    (align_corners : bool) (float_type : scalar_type)
  : result (array Z * array Z * array Qc * array Qc) :=
  '(v, u, vw, uw) <- compute_indices_and_weights out_size in_size mode align_corners ;;
  v <- mapM astype_intp v ;;
  u <- mapM astype_intp u ;;
  vw <- mapM astype_pixel vw ;;
  uw <- mapM astype_pixel uw ;;
  Ok (broadcast_grids v u vw uw float_type).

Section Operators.

Variable garbage : Qc.

Definition ResizeImages_forward (self : ResizeImages) (x : array Qc)
  : result (array Qc) :=
  match skipn 2 (shape x) with
  | [H; W] =>
      '(v, u, vw, uw) <- index_and_weight_grids (out_H self, out_W self) (H, W)
                           (mode self) (align_corners self) (dtype x) ;;
      interpolate_bilinear_cpu garbage x v u vw uw
  | _ => Raise ValueError
  end.

Definition ResizeImagesGrad_forward (self : ResizeImagesGrad) (gy : array Qc)
  : result (array Qc) :=
  match input_shape self with
  | [_; C; H; W] =>
      '(v, u, vw, uw) <- index_and_weight_grids (g_out_H self, g_out_W self) (H, W)
                           (g_mode self) (g_align_corners self) (dtype gy) ;;
      interpolate_grad_bilinear_cpu gy v u vw uw H W
  | _ => Raise ValueError
  end.

(** [ResizeImages.backward]: the gradient node for the input at hand,
    applied to the gradient of the output. *)
Definition ResizeImages_backward (self : ResizeImages) (x gy : array Qc)
  : result (array Qc) :=
  apply_node check_type_forward
    (ResizeImagesGrad_forward
       (ResizeImagesGrad_init (shape x) (out_H self, out_W self)
                              (mode self) (align_corners self)))
    gy.

(** [ResizeImagesGrad.backward]: a forward node with the same parameters. *)
Definition ResizeImagesGrad_backward (self : ResizeImagesGrad) (ggx : array Qc)
  : result (array Qc) :=
  apply_node check_type_forward
    (ResizeImages_forward
       (ResizeImages_init (g_out_H self, g_out_W self) (g_mode self)
                          (g_align_corners self)))
    ggx.

Definition resize_images (x : array Qc) (output_shape : Z * Z)
    (mode : sampling_mode) (align_corners : bool) : result (array Qc) :=
  apply_node check_type_forward
    (ResizeImages_forward (ResizeImages_init output_shape mode align_corners)) x.

End Operators.

(** ** Reference definitions

    What the specification says of the forward pass, pixel by pixel, and
    the vocabulary of the statements below. *)

(** Section 4.2 of the specification: the clamped neighbours, the four
    weights as products, and the weighted sum of the four corners. *)
Definition bilinear_pixel_spec (x : array Qc) (H W bc v0 u0 : Z) (vw uw : Qc) : Qc :=
  let v1 := Z.min (v0 + 1) (H - 1) in
  let u1 := Z.min (u0 + 1) (W - 1) in
  let w00 := ((1 - uw) * (1 - vw))%Qc in
  let w01 := (uw * (1 - vw))%Qc in
  let w10 := ((1 - uw) * vw)%Qc in
  let w11 := (uw * vw)%Qc in
  (w00 * pixel x H W bc v0 u0 + w01 * pixel x H W bc v0 u1
   + w10 * pixel x H W bc v1 u0 + w11 * pixel x H W bc v1 u1)%Qc.

(** The single-pass evaluation without panels that section 4.2 allows. *)
Definition resize_per_pixel_spec (x : array Qc) (v u : array Z) (vw uw : array Qc)
  : array Qc :=
  match shape x, shape v with
  | [B; C; H; W], [out_H; out_W] =>
      mk_array (dtype x) [B; C; out_H; out_W]
        (flat_map (fun bc =>
                     map (fun k => bilinear_pixel_spec x H W bc
                                     (znth k (data v) 0) (znth k (data u) 0)
                                     (znth k (data vw) 0%Qc) (znth k (data uw) 0%Qc))
                         (arange (out_H * out_W)))
                  (arange (B * C)))
  | _, _ => mk_array (dtype x) [] []
  end.

(** [a[n, c, i, j]] for a four-dimensional array. *)
Definition at4 (a : array Qc) (n c i j : Z) : Qc :=
  match shape a with
  | [_; C; H; W] => znth (((n * C + c) * H + i) * W + j) (data a) 0%Qc
  | _ => 0%Qc
  end.

Definition sum_Qc (l : list Qc) : Qc := fold_right Qcplus 0%Qc l.

(** The inner product of two arrays of one shape. *)
Definition inner (a b : array Qc) : Qc := sum_Qc (zip_with Qcmult (data a) (data b)).

(** A float32 image batch of shape (B, C, H, W) with positive axes. *)
Definition image_batch (x : array Qc) (B C H W : Z) : Prop :=
  dtype x = Float32 /\ shape x = [B; C; H; W] /\
  0 < B /\ 0 < C /\ 0 < H /\ 0 < W /\ B * C * H * W < 2 ^ 63 /\
  Z.of_nat (length (data x)) = B * C * H * W.

(** A grid of shape (out_H, out_W), as [broadcast_arrays] returns them. *)
Definition grid {A : Type} (g : array A) (out_H out_W : Z) : Prop :=
  shape g = [out_H; out_W] /\ Z.of_nat (length (data g)) = out_H * out_W.

(** Every entry of an index grid is an index of an axis of length [dim]. *)
Definition indices_below (g : array Z) (dim : Z) : Prop :=
  Forall (fun a => 0 <= a < dim) (data g).

(** The coordinate of output position [i] along an axis of [n_in] input
    and [n_out] output samples in bilinear mode, as one fraction. *)
Definition axis_coordinate (align_corners : bool) (n_in n_out i : Z) : Qc :=
  if align_corners
  then (Z2Qc (i * (n_in - 1)) / Z2Qc (n_out - 1))%Qc
  else Qc_max (Z2Qc ((2 * i + 1) * n_in - n_out) / Z2Qc (2 * n_out))%Qc 0%Qc.

(** The base index along an axis, in integer arithmetic. *)
Definition axis_index (mode : sampling_mode) (align_corners : bool)
    (n_in n_out i : Z) : Z :=
  match mode with
  | bilinear =>
      if align_corners then (i * (n_in - 1)) / (n_out - 1)
      else Z.max 0 (((2 * i + 1) * n_in - n_out) / (2 * n_out))
  | nearest => Z.min ((i * n_in) / n_out) (n_in - 1)
  end.

(** The weight of the next sample along an axis. *)
Definition axis_weight (mode : sampling_mode) (align_corners : bool)
    (n_in n_out i : Z) : Qc :=
  match mode with
  | bilinear =>
      (axis_coordinate align_corners n_in n_out i
       - Z2Qc (axis_index bilinear align_corners n_in n_out i))%Qc
  | nearest => 0%Qc
  end.

(** The two expressions of the source for a bilinear coordinate. *)
Definition bilinear_coordinate (align_corners : bool) (n_in n_out i : Z) : float :=
  if align_corners
  then fdiv (fmul (of_int i) (of_int (n_in - 1))) (of_int (n_out - 1))
  else fmaximum
         (fsub (fdiv (fmul (fadd (of_int i) half) (of_int n_in)) (of_int n_out)) half)
         (of_int 0).

(** The parameters for which the AlignCorners formula divides by zero. *)
Definition degenerate (mode : sampling_mode) (align_corners : bool)
    (out_H out_W : Z) : bool :=
  match mode with
  | bilinear => align_corners && ((out_H =? 1) || (out_W =? 1))
  | nearest => false
  end.

(** The four grids of a node for an input of H x W samples, cell by cell. *)
Definition axis_grids (mode : sampling_mode) (align_corners : bool)
    (H W out_H out_W : Z) (float_type : scalar_type)
  : array Z * array Z * array Qc * array Qc :=
  let cells := arange (out_H * out_W) in
  (mk_array Intp [out_H; out_W]
     (map (fun k => axis_index mode align_corners H out_H (k / out_W)) cells),
   mk_array Intp [out_H; out_W]
     (map (fun k => axis_index mode align_corners W out_W (k mod out_W)) cells),
   mk_array float_type [out_H; out_W]
     (map (fun k => axis_weight mode align_corners H out_H (k / out_W)) cells),
   mk_array float_type [out_H; out_W]
     (map (fun k => axis_weight mode align_corners W out_W (k mod out_W)) cells)).

(** The sum of [h a b] over the pairs of two lists read side by side. *)
Definition sum_zip {A B : Type} (h : A -> B -> Qc) (l1 : list A) (l2 : list B) : Qc :=
  sum_Qc (zip_with h l1 l2).


(** ** Rounded arithmetic

    The two places of the source where the rounding of IEEE arithmetic
    decides what a claim says of the code, evaluated with the binary
    floats of the standard library ([spec_float]; precision 53 and
    exponent bound 1024 for float64, 24 and 128 for float32).  The rest of
    the development keeps the exact arithmetic introduced above. *)

Definition binary64_of_int (z : Z) : spec_float := binary_normalize 53 1024 z 0 false.

Definition binary32_of_int (z : Z) : spec_float := binary_normalize 24 128 z 0 false.

(** [a.astype(numpy.float32)] on a float64. *)
Definition binary32_of_binary64 (f : spec_float) : spec_float :=
  match f with
  | S754_finite s m e => binary_normalize 24 128 (if s then Z.neg m else Z.pos m) e s
  | _ => f
  end.

(** [numpy.floor] of a finite binary float [m * 2^e], as an integer. *)
Definition floor_of_float (f : spec_float) : Z :=
  match f with
  | S754_finite s m e =>
      let z := if s then Z.neg m else Z.pos m in
      if 0 <=? e then z * 2 ^ e else z / 2 ^ (- e)
  | _ => 0
  end.

(** The base index of the nearest branch as NumPy evaluates it, for
    [n_out <> 0]: [y_scale = H / out_H] is the float64 quotient of the two
    integers, [arange(out_H) * y_scale] a float64 product, and
    [minimum(floor(.), H - 1)] and the conversion to [intp] are exact on
    the whole number [floor] returns. *)
Definition nearest_index_binary64 (n_in n_out i : Z) : Z :=
  let scale := SFdiv 53 1024 (binary64_of_int n_in) (binary64_of_int n_out) in
  Z.min (floor_of_float (SFmul 53 1024 (binary64_of_int i) scale)) (n_in - 1).

(** The four weight planes on float32 arrays, by the four array operations
    of the source: [wcol[0, 1] = uw], [subtract(1, wcol[0, 1], out=wcol[0, 0])],
    [multiply(wcol[0], vw, out=wcol[1])], [wcol[0] -= wcol[1]]. *)
Definition weight_planes_binary32 (uw vw : list spec_float) : list (list spec_float) :=
  let w01 := uw in
  let w00 := map (fun a => SFsub 24 128 (binary32_of_int 1) a) w01 in
  let w10 := zip_with (SFmul 24 128) w00 vw in
  let w11 := zip_with (SFmul 24 128) w01 vw in
  let w00 := zip_with (SFsub 24 128) w00 w10 in
  let w01 := zip_with (SFsub 24 128) w01 w11 in
  [w00; w01; w10; w11].

(** One output cell of [numpy.einsum('ijk,jk->ik', panel, weights)] on
    float32: the products of the four corners and their weights, added up
    from zero. *)
Definition einsum_cell_binary32 (corners weights : list spec_float) : spec_float :=
  fold_left (fun acc pw => SFadd 24 128 acc (SFmul 24 128 (fst pw) (snd pw)))
            (combine corners weights) (S754_zero false).

(** The cell the engine computes on float32 for four corners and the
    weights [uw], [vw] of its position. *)
Definition engine_cell_binary32 (x00 x01 x10 x11 uw vw : spec_float) : spec_float :=
  einsum_cell_binary32 [x00; x01; x10; x11]
    (map (fun plane => hd S754_nan plane) (weight_planes_binary32 [uw] [vw])).

(** Section 4.2 of the specification on float32: the four weights as
    products and the weighted sum of the four corners, as written. *)
Definition bilinear_formula_binary32 (x00 x01 x10 x11 uw vw : spec_float) : spec_float :=
  let one := binary32_of_int 1 in
  let mul := SFmul 24 128 in
  let add := SFadd 24 128 in
  let sub := SFsub 24 128 in
  let w00 := mul (sub one uw) (sub one vw) in
  let w01 := mul uw (sub one vw) in
  let w10 := mul (sub one uw) vw in
  let w11 := mul uw vw in
  add (add (add (mul w00 x00) (mul w01 x01)) (mul w10 x10)) (mul w11 x11).

(** What the specification asks of the engine, to the bit. *)
Definition bit_identical_to_formula : Prop :=
  forall x00 x01 x10 x11 uw vw,
    engine_cell_binary32 x00 x01 x10 x11 uw vw
    = bilinear_formula_binary32 x00 x01 x10 x11 uw vw.

(** ** Sample inputs *)

(** The image of the concrete scenario of section 8: shape (1,1,2,2),
    values [[1,2],[3,4]]. *)
Definition X22 : array Qc :=
  mk_array Float32 [1; 1; 2; 2] [Z2Qc 1; Z2Qc 2; Z2Qc 3; Z2Qc 4].

(** Its resize to (4,4), computed by hand from the AlignCorners formula:
    the cell (i, j) is 1 + j/3 + 2*i/3. *)
Definition Y44 : array Qc :=
  mk_array Float32 [1; 1; 4; 4]
    [Q2Qc 1; Q2Qc (4 # 3); Q2Qc (5 # 3); Q2Qc 2;
     Q2Qc (5 # 3); Q2Qc 2; Q2Qc (7 # 3); Q2Qc (8 # 3);
     Q2Qc (7 # 3); Q2Qc (8 # 3); Q2Qc 3; Q2Qc (10 # 3);
     Q2Qc 3; Q2Qc (10 # 3); Q2Qc (11 # 3); Q2Qc 4].

(** A one-pixel image, a one-pixel gradient and the grids of one cell. *)
Definition X11 : array Qc := mk_array Float32 [1; 1; 1; 1] [Z2Qc 5].
Definition GY11 : array Qc := mk_array Float32 [1; 1; 1; 1] [Z2Qc 7].
Definition index_grid_11 : array Z := mk_array Intp [1; 1] [0].
Definition weight_grid_11 : array Qc := mk_array Float32 [1; 1] [0%Qc].

(** The weight of output row 1 when two rows become four with
    AlignCorners: the fraction of the float64 coordinate 1 * (2 - 1) / (4 - 1),
    converted to float32 as [forward] does. *)
Definition third_binary32 : spec_float :=
  binary32_of_binary64
    (SFdiv 53 1024 (SFmul 53 1024 (binary64_of_int 1) (binary64_of_int (2 - 1)))
                   (binary64_of_int (4 - 1))).

(** A gradient for an output of three rows and five columns. *)
Definition GY35 : array Qc :=
  mk_array Float32 [1; 1; 3; 5]
    (map Z2Qc [1; 2; 3; 4; 5; 6; 7; 8; 9; 10; 11; 12; 13; 14; 15]).

(** An image of the wrong rank and one of the wrong element type. *)
Definition X_rank3 : array Qc := mk_array Float32 [1; 2; 2] (data X22).
Definition X_float64 : array Qc := mk_array Float64 [1; 1; 2; 2] (data X22).

(** * Properties of the heuristic and of the panel loop *)

Section InferLines.

Lemma infer_lines_loop_spec (target : Z) :
  forall (fuel : nat) (lines : Z),
    1 <= lines ->
    Z.max 0 (target - lines) < Z.of_nat fuel ->
    (exists k, 0 <= k /\ lines = 2 ^ k) ->
    (lines <= target \/ lines = 1) ->
    exists r k, infer_lines_loop fuel lines target = Some r /\
                0 <= k /\ r = 2 ^ k /\ lines <= r /\
                (r <= target \/ r = 1) /\ target < 2 * r.
Proof.
  induction fuel as [|fuel IH]; intros lines Hl Hf Hp Hle.
  - simpl in Hf. lia.
  - cbn [infer_lines_loop]. rewrite Z.gtb_ltb.
    destruct (target <? lines * 2) eqn:E.
    + destruct Hp as [k [Hk Hk2]]. exists lines, k.
      repeat split; try assumption; lia.
    + assert (lines * 2 <= target) by lia.
      destruct Hp as [k [Hk Hk2]].
      destruct (IH (lines * 2)) as [r [k' [Hr [Hk' [Hr2 [Hlr [Hrt Ht]]]]]]];
        try lia.
      * exists (k + 1). split; [lia|].
        rewrite Z.pow_add_r by lia. rewrite Hk2. reflexivity.
      * exists r, k'. repeat split; try assumption; lia.
Qed.

(** Whatever the arguments, the doubling loop of [_infer_lines] stops
    within the fuel the model gives it. *)
Lemma infer_lines_never_diverges (B C H W out_H out_W kH kW : Z) :
  _infer_lines B C H W out_H out_W kH kW <> Raise Diverged.
Proof.
  unfold _infer_lines, floordiv, bind.
  destruct (out_H =? 0); [discriminate|].
  destruct (_ =? 0); [discriminate|].
  destruct (_ <? out_H); [|discriminate].
  set (t := 2 ^ 17 / _).
  destruct (infer_lines_loop_spec t (S (Z.to_nat t)) 1) as [r [k [Hr _]]];
    try lia.
  - exists 0. split; [lia|reflexivity].
  - rewrite Hr. discriminate.
Qed.

Lemma range_loop_spec (stop step : Z) (Hstep : 0 < step) :
  forall (fuel : nat) (i : Z),
    stop - i <= Z.of_nat fuel ->
    range_loop fuel i stop step =
    map (fun k => i + k * step) (arange ((stop - i + step - 1) / step)).
Proof.
  assert (Hs : (0 <? step) = true) by lia.
  induction fuel as [|fuel IH]; intros i Hf.
  - simpl. unfold arange.
    assert ((stop - i + step - 1) / step <= 0).
    { apply Z.lt_succ_r. apply Z.div_lt_upper_bound; lia. }
    replace (Z.to_nat _) with 0%nat by lia. reflexivity.
  - simpl. rewrite Hs. destruct (i <? stop) eqn:E.
    + rewrite IH by lia. unfold arange.
      replace (stop - i + step - 1) with (stop - (i + step) + step - 1 + 1 * step) by lia.
      rewrite Z.div_add by lia.
      assert (0 <= (stop - (i + step) + step - 1) / step).
      { apply Z.div_pos; lia. }
      replace (Z.to_nat (_ + 1)) with (S (Z.to_nat ((stop - (i + step) + step - 1) / step))) by lia.
      simpl. f_equal; [lia|].
      rewrite <- seq_shift, !map_map. apply map_ext. intros a. lia.
    + unfold arange.
      assert ((stop - i + step - 1) / step <= 0).
      { apply Z.lt_succ_r. apply Z.div_lt_upper_bound; lia. }
      replace (Z.to_nat _) with 0%nat by lia. reflexivity.
Qed.

(** [range(0, n, step)] for a positive step: the multiples of [step]
    below [n], of which there are [ceil(n / step)]. *)
Lemma py_range_panels (n step : Z) :
  0 < step ->
  py_range 0 n step = Ok (map (fun k => k * step) (arange ((n + step - 1) / step))).
Proof.
  intros Hstep. unfold py_range.
  replace (step =? 0) with false by lia.
  rewrite range_loop_spec by lia.
  rewrite Z.sub_0_r. reflexivity.
Qed.

End InferLines.

Section InferLinesBounds.

Variables B C H W out_H out_W : Z.
Hypothesis HB : 0 < B.
Hypothesis HC : 0 < C.
Hypothesis HH : 0 < H.
Hypothesis HW : 0 < W.
Hypothesis HoH : 0 < out_H.
Hypothesis HoW : 0 < out_W.

Let line_size := B * C * (H * W / out_H + 2 * 2 * out_W).
Let target_lines := 2 ^ 17 / line_size.

Lemma line_size_pos : 0 < line_size.
Proof.
  unfold line_size.
  assert (0 <= H * W / out_H) by (apply Z.div_pos; nia).
  nia.
Qed.

Lemma target_lines_nonneg : 0 <= target_lines.
Proof.
  unfold target_lines. apply Z.div_pos; [lia|apply line_size_pos].
Qed.

Lemma infer_lines_value :
  _infer_lines B C H W out_H out_W 2 2 =
  Ok (if target_lines <? out_H then 2 ^ Z.log2 target_lines else out_H).
Proof.
  pose proof line_size_pos as Hls. pose proof target_lines_nonneg as Ht.
  unfold _infer_lines, floordiv, bind.
  replace (out_H =? 0) with false by lia.
  fold line_size. replace (line_size =? 0) with false by lia.
  fold target_lines.
  destruct (target_lines <? out_H) eqn:E; [|reflexivity].
  destruct (infer_lines_loop_spec target_lines (S (Z.to_nat target_lines)) 1)
    as [r [k [Hr [Hk [Hr2 [_ [Hrt Hlt]]]]]]]; try lia.
  - exists 0. split; [lia|reflexivity].
  - rewrite Hr. f_equal.
    destruct (Z.eq_dec target_lines 0) as [E0|E0].
    + rewrite E0. simpl. rewrite E0 in Hrt, Hlt.
      destruct Hrt as [Hrt|Hrt]; [|exact Hrt].
      assert (0 < 2 ^ k) by (apply Z.pow_pos_nonneg; lia). lia.
    + assert (Hk2 : 2 ^ k <= target_lines).
      { destruct Hrt as [Hrt|Hrt]; lia. }
      rewrite Hr2. f_equal. symmetry. apply Z.log2_unique; [lia|].
      split; [lia|]. rewrite Z.pow_succ_r by lia. lia.
Qed.

End InferLinesBounds.

Lemma infer_lines_range (B C H W out_H out_W : Z) :
  0 < B -> 0 < C -> 0 < H -> 0 < W -> 0 < out_H -> 0 < out_W ->
  exists lines,
    _infer_lines B C H W out_H out_W 2 2 = Ok lines /\ 1 <= lines <= out_H.
Proof.
  intros HB HC HH HW HoH HoW.
  pose proof (target_lines_nonneg B C H W out_H out_W HB HC HH HW HoH HoW) as Ht.
  pose proof (infer_lines_value B C H W out_H out_W HB HC HH HW HoH HoW) as Hv.
  cbv zeta in Ht, Hv.
  set (target_lines := 2 ^ 17 / _) in *.
  assert (Hpow : 1 <= 2 ^ Z.log2 target_lines).
  { assert (0 < 2 ^ Z.log2 target_lines);
      [apply Z.pow_pos_nonneg; [lia|apply Z.log2_nonneg]|lia]. }
  assert (Hle : target_lines <> 0 -> 2 ^ Z.log2 target_lines <= target_lines).
  { intros Hne. apply Z.log2_spec. lia. }
  assert (Hz : target_lines = 0 -> 2 ^ Z.log2 target_lines = 1).
  { intros ->. reflexivity. }
  destruct (Z.ltb_spec target_lines out_H) as [Hlt|Hge];
    eexists; (split; [exact Hv|]); [|lia].
  destruct (Z.eq_dec target_lines 0); [rewrite Hz by assumption|]; lia.
Qed.

(** C10.  For positive sizes the divisor [line_size] of the heuristic is
    positive, [_infer_lines] returns a panel height [lines] with
    [1 <= lines <= max(out_H, 2^log2(target_lines))] (the power of two is the
    largest one not above [target_lines = 2^17 // line_size], read as 1 when
    that quotient is 0; in fact [lines <= out_H]), and the panel loop visits
    the starts 0, lines, 2*lines, ..., that is [ceil(out_H / lines)] turns. *)
Theorem infer_lines_bounds (B C H W out_H out_W : Z) :
  0 < B -> 0 < C -> 0 < H -> 0 < W -> 0 < out_H -> 0 < out_W ->
  let line_size := B * C * (H * W / out_H + 2 * 2 * out_W) in
  let target_lines := 2 ^ 17 / line_size in
  0 < line_size /\
  exists lines,
    _infer_lines B C H W out_H out_W 2 2 = Ok lines /\
    1 <= lines /\
    lines <= Z.max out_H (2 ^ Z.log2 target_lines) /\
    lines <= out_H /\
    (exists starts,
        py_range 0 out_H lines = Ok starts /\
        starts = map (fun k => k * lines) (arange ((out_H + lines - 1) / lines)) /\
        length starts = Z.to_nat ((out_H + lines - 1) / lines)).
Proof.
  intros HB HC HH HW HoH HoW line_size target_lines.
  split; [apply line_size_pos; assumption|].
  destruct (infer_lines_range B C H W out_H out_W HB HC HH HW HoH HoW)
    as [lines [Hv Hr]].
  exists lines. split; [exact Hv|].
  split; [lia|]. split; [lia|]. split; [lia|].
  eexists. split; [apply py_range_panels; lia|].
  split; [reflexivity|].
  unfold arange. rewrite !length_map, length_seq. reflexivity.
Qed.

Lemma infer_lines_bounds_witness :
  exists lines,
    _infer_lines 1 1 2 2 4 4 2 2 = Ok lines /\ 1 <= lines /\ lines <= 4.
Proof.
  destruct (infer_lines_bounds 1 1 2 2 4 4) as [_ [lines [H1 [H2 [_ [H4 _]]]]]];
    try lia.
  exists lines. auto.
Defined.

(** * Lists, slices and sums *)

Section ListFacts.

Context {A B C D : Type}.

Lemma zip_with_map (f : B -> C -> D) (g : A -> B) (h : A -> C) (l : list A) :
  zip_with f (map g l) (map h l) = map (fun a => f (g a) (h a)) l.
Proof.
  unfold zip_with. induction l as [|a l IH]; simpl; [reflexivity|].
  f_equal. exact IH.
Qed.

Lemma length_zip_with (f : A -> B -> C) (l1 : list A) (l2 : list B) :
  length (zip_with f l1 l2) = Nat.min (length l1) (length l2).
Proof.
  unfold zip_with. rewrite length_map, length_combine. reflexivity.
Qed.

Lemma length_arange (n : Z) : length (arange n) = Z.to_nat n.
Proof. unfold arange. rewrite length_map, length_seq. reflexivity. Qed.

Lemma in_arange (n k : Z) : In k (arange n) <-> 0 <= k < n.
Proof.
  unfold arange. rewrite in_map_iff. split.
  - intros [i [<- Hi]]. apply in_seq in Hi. lia.
  - intros Hk. exists (Z.to_nat k). split; [lia|]. apply in_seq. lia.
Qed.

Lemma znth_map_arange (F : Z -> A) (n i : Z) (d : A) :
  0 <= i < n -> znth i (map F (arange n)) d = F i.
Proof.
  intros Hi. unfold znth, arange. rewrite map_map.
  rewrite nth_indep with (d' := F (Z.of_nat 0)) by (rewrite length_map, length_seq; lia).
  rewrite (map_nth (fun k => F (Z.of_nat k))), seq_nth by lia.
  f_equal. lia.
Qed.

Lemma list_as_map (l : list A) (d : A) :
  l = map (fun k => znth k l d) (arange (Z.of_nat (length l))).
Proof.
  apply nth_ext with (d := d) (d' := d).
  - rewrite length_map, length_arange. lia.
  - intros n Hn.
    replace n with (Z.to_nat (Z.of_nat n)) at 2 by lia.
    fold (znth (Z.of_nat n) (map (fun k => znth k l d) (arange (Z.of_nat (length l)))) d).
    rewrite znth_map_arange by lia. unfold znth. f_equal. lia.
Qed.

Lemma length_slice (l : list A) (a b : Z) :
  0 <= a <= b -> b <= Z.of_nat (length l) ->
  length (slice l a b) = Z.to_nat (b - a).
Proof.
  intros Hab Hb. unfold slice. rewrite length_firstn, length_skipn. lia.
Qed.

Lemma slice_as_map (l : list A) (d : A) (a b : Z) :
  0 <= a <= b -> b <= Z.of_nat (length l) ->
  slice l a b = map (fun k => znth (a + k) l d) (arange (b - a)).
Proof.
  intros Hab Hb.
  apply nth_ext with (d := d) (d' := d).
  - rewrite length_slice, length_map, length_arange by assumption. reflexivity.
  - intros n Hn. rewrite length_slice in Hn by assumption.
    replace n with (Z.to_nat (Z.of_nat n)) at 2 by lia.
    fold (znth (Z.of_nat n) (map (fun k => znth (a + k) l d) (arange (b - a))) d).
    rewrite znth_map_arange by lia.
    unfold slice, znth. rewrite nth_firstn.
    replace (n <? Z.to_nat (b - a))%nat with true by (symmetry; apply Nat.ltb_lt; lia).
    rewrite nth_skipn. f_equal. lia.
Qed.

Lemma slice_map_arange (F : Z -> A) (n a b : Z) :
  0 <= a <= b -> b <= n ->
  slice (map F (arange n)) a b = map (fun k => F (a + k)) (arange (b - a)).
Proof.
  intros Hab Hb.
  destruct (Z.eq_dec a b) as [->|Hne].
  { unfold slice. rewrite Z.sub_diag. reflexivity. }
  rewrite slice_as_map with (d := F 0) by (rewrite ?length_map, ?length_arange; lia).
  apply map_ext_in. intros k Hk. apply in_arange in Hk.
  apply znth_map_arange. lia.
Qed.

Lemma slice_full (l : list A) : slice l 0 (Z.of_nat (length l)) = l.
Proof.
  unfold slice. simpl. rewrite Z.sub_0_r, Nat2Z.id. apply firstn_all.
Qed.

Lemma assign_segment (s g : list A) (a b : nat) :
  (a <= b)%nat -> (b <= length s)%nat -> length g = length s ->
  let row := firstn a s ++ skipn a g in
  firstn a row ++ firstn (b - a) (skipn a s) ++ skipn b row
  = firstn b s ++ skipn b g.
Proof.
  intros Hab Hb Hg row. unfold row.
  assert (Hla : length (firstn a s) = a) by (rewrite length_firstn; lia).
  rewrite firstn_app, Hla, Nat.sub_diag, firstn_firstn, Nat.min_id.
  simpl. rewrite app_nil_r.
  rewrite skipn_app, Hla, skipn_skipn.
  rewrite (skipn_all2 (firstn a s)) by lia. simpl.
  replace (b - a + a)%nat with b by lia.
  rewrite app_assoc. f_equal.
  rewrite <- (firstn_skipn a (firstn b s)).
  rewrite firstn_firstn, Nat.min_l by lia.
  rewrite skipn_firstn_comm. reflexivity.
Qed.

Lemma mapM_ok (f : A -> result B) (g : A -> B) (l : list A) :
  (forall a, In a l -> f a = Ok (g a)) -> mapM f l = Ok (map g l).
Proof.
  induction l as [|a l IH]; intros Hf; simpl; [reflexivity|].
  rewrite Hf by (left; reflexivity). simpl.
  rewrite IH by (intros; apply Hf; right; assumption). reflexivity.
Qed.

Lemma repeat_as_map (d : B) (l : list A) :
  repeat d (length l) = map (fun _ => d) l.
Proof. induction l; simpl; f_equal; assumption. Qed.

End ListFacts.

(** * The forward engine *)

Lemma wrap_intp_small (z : Z) : - 2 ^ 63 <= z < 2 ^ 63 -> wrap_intp z = z.
Proof.
  intros Hz. unfold wrap_intp.
  change (2 ^ 64) with (2 * 2 ^ 63).
  rewrite Z.mod_small; lia.
Qed.

Lemma normalize_index_ok (dim : Z) (l : list Z) :
  Forall (fun a => 0 <= a < dim) l -> mapM (normalize_index dim) l = Ok l.
Proof.
  intros Hl. rewrite mapM_ok with (g := fun a => a); [rewrite map_id; reflexivity|].
  intros a Ha. rewrite Forall_forall in Hl. specialize (Hl a Ha).
  unfold normalize_index.
  replace (- dim <=? a) with true by lia. replace (a <? dim) with true by lia.
  replace (a <? 0) with false by lia. reflexivity.
Qed.

Lemma next_index_map (last : Z) (f : Z -> Z) (ks : list Z) :
  last + 1 < 2 ^ 63 ->
  (forall k, In k ks -> 0 <= f k <= last) ->
  next_index last (map f ks) = map (fun k => Z.min (f k + 1) last) ks.
Proof.
  intros Hlast Hf. unfold next_index. rewrite map_map.
  apply map_ext_in. intros k Hk. specialize (Hf k Hk).
  rewrite wrap_intp_small by lia. reflexivity.
Qed.

Lemma weight_planes_map (uwf vwf : Z -> Qc) (ks : list Z) :
  weight_planes (map uwf ks) (map vwf ks) =
  [map (fun k => (1 - uwf k) - (1 - uwf k) * vwf k)%Qc ks;
   map (fun k => uwf k - uwf k * vwf k)%Qc ks;
   map (fun k => (1 - uwf k) * vwf k)%Qc ks;
   map (fun k => uwf k * vwf k)%Qc ks].
Proof.
  unfold weight_planes. rewrite map_map.
  rewrite !zip_with_map. reflexivity.
Qed.

Lemma gather_panel_map (x : array Qc) (B C H W : Z) (v0 v1 u0 u1 : Z -> Z) (ks : list Z) :
  gather_panel x B C H W [map v0 ks; map v1 ks] [map u0 ks; map u1 ks] =
  map (fun bc => [map (fun k => pixel x H W bc (v0 k) (u0 k)) ks;
                  map (fun k => pixel x H W bc (v0 k) (u1 k)) ks;
                  map (fun k => pixel x H W bc (v1 k) (u0 k)) ks;
                  map (fun k => pixel x H W bc (v1 k) (u1 k)) ks])
      (arange (B * C)).
Proof.
  unfold gather_panel. apply map_ext. intros bc. simpl.
  rewrite !zip_with_map. reflexivity.
Qed.

Lemma einsum_rows (p0 p1 p2 p3 : Z -> Z -> Qc) (w0 w1 w2 w3 : Z -> Qc)
    (bcs ks : list Z) :
  einsum_ijk_jk_ik
    (map (fun bc => [map (p0 bc) ks; map (p1 bc) ks; map (p2 bc) ks; map (p3 bc) ks]) bcs)
    [map w0 ks; map w1 ks; map w2 ks; map w3 ks] (length ks) =
  map (fun bc => map (fun k => (0 + p0 bc k * w0 k + p1 bc k * w1 k
                                + p2 bc k * w2 k + p3 bc k * w3 k)%Qc) ks) bcs.
Proof.
  unfold einsum_ijk_jk_ik. rewrite map_map. apply map_ext. intros bc. simpl.
  rewrite (repeat_as_map (Q2Qc 0) ks).
  rewrite !zip_with_map. reflexivity.
Qed.

Lemma code_blend_is_spec (x : array Qc) (H W bc v0 u0 : Z) (vw uw : Qc) :
  (0 + pixel x H W bc v0 u0 * ((1 - uw) - (1 - uw) * vw)
   + pixel x H W bc v0 (Z.min (u0 + 1) (W - 1)) * (uw - uw * vw)
   + pixel x H W bc (Z.min (v0 + 1) (H - 1)) u0 * ((1 - uw) * vw)
   + pixel x H W bc (Z.min (v0 + 1) (H - 1)) (Z.min (u0 + 1) (W - 1)) * (uw * vw))%Qc
  = bilinear_pixel_spec x H W bc v0 u0 vw uw.
Proof.
  unfold bilinear_pixel_spec. cbv zeta. ring.
Qed.

Lemma slice_rows_grid {A : Type} (g : array A) (h w i l : Z) :
  grid g h w -> 0 <= i -> 0 <= l -> i + l <= h ->
  slice_rows g i (i + l) =
  mk_array (dtype g) [l; w] (slice (data g) (i * w) ((i + l) * w)).
Proof.
  intros [Hs _] Hi Hl Hil. unfold slice_rows. rewrite Hs.
  rewrite (Z.min_l i h), (Z.min_l (i + l) h), (Z.max_r i (i + l)) by lia.
  replace (i + l - i) with l by lia. reflexivity.
Qed.

Lemma broadcast_to_same {A : Type} (d : A) (dt : scalar_type) (h w : Z) (l : list A) :
  broadcast_to d (mk_array dt [h; w] l) h w = Ok l.
Proof.
  unfold broadcast_to. simpl. rewrite !Z.eqb_refl. reflexivity.
Qed.

Lemma broadcast_to_grid {A : Type} (d : A) (g : array A) (h w : Z) :
  grid g h w -> broadcast_to d g h w = Ok (data g).
Proof.
  intros [Hs _]. unfold broadcast_to. rewrite Hs, !Z.eqb_refl. reflexivity.
Qed.

Lemma grid_slice_map {A : Type} (g : array A) (d : A) (h w i l : Z) :
  grid g h w -> 0 <= w -> 0 <= i -> 0 <= l -> i + l <= h ->
  slice (data g) (i * w) ((i + l) * w) =
  map (fun k => znth (i * w + k) (data g) d) (arange (l * w)).
Proof.
  intros [_ Hlen] Hw Hi Hl Hil.
  rewrite slice_as_map with (d := d) by nia.
  replace ((i + l) * w - i * w) with (l * w) by ring. reflexivity.
Qed.

Lemma indices_below_znth (g : array Z) (dim j : Z) :
  indices_below g dim -> 0 <= j < Z.of_nat (length (data g)) ->
  0 <= znth j (data g) 0 < dim.
Proof.
  intros Hg Hj. unfold indices_below in Hg. rewrite Forall_forall in Hg.
  apply Hg. unfold znth. apply nth_In. lia.
Qed.

Lemma normalize_planes_ok (dim : Z) (l1 l2 : list Z) :
  Forall (fun a => 0 <= a < dim) l1 -> Forall (fun a => 0 <= a < dim) l2 ->
  mapM (mapM (normalize_index dim)) [l1; l2] = Ok [l1; l2].
Proof.
  intros H1 H2. simpl. rewrite !normalize_index_ok by assumption. reflexivity.
Qed.

Lemma Forall_map_in {A B : Type} (P : B -> Prop) (f : A -> B) (l : list A) :
  (forall a, In a l -> P (f a)) -> Forall P (map f l).
Proof.
  intros Hf. apply Forall_forall. intros b Hb.
  apply in_map_iff in Hb. destruct Hb as [a [<- Ha]]. auto.
Qed.

Lemma image_axes_small (x : array Qc) (B C H W : Z) :
  image_batch x B C H W -> H < 2 ^ 63 /\ W < 2 ^ 63.
Proof.
  intros (_ & _ & HB & HC & HH & HW & Hsz & _).
  split; nia.
Qed.

Section ForwardEngine.

Variable garbage : Qc.
Variables (x : array Qc) (v u : array Z) (vw uw : array Qc).
Variables B C H W out_H out_W : Z.
Hypothesis Hx : image_batch x B C H W.
Hypothesis Hv : grid v out_H out_W.
Hypothesis Hu : grid u out_H out_W.
Hypothesis Hvw : grid vw out_H out_W.
Hypothesis Huw : grid uw out_H out_W.
Hypothesis Hvin : indices_below v H.
Hypothesis Huin : indices_below u W.
Hypothesis HoH : 0 < out_H.
Hypothesis HoW : 0 < out_W.

Let K := out_H * out_W.

Let spec_row (bc : Z) : list Qc :=
  map (fun k => bilinear_pixel_spec x H W bc
                  (znth k (data v) 0) (znth k (data u) 0)
                  (znth k (data vw) 0%Qc) (znth k (data uw) 0%Qc))
      (arange K).

(** The output after the panels above row [t] have been written. *)
Let Y (t : Z) : list (list Qc) :=
  map (fun bc => firstn (Z.to_nat (t * out_W)) (spec_row bc)
                 ++ skipn (Z.to_nat (t * out_W)) (repeat garbage (Z.to_nat K)))
      (arange (B * C)).

Lemma panel_step_ok (lines rows i : Z) :
  1 <= lines -> 0 <= i < out_H ->
  Z.min lines (out_H - i) <= rows ->
  panel_step x v u vw uw B C H W out_H out_W lines (rows, Y i) i =
  Ok (Z.min lines (out_H - i), Y (i + Z.min lines (out_H - i))).
Proof.
  intros Hlines Hi Hrows.
  set (l := Z.min lines (out_H - i)) in *.
  assert (Hl : 1 <= l /\ i + l <= out_H) by lia.
  destruct (image_axes_small x B C H W Hx) as [HHs HWs].
  unfold panel_step. cbv zeta. fold l.
  replace (Z.min rows l) with l by lia.
  rewrite (slice_rows_grid v out_H out_W), (slice_rows_grid u out_H out_W),
          (slice_rows_grid vw out_H out_W), (slice_rows_grid uw out_H out_W)
    by (assumption || lia).
  rewrite !broadcast_to_same. cbn [bind].
  rewrite (grid_slice_map v 0 out_H), (grid_slice_map u 0 out_H),
          (grid_slice_map vw 0%Qc out_H), (grid_slice_map uw 0%Qc out_H)
    by (assumption || lia).
  set (ks := arange (l * out_W)).
  assert (Hks : forall k, In k ks -> 0 <= i * out_W + k < out_H * out_W).
  { intros k Hk. apply in_arange in Hk. nia. }
  assert (Hvk : forall k, In k ks -> 0 <= znth (i * out_W + k) (data v) 0 < H).
  { intros k Hk. apply indices_below_znth; [assumption|].
    destruct Hv as [_ ->]. auto. }
  assert (Huk : forall k, In k ks -> 0 <= znth (i * out_W + k) (data u) 0 < W).
  { intros k Hk. apply indices_below_znth; [assumption|].
    destruct Hu as [_ ->]. auto. }
  rewrite (next_index_map (H - 1)), (next_index_map (W - 1))
    by (try lia; intros k Hk; specialize (Hvk k Hk); specialize (Huk k Hk); lia).
  rewrite !normalize_planes_ok
    by (apply Forall_map_in; intros k Hk; specialize (Hvk k Hk);
        specialize (Huk k Hk); lia).
  cbn [bind].
  replace (B * C * (2 * 2 * (l * out_W)) =? B * C * 4 * (l * out_W)) with true
    by (symmetry; apply Z.eqb_eq; ring).
  cbn [bind].
  rewrite gather_panel_map, weight_planes_map.
  replace (Z.to_nat (l * out_W)) with (length ks) by (unfold ks; apply length_arange).
  rewrite einsum_rows.
  f_equal. f_equal.
  unfold assign_columns, Y. rewrite zip_with_map.
  apply map_ext. intros bc.
  assert (Hseg : forall F : Z -> Qc,
    (forall k, F k = bilinear_pixel_spec x H W bc
                       (znth (i * out_W + k) (data v) 0) (znth (i * out_W + k) (data u) 0)
                       (znth (i * out_W + k) (data vw) 0%Qc)
                       (znth (i * out_W + k) (data uw) 0%Qc)) ->
    map F ks = slice (spec_row bc) (i * out_W) ((i + l) * out_W)).
  { intros F HF. unfold spec_row. rewrite slice_map_arange by (unfold K; nia).
    replace ((i + l) * out_W - i * out_W) with (l * out_W) by ring.
    apply map_ext. exact HF. }
  erewrite Hseg by (intros k; apply code_blend_is_spec).
  unfold slice at 1.
  replace (Z.to_nat ((i + l) * out_W - i * out_W))
    with (Z.to_nat ((i + l) * out_W) - Z.to_nat (i * out_W))%nat by nia.
  apply assign_segment.
  - nia.
  - unfold spec_row. rewrite length_map, length_arange. unfold K. nia.
  - unfold spec_row. rewrite length_map, length_arange, repeat_length. reflexivity.
Qed.

Lemma panels_loop (lines : Z) (Hlines : 1 <= lines) :
  forall (j m : nat) (rows : Z),
    ((0 < j)%nat -> (Z.of_nat m + Z.of_nat j - 1) * lines < out_H) ->
    Z.min lines (out_H - Z.of_nat m * lines) <= rows ->
    exists rows',
      foldM (panel_step x v u vw uw B C H W out_H out_W lines)
            (map (fun k => k * lines) (map Z.of_nat (seq m j)))
            (rows, Y (Z.min (Z.of_nat m * lines) out_H))
      = Ok (rows', Y (Z.min ((Z.of_nat m + Z.of_nat j) * lines) out_H)).
Proof.
  induction j as [|j IH]; intros m rows Hlast Hrows.
  - exists rows. simpl. rewrite Z.add_0_r. reflexivity.
  - assert (Hm : Z.of_nat m * lines < out_H) by nia.
    cbn [seq map foldM].
    rewrite (Z.min_l (Z.of_nat m * lines) out_H) by lia.
    rewrite panel_step_ok by lia. cbn [bind].
    destruct (IH (S m) (Z.min lines (out_H - Z.of_nat m * lines))) as [rows' Hr].
    + intros Hj. nia.
    + nia.
    + exists rows'.
      replace (Z.min (Z.of_nat (S m) * lines) out_H)
        with (Z.of_nat m * lines + Z.min lines (out_H - Z.of_nat m * lines)) in Hr by nia.
      rewrite Hr. do 3 f_equal. lia.
Qed.

Lemma Y_start : repeat (repeat garbage (Z.to_nat (out_H * out_W))) (Z.to_nat (B * C)) = Y 0.
Proof.
  unfold Y. simpl.
  rewrite <- (length_arange (B * C)), repeat_as_map. reflexivity.
Qed.

Lemma Y_end : concat (Y out_H) = data (resize_per_pixel_spec x v u vw uw).
Proof.
  unfold Y, resize_per_pixel_spec.
  destruct Hx as (_ & -> & _). destruct Hv as [-> _]. simpl.
  rewrite flat_map_concat_map. f_equal. apply map_ext. intros bc.
  rewrite firstn_all2, skipn_all2.
  - apply app_nil_r.
  - rewrite repeat_length. reflexivity.
  - unfold spec_row. rewrite length_map, length_arange. reflexivity.
Qed.

(** Whatever the height of the panels, the loop computes the per-pixel
    formula, and leaves none of the uninitialised cells. *)
Lemma interpolate_panels_correct (lines : Z) :
  1 <= lines ->
  interpolate_panels garbage x v u vw uw B C H W out_H out_W lines =
  Ok (resize_per_pixel_spec x v u vw uw).
Proof.
  intros Hlines.
  destruct Hx as (Hdt & Hsh & HB & HC & HH & HW & Hsz & Hlen).
  unfold interpolate_panels, check_alloc. cbn [existsb].
  replace (2 <? 0) with false by reflexivity.
  replace (lines <? 0) with false by lia.
  replace (out_W <? 0) with false by lia.
  replace (B * C <? 0) with false by nia.
  replace (out_H * out_W <? 0) with false by nia.
  cbn [orb bind].
  rewrite py_range_panels by lia. cbn [bind]. unfold arange at 1.
  set (n := (out_H + lines - 1) / lines).
  assert (Hn : n * lines <= out_H + lines - 1 < (n + 1) * lines).
  { unfold n. pose proof (Z.div_mod (out_H + lines - 1) lines ltac:(lia)) as Hdm.
    pose proof (Z.mod_pos_bound (out_H + lines - 1) lines ltac:(lia)). nia. }
  assert (Hn0 : 0 <= n) by (unfold n; apply Z.div_pos; lia).
  rewrite Y_start.
  destruct (panels_loop lines Hlines (Z.to_nat n) 0%nat lines) as [rows' Hr].
  - intros _. nia.
  - nia.
  - change (Z.min (Z.of_nat 0 * lines) out_H) with (Z.min 0 out_H) in Hr.
    rewrite (Z.min_l 0 out_H) in Hr by lia.
    rewrite Hr. cbn [bind].
    replace (Z.min ((Z.of_nat 0 + Z.of_nat (Z.to_nat n)) * lines) out_H) with out_H by nia.
    rewrite Y_end. unfold resize_per_pixel_spec.
    rewrite Hsh. destruct Hv as [-> _]. reflexivity.
Qed.

Lemma interpolate_bilinear_cpu_correct :
  interpolate_bilinear_cpu garbage x v u vw uw = Ok (resize_per_pixel_spec x v u vw uw).
Proof.
  destruct Hx as (Hdt & Hsh & HB & HC & HH & HW & Hsz & Hlen).
  unfold interpolate_bilinear_cpu. rewrite Hsh. destruct Hv as [Hvs _]. rewrite Hvs.
  destruct (infer_lines_range B C H W out_H out_W HB HC HH HW HoH HoW)
    as [lines [Hl Hr]].
  rewrite Hl. cbn [bind]. apply interpolate_panels_correct. lia.
Qed.

End ForwardEngine.

(** * Sums over lists *)

Lemma sum_Qc_app (l1 l2 : list Qc) : sum_Qc (l1 ++ l2) = (sum_Qc l1 + sum_Qc l2)%Qc.
Proof.
  induction l1 as [|a l1 IH]; simpl.
  - ring.
  - rewrite IH. ring.
Qed.

Lemma sum_Qc_map_plus {A : Type} (f g : A -> Qc) (l : list A) :
  sum_Qc (map (fun a => f a + g a)%Qc l) = (sum_Qc (map f l) + sum_Qc (map g l))%Qc.
Proof.
  induction l as [|a l IH]; simpl.
  - ring.
  - rewrite IH. ring.
Qed.

Lemma sum_Qc_zeros {A : Type} (l : list A) : sum_Qc (map (fun _ => 0%Qc) l) = 0%Qc.
Proof.
  induction l as [|a l IH]; simpl; [reflexivity|]. rewrite IH. ring.
Qed.

Section SumZip.

Context {A B : Type}.
Variable h : A -> B -> Qc.

Lemma sum_zip_app (l1 l2 : list A) (m1 m2 : list B) :
  length l1 = length m1 ->
  sum_zip h (l1 ++ l2) (m1 ++ m2) = (sum_zip h l1 m1 + sum_zip h l2 m2)%Qc.
Proof.
  unfold sum_zip, zip_with. revert m1.
  induction l1 as [|a l1 IH]; intros [|b m1] Hlen; try discriminate; simpl.
  - ring.
  - rewrite IH by (simpl in Hlen; congruence). ring.
Qed.

Lemma sum_zip_split (l1 l2 : list A) (m : list B) :
  sum_zip h (l1 ++ l2) m =
  (sum_zip h l1 (firstn (length l1) m) + sum_zip h l2 (skipn (length l1) m))%Qc.
Proof.
  unfold sum_zip, zip_with. revert m.
  induction l1 as [|a l1 IH]; intros m; simpl.
  - ring.
  - destruct m as [|b m]; simpl.
    + destruct l2; simpl; ring.
    + rewrite IH. ring.
Qed.

Lemma sum_zip_map {T : Type} (f : T -> A) (g : T -> B) (ks : list T) :
  sum_zip h (map f ks) (map g ks) = sum_Qc (map (fun k => h (f k) (g k)) ks).
Proof.
  unfold sum_zip. rewrite zip_with_map. reflexivity.
Qed.

Lemma sum_zip_flat_map {T : Type} (f : T -> list A) (g : T -> list B) (l : list T) :
  (forall t, In t l -> length (f t) = length (g t)) ->
  sum_zip h (flat_map f l) (flat_map g l) =
  sum_Qc (map (fun t => sum_zip h (f t) (g t)) l).
Proof.
  induction l as [|t l IH]; intros Hlen; simpl; [reflexivity|].
  rewrite sum_zip_app by (apply Hlen; left; reflexivity).
  rewrite IH by (intros; apply Hlen; right; assumption). reflexivity.
Qed.

(** A list of blocks of [K] cells against a flat list: block [b] meets
    the cells [b*K .. (b+1)*K - 1]. *)
Lemma sum_zip_blocks (f : Z -> list A) (K : Z) (m : list B) :
  0 <= K ->
  (forall b, length (f b) = Z.to_nat K) ->
  forall (n s : nat),
    sum_zip h (flat_map f (map Z.of_nat (seq s n))) (skipn (s * Z.to_nat K) m) =
    sum_Qc (map (fun b => sum_zip h (f b) (slice m (b * K) ((b + 1) * K)))
                (map Z.of_nat (seq s n))).
Proof.
  intros HK Hf. induction n as [|n IH]; intros s; [reflexivity|].
  cbn [seq map flat_map sum_Qc fold_right].
  rewrite sum_zip_split, Hf, skipn_skipn.
  replace (Z.to_nat K + s * Z.to_nat K)%nat with (S s * Z.to_nat K)%nat by lia.
  rewrite IH. unfold slice.
  replace (Z.to_nat ((Z.of_nat s + 1) * K - Z.of_nat s * K)) with (Z.to_nat K) by nia.
  replace (Z.to_nat (Z.of_nat s * K)) with (s * Z.to_nat K)%nat by nia.
  reflexivity.
Qed.

End SumZip.

Lemma sum_Qc_map_ext_in {A : Type} (f g : A -> Qc) (l : list A) :
  (forall a, In a l -> f a = g a) -> sum_Qc (map f l) = sum_Qc (map g l).
Proof.
  intros Hfg. f_equal. apply map_ext_in. exact Hfg.
Qed.

(** * Scatter-add *)

Lemma length_add_at (i : Z) (w : Qc) (gx : list Qc) :
  length (add_at i w gx) = length gx.
Proof.
  unfold add_at. rewrite <- (firstn_skipn (Z.to_nat i) gx) at 3.
  rewrite !length_app. f_equal.
  destruct (skipn (Z.to_nat i) gx); reflexivity.
Qed.

Lemma dot_add_at (w : Qc) :
  forall (n : nat) (xs gx : list Qc),
    length xs = length gx -> (n < length gx)%nat ->
    sum_zip Qcmult xs
      (firstn n gx ++ match skipn n gx with [] => [] | a :: rest => (a + w)%Qc :: rest end)
    = (sum_zip Qcmult xs gx + nth n xs 0%Qc * w)%Qc.
Proof.
  unfold sum_zip, zip_with.
  induction n as [|n IH]; intros [|x xs] [|g gx] Hlen Hn; simpl in *; try lia.
  - ring.
  - rewrite IH by lia. ring.
Qed.

Lemma dot_scatter (xs : list Qc) :
  forall (idxs : list Z) (ws gx : list Qc),
    length xs = length gx ->
    Forall (fun i => 0 <= i < Z.of_nat (length xs)) idxs ->
    sum_zip Qcmult xs
      (fold_left (fun gx iw => add_at (fst iw) (snd iw) gx) (combine idxs ws) gx)
    = (sum_zip Qcmult xs gx + sum_zip (fun i w => znth i xs 0%Qc * w)%Qc idxs ws)%Qc.
Proof.
  induction idxs as [|i idxs IH]; intros ws gx Hlen Hin.
  - simpl. unfold sum_zip at 3. simpl. ring.
  - destruct ws as [|w ws].
    + simpl. unfold sum_zip at 3. simpl. ring.
    + inversion Hin as [|? ? Hi Hrest]; subst. cbn [combine fold_left fst snd].
      rewrite IH by (rewrite ?length_add_at; assumption).
      unfold add_at. rewrite dot_add_at by lia.
      unfold sum_zip, zip_with, znth, sum_Qc.
      cbn [combine map fst snd fold_right]. ring.
Qed.

Lemma dot_zeros (xs : list Qc) (n : nat) : sum_zip Qcmult xs (repeat 0%Qc n) = 0%Qc.
Proof.
  unfold sum_zip, zip_with. revert n.
  induction xs as [|x xs IH]; intros [|n]; simpl; try reflexivity.
  rewrite IH. ring.
Qed.

Lemma bincount_size (N : Z) (idxs : list Z) :
  Forall (fun i => 0 <= i < N) idxs ->
  fold_left (fun m i => Z.max m (i + 1)) idxs N = N.
Proof.
  induction idxs as [|i idxs IH]; intros Hin; [reflexivity|].
  inversion Hin; subst. simpl. rewrite Z.max_l by lia. auto.
Qed.

Lemma length_fold_add_at (pairs : list (Z * Qc)) :
  forall gx, length (fold_left (fun gx iw => add_at (fst iw) (snd iw) gx) pairs gx)
             = length gx.
Proof.
  induction pairs as [|p pairs IH]; intros gx; simpl; [reflexivity|].
  rewrite IH. apply length_add_at.
Qed.

(** What [bincount] returns on indices within [minlength] cells, and its
    inner product with any array of that length. *)
Lemma bincount_ok (xs : list Qc) (idxs : list Z) (ws : list Qc) (N : Z) :
  Z.of_nat (length xs) = N ->
  length idxs = length ws ->
  Forall (fun i => 0 <= i < N) idxs ->
  exists gx,
    bincount idxs ws N = Ok gx /\ Z.of_nat (length gx) = N /\
    sum_zip Qcmult xs gx = sum_zip (fun i w => znth i xs 0%Qc * w)%Qc idxs ws.
Proof.
  intros HN Hlen Hin. unfold bincount.
  replace (existsb (fun i => i <? 0) idxs) with false.
  2:{ symmetry. apply not_true_is_false. intros Hex.
      apply existsb_exists in Hex. destruct Hex as [i [Hi Hneg]].
      rewrite Forall_forall in Hin. specialize (Hin i Hi). lia. }
  rewrite Hlen, Nat.eqb_refl. cbn [negb].
  replace (N <? 0) with false by lia.
  rewrite bincount_size by assumption.
  eexists. split; [reflexivity|]. split.
  - rewrite length_fold_add_at, repeat_length. lia.
  - rewrite dot_scatter.
    + rewrite dot_zeros. ring.
    + rewrite repeat_length. lia.
    + rewrite HN. assumption.
Qed.

(** * The gradient engine *)

Lemma flat_map_ext_in {A B : Type} (f g : A -> list B) (l : list A) :
  (forall a, In a l -> f a = g a) -> flat_map f l = flat_map g l.
Proof.
  induction l as [|a l IH]; intros Hfg; simpl; [reflexivity|].
  rewrite Hfg by (left; reflexivity).
  rewrite IH by (intros; apply Hfg; right; assumption). reflexivity.
Qed.

Lemma flat_map_map {A B C : Type} (f : B -> list C) (g : A -> B) (l : list A) :
  flat_map f (map g l) = flat_map (fun a => f (g a)) l.
Proof.
  induction l as [|a l IH]; simpl; [reflexivity|]. rewrite IH. reflexivity.
Qed.

Lemma length_flat_map_const {A B : Type} (f : A -> list B) (l : list A) (c : nat) :
  (forall a, In a l -> length (f a) = c) ->
  length (flat_map f l) = (length l * c)%nat.
Proof.
  induction l as [|a l IH]; intros Hf; simpl; [reflexivity|].
  rewrite length_app, Hf by (left; reflexivity).
  rewrite IH by (intros; apply Hf; right; assumption). reflexivity.
Qed.

Lemma arange_step_blocks (n step : Z) :
  0 < step -> 0 <= n ->
  arange_step (n * step) step = Ok (map (fun b => b * step) (arange n)).
Proof.
  intros Hstep Hn. unfold arange_step.
  replace (step =? 0) with false by lia.
  rewrite range_loop_spec by nia.
  replace ((n * step - 0 + step - 1) / step) with n.
  - f_equal.
  - replace (n * step - 0 + step - 1) with (n * step + (step - 1)) by lia.
    rewrite Z.div_add_l, Z.div_small by lia. lia.
Qed.

Section GradEngine.

Variables (x gy : array Qc) (v u : array Z) (vw uw : array Qc).
Variables B C H W out_H out_W : Z.
Hypothesis Hx : image_batch x B C H W.
Hypothesis Hgy : image_batch gy B C out_H out_W.
Hypothesis Hv : grid v out_H out_W.
Hypothesis Hu : grid u out_H out_W.
Hypothesis Hvw : grid vw out_H out_W.
Hypothesis Huw : grid uw out_H out_W.
Hypothesis Hvin : indices_below v H.
Hypothesis Huin : indices_below u W.

Let K := out_H * out_W.
Let ks := arange K.
Let bcs := arange (B * C).
Let vf (k : Z) : Z := znth k (data v) 0.
Let uf (k : Z) : Z := znth k (data u) 0.
Let vwf (k : Z) : Qc := znth k (data vw) 0%Qc.
Let uwf (k : Z) : Qc := znth k (data uw) 0%Qc.
Let gyf (bc k : Z) : Qc := znth (bc * K + k) (data gy) 0%Qc.
Let v1f (k : Z) : Z := Z.min (vf k + 1) (H - 1).
Let u1f (k : Z) : Z := Z.min (uf k + 1) (W - 1).

(** The flat position of [x[bc, vi, ui]], as the scatter computes it. *)
Let position (bc vi ui : Z) : Z :=
  wrap_intp (bc * (H * W) + wrap_intp (wrap_intp (vi * W) + ui)).

Lemma position_small (bc vi ui : Z) :
  0 <= bc < B * C -> 0 <= vi < H -> 0 <= ui < W ->
  position bc vi ui = (bc * H + vi) * W + ui /\
  0 <= position bc vi ui < B * C * H * W.
Proof.
  intros Hbc Hvi Hui.
  destruct Hx as (_ & _ & HB & HC & HH & HW & Hsz & _).
  assert (Hvu : 0 <= vi * W + ui < H * W) by nia.
  assert (Hall : 0 <= bc * (H * W) + (vi * W + ui) < B * C * H * W) by nia.
  unfold position.
  rewrite (wrap_intp_small (vi * W)) by nia.
  rewrite (wrap_intp_small (vi * W + ui)) by nia.
  rewrite wrap_intp_small by nia.
  split; nia.
Qed.

Lemma in_ks_bounds (k : Z) :
  In k ks -> 0 <= vf k < H /\ 0 <= uf k < W /\ 0 <= v1f k < H /\ 0 <= u1f k < W.
Proof.
  intros Hk. apply in_arange in Hk.
  assert (Hvk : 0 <= vf k < H).
  { apply indices_below_znth; [assumption|]. destruct Hv as [_ ->]. exact Hk. }
  assert (Huk : 0 <= uf k < W).
  { apply indices_below_znth; [assumption|]. destruct Hu as [_ ->]. exact Hk. }
  unfold v1f, u1f. lia.
Qed.

Lemma pixel_at_position (bc vi ui : Z) :
  0 <= bc < B * C -> 0 <= vi < H -> 0 <= ui < W ->
  znth (position bc vi ui) (data x) 0%Qc = pixel x H W bc vi ui.
Proof.
  intros Hbc Hvi Hui. unfold pixel.
  rewrite (proj1 (position_small bc vi ui Hbc Hvi Hui)). reflexivity.
Qed.

Lemma grad_engine_adjoint :
  exists gx,
    interpolate_grad_bilinear_cpu gy v u vw uw H W = Ok gx /\
    image_batch gx B C H W /\
    inner x gx = inner (resize_per_pixel_spec x v u vw uw) gy.
Proof.
  destruct Hx as (Hxdt & Hxsh & HB & HC & HH & HW & Hxsz & Hxlen).
  destruct Hgy as (Hgdt & Hgsh & _ & _ & HoH & HoW & Hgsz & Hglen).
  pose proof (image_axes_small x B C H W Hx) as [HHs HWs].
  assert (Ev : data v = map vf ks).
  { unfold vf, ks, K. destruct Hv as [_ <-]. apply list_as_map. }
  assert (Eu : data u = map uf ks).
  { unfold uf, ks, K. destruct Hu as [_ <-]. apply list_as_map. }
  assert (Evw : data vw = map vwf ks).
  { unfold vwf, ks, K. destruct Hvw as [_ <-]. apply list_as_map. }
  assert (Euw : data uw = map uwf ks).
  { unfold uwf, ks, K. destruct Huw as [_ <-]. apply list_as_map. }
  unfold interpolate_grad_bilinear_cpu. rewrite Hgsh.
  unfold check_alloc. cbn [existsb].
  replace (2 <? 0) with false by reflexivity.
  replace (out_H <? 0) with false by lia. replace (out_W <? 0) with false by lia.
  cbn [orb bind].
  rewrite !broadcast_to_grid by assumption. cbn [bind].
  replace (arange_step (B * C * H * W) (H * W))
    with (arange_step (B * C * (H * W)) (H * W)) by (f_equal; ring).
  rewrite (arange_step_blocks (B * C) (H * W)) by nia. cbn [bind].
  match goal with
  | |- context [bincount ?i ?g _] => set (IDX := i); set (GYC := g)
  end.
  assert (HIDX : IDX =
    flat_map (fun bc => map (fun k => position bc (vf k) (uf k)) ks
                        ++ map (fun k => position bc (vf k) (u1f k)) ks
                        ++ map (fun k => position bc (v1f k) (uf k)) ks
                        ++ map (fun k => position bc (v1f k) (u1f k)) ks) bcs).
  { unfold IDX. rewrite flat_map_map, Ev, Eu.
    rewrite (next_index_map (H - 1)), (next_index_map (W - 1))
      by (try lia; intros k Hk; pose proof (in_ks_bounds k Hk); lia).
    cbn [flat_map]. rewrite !app_nil_r, <- !app_assoc, !zip_with_map.
    apply flat_map_ext. intros bc. rewrite !map_app, !map_map. reflexivity. }
  assert (HGYC : GYC =
    flat_map (fun bc => map (fun k => gyf bc k * ((1 - uwf k) - (1 - uwf k) * vwf k))%Qc ks
                        ++ map (fun k => gyf bc k * (uwf k - uwf k * vwf k))%Qc ks
                        ++ map (fun k => gyf bc k * ((1 - uwf k) * vwf k))%Qc ks
                        ++ map (fun k => gyf bc k * (uwf k * vwf k))%Qc ks) bcs).
  { unfold GYC. rewrite Euw, Evw, weight_planes_map.
    apply flat_map_ext_in. intros bc Hbc. apply in_arange in Hbc.
    rewrite slice_as_map with (d := 0%Qc) by nia.
    replace ((bc + 1) * (out_H * out_W) - bc * (out_H * out_W)) with K
      by (unfold K; ring).
    cbn [flat_map]. rewrite app_nil_r, !zip_with_map. reflexivity. }
  destruct (bincount_ok (data x) IDX GYC (B * C * H * W)) as [gxd [Hb [Hlen Hdot]]].
  - exact Hxlen.
  - rewrite HIDX, HGYC.
    rewrite !(length_flat_map_const _ _ (4 * length ks));
      [reflexivity| |]; intros bc _; rewrite !length_app, !length_map; lia.
  - rewrite HIDX. apply Forall_forall. intros p Hp.
    apply in_flat_map in Hp. destruct Hp as [bc [Hbc Hp]].
    apply in_arange in Hbc.
    rewrite !in_app_iff, !in_map_iff in Hp.
    destruct Hp as [[k [<- Hk]]|[[k [<- Hk]]|[[k [<- Hk]]|[k [<- Hk]]]]];
      pose proof (in_ks_bounds k Hk); apply position_small; lia.
  - rewrite Hb. cbn [bind]. rewrite Hlen, Z.eqb_refl.
    eexists. split; [reflexivity|]. split.
    + unfold image_batch. cbn [dtype shape data]. repeat split; assumption.
    + unfold inner. cbn [data]. fold (sum_zip Qcmult (data x) gxd).
      rewrite Hdot, HIDX, HGYC.
      rewrite sum_zip_flat_map
        by (intros bc _; rewrite !length_app, !length_map; reflexivity).
      unfold resize_per_pixel_spec. rewrite Hxsh. destruct Hv as [Hvs _].
      rewrite Hvs. cbn [data].
      fold K ks bcs vf uf vwf uwf.
      match goal with
      | |- _ = sum_Qc (zip_with Qcmult (flat_map ?f _) _) =>
          pose proof (sum_zip_blocks Qcmult f K (data gy)) as Hblk
      end.
      specialize (Hblk ltac:(unfold K; nia)).
      specialize (Hblk ltac:(intros b; unfold ks; rewrite length_map, length_arange; reflexivity)).
      specialize (Hblk (Z.to_nat (B * C)) 0%nat).
      cbn [Nat.mul skipn] in Hblk.
      unfold sum_zip at 1 in Hblk. fold bcs in Hblk. unfold bcs at 2, arange at 1.
      rewrite Hblk. fold (arange (B * C)). fold bcs.
      apply sum_Qc_map_ext_in. intros bc Hbc. apply in_arange in Hbc.
      rewrite !sum_zip_app by (rewrite !length_map; reflexivity).
      rewrite !sum_zip_map.
      rewrite slice_as_map with (d := 0%Qc) by (unfold K; nia).
      replace ((bc + 1) * K - bc * K) with K by ring. fold ks.
      rewrite sum_zip_map.
      rewrite <- !sum_Qc_map_plus.
      apply sum_Qc_map_ext_in. intros k Hk.
      pose proof (in_ks_bounds k Hk) as (Hb1 & Hb2 & Hb3 & Hb4).
      rewrite !pixel_at_position by lia.
      unfold bilinear_pixel_spec, v1f, u1f, gyf, vf, uf, vwf, uwf. cbv zeta. ring.
Qed.

End GradEngine.

(** * Exact rationals *)

Lemma this_Z2Qc (z : Z) : (this (Z2Qc z) == inject_Z z)%Q.
Proof. unfold Z2Qc, Q2Qc. cbn [this]. apply Qred_correct. Qed.

Lemma Z2Qc_inj (a b : Z) : Z2Qc a = Z2Qc b -> a = b.
Proof.
  intros Hab. apply (f_equal this) in Hab.
  assert (Hq : (inject_Z a == inject_Z b)%Q).
  { rewrite <- !this_Z2Qc. rewrite Hab. reflexivity. }
  unfold Qeq in Hq. simpl in Hq. lia.
Qed.

Lemma Z2Qc_add (a b : Z) : Z2Qc (a + b) = (Z2Qc a + Z2Qc b)%Qc.
Proof.
  apply Qc_is_canon. unfold Qcplus, Q2Qc. cbn [this].
  rewrite Qred_correct, !this_Z2Qc, inject_Z_plus. reflexivity.
Qed.

Lemma Z2Qc_mul (a b : Z) : Z2Qc (a * b) = (Z2Qc a * Z2Qc b)%Qc.
Proof.
  apply Qc_is_canon. unfold Qcmult, Q2Qc. cbn [this].
  rewrite Qred_correct, !this_Z2Qc, inject_Z_mult. reflexivity.
Qed.

Lemma Z2Qc_opp (a : Z) : Z2Qc (- a) = (- Z2Qc a)%Qc.
Proof.
  apply Qc_is_canon. unfold Qcopp, Q2Qc. cbn [this].
  rewrite Qred_correct, !this_Z2Qc, inject_Z_opp. reflexivity.
Qed.

Lemma Z2Qc_sub (a b : Z) : Z2Qc (a - b) = (Z2Qc a - Z2Qc b)%Qc.
Proof.
  unfold Z.sub, Qcminus. rewrite Z2Qc_add, Z2Qc_opp. reflexivity.
Qed.

Lemma Z2Qc_0 : Z2Qc 0 = 0%Qc.
Proof. apply Qc_is_canon. reflexivity. Qed.

Lemma Z2Qc_1 : Z2Qc 1 = 1%Qc.
Proof. apply Qc_is_canon. reflexivity. Qed.

Lemma Z2Qc_nonzero (a : Z) : a <> 0 -> Z2Qc a <> 0%Qc.
Proof.
  intros Ha Hz. rewrite <- Z2Qc_0 in Hz. apply Z2Qc_inj in Hz. contradiction.
Qed.

Lemma Qc_eqb_eq (a b : Qc) : Qc_eqb a b = true <-> a = b.
Proof.
  unfold Qc_eqb. rewrite Qceq_alt. destruct (a ?= b)%Qc; split; congruence.
Qed.

Lemma Qc_eqb_Z2Qc_0 (a : Z) : Qc_eqb (Z2Qc a) 0%Qc = (a =? 0).
Proof.
  destruct (Z.eqb_spec a 0) as [->|Hne].
  - apply Qc_eqb_eq. apply Z2Qc_0.
  - apply not_true_is_false. rewrite Qc_eqb_eq. apply Z2Qc_nonzero. assumption.
Qed.

Lemma Qc_ltb_lt (a b : Qc) : Qc_ltb a b = true <-> (a < b)%Qc.
Proof.
  unfold Qc_ltb. rewrite Qclt_alt. destruct (a ?= b)%Qc; split; congruence.
Qed.

(** A rational is negative exactly when its floor is. *)
Lemma Qc_ltb_0_floor (q : Qc) : Qc_ltb q 0%Qc = (Qfloor q <? 0).
Proof.
  destruct (Z.ltb_spec (Qfloor q) 0) as [Hneg|Hpos].
  - apply Qc_ltb_lt. unfold Qclt.
    apply Qlt_le_trans with (y := inject_Z (Qfloor q + 1)); [apply Qlt_floor|].
    change (this 0%Qc) with (inject_Z 0).
    rewrite <- Zle_Qle. lia.
  - apply not_true_is_false. rewrite Qc_ltb_lt. unfold Qclt. intros Hlt.
    assert (Hq : (inject_Z (Qfloor q) < inject_Z 0)%Q).
    { apply Qle_lt_trans with (y := this q); [apply Qfloor_le|exact Hlt]. }
    rewrite <- Zlt_Qlt in Hq. lia.
Qed.

Lemma Qfloor_Z2Qc_div (a b : Z) : Qfloor (Z2Qc a / Z2Qc b)%Qc = a / b.
Proof.
  rewrite Zdiv_Qdiv. apply Qfloor_comp.
  unfold Qcdiv, Qcmult, Qcinv, Q2Qc. cbn [this].
  rewrite !Qred_correct, !this_Z2Qc. reflexivity.
Qed.

Lemma Qfloor_Z2Qc (a : Z) : Qfloor (Z2Qc a) = a.
Proof.
  rewrite (Qfloor_comp _ _ (this_Z2Qc a)). apply Qfloor_Z.
Qed.

Lemma Qc_trunc_nonneg (q : Qc) : 0 <= Qfloor q -> Qc_trunc q = Qfloor q.
Proof.
  intros Hq. unfold Qc_trunc. rewrite Qc_ltb_0_floor.
  replace (Qfloor q <? 0) with false by lia. reflexivity.
Qed.

Lemma Qc_trunc_Z2Qc (a : Z) : Qc_trunc (Z2Qc a) = a.
Proof.
  unfold Qc_trunc. destruct (Qc_ltb (Z2Qc a) 0%Qc).
  - rewrite (Qceiling_comp _ _ (this_Z2Qc a)). apply Qceiling_Z.
  - apply Qfloor_Z2Qc.
Qed.

Lemma half_as_fraction : Q2Qc (1 # 2) = (1 / Z2Qc 2)%Qc.
Proof. apply Qc_is_canon. reflexivity. Qed.

Lemma Qc_max_0_floor (q : Qc) : Qfloor (Qc_max q 0%Qc) = Z.max 0 (Qfloor q).
Proof.
  unfold Qc_max. rewrite Qc_ltb_0_floor.
  destruct (Z.ltb_spec (Qfloor q) 0).
  - change (Qfloor 0%Qc) with 0. lia.
  - lia.
Qed.

Lemma Qc_ltb_Z2Qc (a b : Z) : Qc_ltb (Z2Qc a) (Z2Qc b) = (a <? b).
Proof.
  destruct (Z.ltb_spec a b) as [Hlt|Hge].
  - apply Qc_ltb_lt. unfold Qclt. rewrite !this_Z2Qc, <- Zlt_Qlt. exact Hlt.
  - apply not_true_is_false. rewrite Qc_ltb_lt. unfold Qclt.
    rewrite !this_Z2Qc, <- Zlt_Qlt. lia.
Qed.

Lemma Qc_min_Z2Qc (a b : Z) : Qc_min (Z2Qc a) (Z2Qc b) = Z2Qc (Z.min a b).
Proof.
  unfold Qc_min. rewrite Qc_ltb_Z2Qc.
  destruct (Z.ltb_spec b a); f_equal; lia.
Qed.

(** * The coordinate generator *)

Lemma bilinear_coordinate_finite (al : bool) (n_in n_out i : Z) :
  (if al then n_out <> 1 else n_out <> 0) ->
  bilinear_coordinate al n_in n_out i = Fin (axis_coordinate al n_in n_out i).
Proof.
  intros Hn. unfold bilinear_coordinate, axis_coordinate, of_int, half.
  destruct al; cbn [fmul fdiv fadd fsub fneg fmaximum].
  - rewrite Qc_eqb_Z2Qc_0. replace (n_out - 1 =? 0) with false by lia.
    rewrite <- Z2Qc_mul. reflexivity.
  - rewrite Qc_eqb_Z2Qc_0. replace (n_out =? 0) with false by lia.
    unfold fsub. cbn [fadd fneg fmaximum]. rewrite Z2Qc_0. f_equal. f_equal.
    rewrite half_as_fraction.
    rewrite Z2Qc_sub, !Z2Qc_mul, Z2Qc_add, Z2Qc_mul, Z2Qc_1.
    pose proof (Z2Qc_nonzero n_out Hn).
    assert (Z2Qc 2 <> 0%Qc) by (apply Z2Qc_nonzero; lia).
    field. split; assumption.
Qed.

Lemma axis_coordinate_floor (al : bool) (n_in n_out i : Z) :
  Qfloor (axis_coordinate al n_in n_out i) = axis_index bilinear al n_in n_out i.
Proof.
  unfold axis_coordinate, axis_index. destruct al.
  - apply Qfloor_Z2Qc_div.
  - rewrite Qc_max_0_floor, Qfloor_Z2Qc_div. reflexivity.
Qed.

Lemma axis_index_range (mode : sampling_mode) (al : bool) (n_in n_out i : Z) :
  1 <= n_in -> 1 <= n_out ->
  (mode = bilinear -> al = true -> 2 <= n_out) ->
  0 <= i < n_out ->
  0 <= axis_index mode al n_in n_out i <= n_in - 1.
Proof.
  intros Hin Hout Hdeg Hi. unfold axis_index. destruct mode; [destruct al|].
  - specialize (Hdeg eq_refl eq_refl). split.
    + apply Z.div_pos; nia.
    + apply Z.div_le_upper_bound; nia.
  - split; [lia|].
    assert (((2 * i + 1) * n_in - n_out) / (2 * n_out) < n_in)
      by (apply Z.div_lt_upper_bound; nia).
    lia.
  - assert (0 <= i * n_in / n_out) by (apply Z.div_pos; nia). lia.
Qed.

Lemma mapM_map_ok {A B C : Type} (f : B -> result C) (g : A -> B) (h : A -> C)
    (l : list A) :
  (forall a, In a l -> f (g a) = Ok (h a)) -> mapM f (map g l) = Ok (map h l).
Proof.
  induction l as [|a l IH]; intros Hf; simpl; [reflexivity|].
  rewrite Hf by (left; reflexivity). simpl.
  rewrite IH by (intros; apply Hf; right; assumption). reflexivity.
Qed.

Lemma astype_intp_of_int (z : Z) :
  - 2 ^ 63 <= z < 2 ^ 63 -> astype_intp (of_int z) = Ok z.
Proof.
  intros Hz. unfold astype_intp, of_int. rewrite Qc_trunc_Z2Qc.
  replace (- 2 ^ 63 <=? z) with true by lia.
  replace (z <? 2 ^ 63) with true by lia. reflexivity.
Qed.

(** One axis in bilinear mode: the conversions of the integral and of the
    fractional parts succeed and give the closed forms. *)
Lemma bilinear_axis_casts (al : bool) (n_in n_out : Z) :
  1 <= n_in < 2 ^ 63 -> 1 <= n_out -> (al = true -> 2 <= n_out) ->
  let cs := map (bilinear_coordinate al n_in n_out) (arange n_out) in
  mapM astype_intp (map (fun a => snd (modf a)) cs)
  = Ok (map (axis_index bilinear al n_in n_out) (arange n_out)) /\
  mapM astype_pixel (map (fun a => fst (modf a)) cs)
  = Ok (map (axis_weight bilinear al n_in n_out) (arange n_out)).
Proof.
  intros Hin Hout Hdeg cs. unfold cs. rewrite !map_map.
  assert (Hc : forall i, In i (arange n_out) ->
            bilinear_coordinate al n_in n_out i = Fin (axis_coordinate al n_in n_out i) /\
            Qc_trunc (axis_coordinate al n_in n_out i) = axis_index bilinear al n_in n_out i /\
            0 <= axis_index bilinear al n_in n_out i <= n_in - 1).
  { intros i Hi. apply in_arange in Hi.
    assert (Hr : 0 <= axis_index bilinear al n_in n_out i <= n_in - 1)
      by (apply axis_index_range; auto; lia).
    split; [|split; [|exact Hr]].
    - apply bilinear_coordinate_finite. destruct al; [specialize (Hdeg eq_refl)|]; lia.
    - rewrite Qc_trunc_nonneg; rewrite axis_coordinate_floor; lia. }
  split; apply mapM_map_ok; intros i Hi; destruct (Hc i Hi) as (-> & Ht & Hr);
    cbn [modf fst snd]; rewrite Ht.
  - apply astype_intp_of_int. lia.
  - reflexivity.
Qed.

Lemma nearest_axis_casts (n_in n_out : Z) :
  1 <= n_in < 2 ^ 63 -> 1 <= n_out ->
  let vs := map (fun i => fminimum (ffloor (fmul (of_int i) (Fin (Z2Qc n_in / Z2Qc n_out)%Qc)))
                                   (of_int (n_in - 1))) (arange n_out) in
  mapM astype_intp vs = Ok (map (axis_index nearest true n_in n_out) (arange n_out)) /\
  mapM astype_pixel (map (fun _ => Fin 0%Qc) vs)
  = Ok (map (axis_weight nearest true n_in n_out) (arange n_out)).
Proof.
  intros Hin Hout vs. unfold vs. rewrite map_map. split.
  - apply mapM_map_ok. intros i Hi. apply in_arange in Hi.
    unfold of_int at 1. cbn [fmul ffloor]. unfold Qc_floor.
    replace (Z2Qc i * (Z2Qc n_in / Z2Qc n_out))%Qc with (Z2Qc (i * n_in) / Z2Qc n_out)%Qc.
    2:{ rewrite Z2Qc_mul. pose proof (Z2Qc_nonzero n_out ltac:(lia)). field. assumption. }
    rewrite Qfloor_Z2Qc_div. unfold of_int. cbn [fminimum].
    rewrite Qc_min_Z2Qc. apply astype_intp_of_int.
    pose proof (axis_index_range nearest true n_in n_out i
                  ltac:(lia) ltac:(lia) ltac:(discriminate) Hi) as Hr.
    lia.
  - apply mapM_map_ok. intros i Hi. reflexivity.
Qed.

(** * Grids *)

Lemma seq_shift_Z (len s : nat) :
  map Z.of_nat (seq s len) = map (fun j => Z.of_nat s + j) (map Z.of_nat (seq 0 len)).
Proof.
  revert s. induction len as [|len IH]; intros s; [reflexivity|].
  cbn [seq map]. f_equal; [lia|].
  rewrite (IH (S s)), (IH 1%nat), !map_map.
  apply map_ext. intros j. lia.
Qed.

Lemma arange_add (a b : Z) :
  0 <= a -> 0 <= b -> arange (a + b) = arange a ++ map (fun j => a + j) (arange b).
Proof.
  intros Ha Hb. unfold arange.
  rewrite Z2Nat.inj_add, seq_app, map_app by lia. f_equal.
  cbn [Nat.add]. rewrite seq_shift_Z, Z2Nat.id by lia. reflexivity.
Qed.

Lemma flat_map_grid {A : Type} (F : Z -> Z -> A) (h w : Z) :
  0 <= h -> 0 < w ->
  flat_map (fun i => map (F i) (arange w)) (arange h)
  = map (fun k => F (k / w) (k mod w)) (arange (h * w)).
Proof.
  intros Hh Hw. pattern h. apply natlike_ind; [reflexivity| |exact Hh].
  clear h Hh. intros h Hh IH.
  unfold Z.succ. rewrite (arange_add h 1) by lia.
  replace ((h + 1) * w) with (h * w + w) by ring.
  rewrite (arange_add (h * w) w) by nia.
  rewrite flat_map_app, map_app, IH. f_equal.
  change (arange 1) with [0]. cbn [map flat_map]. rewrite app_nil_r, map_map.
  apply map_ext_in. intros j Hj. apply in_arange in Hj.
  rewrite Z.add_0_r.
  replace ((h * w + j) / w) with h by (apply Z.div_unique_pos with (r := j); lia).
  replace ((h * w + j) mod w) with j by (apply Z.mod_unique_pos with (q := h); lia).
  reflexivity.
Qed.

Lemma broadcast_grids_maps (V U : Z -> Z) (VW UW : Z -> Qc) (oH oW : Z)
    (ft : scalar_type) :
  0 <= oH -> 0 < oW ->
  broadcast_grids (map V (arange oH)) (map U (arange oW))
                  (map VW (arange oH)) (map UW (arange oW)) ft
  = (mk_array Intp [oH; oW] (map (fun k => V (k / oW)) (arange (oH * oW))),
     mk_array Intp [oH; oW] (map (fun k => U (k mod oW)) (arange (oH * oW))),
     mk_array ft [oH; oW] (map (fun k => VW (k / oW)) (arange (oH * oW))),
     mk_array ft [oH; oW] (map (fun k => UW (k mod oW)) (arange (oH * oW)))).
Proof.
  intros HoH HoW. unfold broadcast_grids.
  rewrite !length_map, !length_arange, !Z2Nat.id by lia.
  rewrite !flat_map_map.
  rewrite <- (flat_map_grid (fun i _ => V i)), <- (flat_map_grid (fun _ j => U j)),
          <- (flat_map_grid (fun i _ => VW i)), <- (flat_map_grid (fun _ j => UW j))
    by lia.
  repeat match goal with
         | |- (_, _) = (_, _) => f_equal
         | |- mk_array _ _ _ = mk_array _ _ _ => f_equal
         end;
    apply flat_map_ext; intros i; rewrite ?map_map; reflexivity.
Qed.

Lemma grid_cell (oH oW i j : Z) :
  0 <= i < oH -> 0 <= j < oW ->
  0 <= i * oW + j < oH * oW /\ (i * oW + j) / oW = i /\ (i * oW + j) mod oW = j.
Proof.
  intros Hi Hj. split; [nia|]. split.
  - symmetry. apply Z.div_unique_pos with (r := j); lia.
  - symmetry. apply Z.mod_unique_pos with (q := i); lia.
Qed.

Lemma compute_bilinear (al : bool) (H W oH oW : Z) :
  compute_indices_and_weights (oH, oW) (H, W) bilinear al =
  Ok (map (fun a => snd (modf a)) (map (bilinear_coordinate al H oH) (arange oH)),
      map (fun a => snd (modf a)) (map (bilinear_coordinate al W oW) (arange oW)),
      map (fun a => fst (modf a)) (map (bilinear_coordinate al H oH) (arange oH)),
      map (fun a => fst (modf a)) (map (bilinear_coordinate al W oW) (arange oW))).
Proof. destruct al; reflexivity. Qed.

(** Away from the division by zero, the grids of a node are the closed
    forms, whatever the mode. *)
Lemma grids_value (mode : sampling_mode) (al : bool) (H W oH oW : Z)
    (ft : scalar_type) :
  1 <= H < 2 ^ 63 -> 1 <= W < 2 ^ 63 -> 1 <= oH -> 1 <= oW ->
  degenerate mode al oH oW = false ->
  index_and_weight_grids (oH, oW) (H, W) mode al ft
  = Ok (axis_grids mode al H W oH oW ft).
Proof.
  intros HH HW HoH HoW Hdeg. unfold index_and_weight_grids, axis_grids. cbv zeta.
  rewrite <- broadcast_grids_maps by lia.
  destruct mode.
  - assert (Hal : al = true -> 2 <= oH /\ 2 <= oW).
    { intros ->. cbn in Hdeg. apply orb_false_iff in Hdeg. lia. }
    rewrite compute_bilinear. cbn [bind].
    destruct (bilinear_axis_casts al H oH HH HoH ltac:(intros E; apply Hal in E; lia))
      as [-> ->].
    destruct (bilinear_axis_casts al W oW HW HoW ltac:(intros E; apply Hal in E; lia))
      as [-> ->].
    reflexivity.
  - unfold compute_indices_and_weights, truediv.
    replace (oH =? 0) with false by lia. replace (oW =? 0) with false by lia.
    cbn [bind].
    destruct (nearest_axis_casts H oH HH HoH) as [-> ->].
    destruct (nearest_axis_casts W oW HW HoW) as [-> ->].
    reflexivity.
Qed.

Lemma bilinear_coordinate_nan (n_in : Z) : bilinear_coordinate true n_in 1 0 = NaN.
Proof.
  unfold bilinear_coordinate, of_int. cbn [fmul fdiv Z.sub Z.add Z.opp Z.pos_sub].
  rewrite <- Z2Qc_mul, !Qc_eqb_Z2Qc_0. reflexivity.
Qed.

(** The division by zero: with one output row or one output column, the
    AlignCorners coordinate is 0/0 and the conversion to an index fails. *)
Lemma grids_degenerate (H W oH oW : Z) (ft : scalar_type) :
  1 <= H < 2 ^ 63 -> 1 <= oH -> oH = 1 \/ oW = 1 ->
  index_and_weight_grids (oH, oW) (H, W) bilinear true ft = Raise InvalidCast.
Proof.
  intros HH HoH Hone. unfold index_and_weight_grids.
  rewrite compute_bilinear. cbn [bind].
  destruct (Z.eq_dec oH 1) as [-> | Hne].
  - change (arange 1) with [0]. cbn [map]. rewrite bilinear_coordinate_nan. reflexivity.
  - destruct Hone as [Hc | ->]; [contradiction|].
    destruct (bilinear_axis_casts true H oH HH HoH ltac:(lia)) as [-> _].
    cbn [bind].
    change (arange 1) with [0]. cbn [map]. rewrite bilinear_coordinate_nan. reflexivity.
Qed.

Lemma degenerate_false (mode : sampling_mode) (al : bool) (oH oW : Z) :
  1 <= oH -> 1 <= oW -> degenerate mode al oH oW = false ->
  mode = bilinear -> al = true -> 2 <= oH /\ 2 <= oW.
Proof.
  intros HoH HoW Hdeg -> ->. cbn in Hdeg. apply orb_false_iff in Hdeg. lia.
Qed.

Lemma cell_row_col (oH oW k : Z) :
  0 < oW -> 0 <= k < oH * oW -> 0 <= k / oW < oH /\ 0 <= k mod oW < oW.
Proof.
  intros HoW Hk. split.
  - split; [apply Z.div_pos; lia|apply Z.div_lt_upper_bound; nia].
  - apply Z.mod_pos_bound. lia.
Qed.

Lemma axis_grids_props (mode : sampling_mode) (al : bool) (H W oH oW : Z)
    (ft : scalar_type) :
  1 <= H -> 1 <= W -> 1 <= oH -> 1 <= oW ->
  degenerate mode al oH oW = false ->
  let '(v, u, vw, uw) := axis_grids mode al H W oH oW ft in
  grid v oH oW /\ grid u oH oW /\ grid vw oH oW /\ grid uw oH oW /\
  indices_below v H /\ indices_below u W.
Proof.
  intros HH HW HoH HoW Hdeg. unfold axis_grids. cbv zeta.
  pose proof (degenerate_false mode al oH oW HoH HoW Hdeg) as Hal.
  assert (Hlen : forall (A : Type) (F : Z -> A),
             Z.of_nat (length (map F (arange (oH * oW)))) = oH * oW).
  { intros A F. rewrite length_map, length_arange. nia. }
  unfold grid, indices_below. cbn [shape data].
  repeat split; try apply Hlen;
    apply Forall_map_in; intros k Hk; apply in_arange in Hk;
    destruct (cell_row_col oH oW k ltac:(lia) Hk) as [Hr Hc].
  - pose proof (axis_index_range mode al H oH (k / oW) HH HoH
                  ltac:(intros E1 E2; apply Hal; assumption) Hr). lia.
  - pose proof (axis_index_range mode al W oW (k mod oW) HW HoW
                  ltac:(intros E1 E2; apply Hal; assumption) Hc). lia.
Qed.

Lemma per_pixel_spec_at (x : array Qc) (v u : array Z) (vw uw : array Qc)
    (B C H W oH oW n c i j : Z) :
  shape x = [B; C; H; W] -> shape v = [oH; oW] ->
  0 <= n < B -> 0 <= c < C -> 0 <= i < oH -> 0 <= j < oW ->
  at4 (resize_per_pixel_spec x v u vw uw) n c i j =
  bilinear_pixel_spec x H W (n * C + c)
    (znth (i * oW + j) (data v) 0) (znth (i * oW + j) (data u) 0)
    (znth (i * oW + j) (data vw) 0%Qc) (znth (i * oW + j) (data uw) 0%Qc).
Proof.
  intros Hx Hv Hn Hc Hi Hj.
  unfold resize_per_pixel_spec, at4. rewrite Hx, Hv. cbn [shape data].
  rewrite (flat_map_grid (fun bc k => bilinear_pixel_spec x H W bc
             (znth k (data v) 0) (znth k (data u) 0)
             (znth k (data vw) 0%Qc) (znth k (data uw) 0%Qc))) by nia.
  destruct (grid_cell oH oW i j Hi Hj) as (Hk & _ & _).
  destruct (grid_cell (B * C) (oH * oW) (n * C + c) (i * oW + j) ltac:(nia) Hk)
    as (Hp & Hdiv & Hmod).
  replace (((n * C + c) * oH + i) * oW + j)
    with ((n * C + c) * (oH * oW) + (i * oW + j)) by ring.
  rewrite znth_map_arange by lia.
  rewrite Hdiv, Hmod. reflexivity.
Qed.

Section Forward.

Variable garbage : Qc.
Variables (x : array Qc) (B C H W oH oW : Z) (md : sampling_mode) (al : bool).
Hypothesis Hx : image_batch x B C H W.
Hypothesis HoH : 1 <= oH.
Hypothesis HoW : 1 <= oW.
Hypothesis Hdeg : degenerate md al oH oW = false.

Lemma check_type_forward_ok : check_type_forward x = Ok tt.
Proof.
  destruct Hx as (Hdt & Hsh & _).
  unfold check_type_forward, type_check_expect, ndim. rewrite Hdt, Hsh. reflexivity.
Qed.

Lemma ResizeImages_forward_value :
  let '(v, u, vw, uw) := axis_grids md al H W oH oW (dtype x) in
  ResizeImages_forward garbage (mk_ResizeImages oH oW md al) x
  = Ok (resize_per_pixel_spec x v u vw uw).
Proof.
  pose proof (image_axes_small x B C H W Hx) as [HHs HWs].
  pose proof Hx as (Hdt & Hsh & HB & HC & HH & HW & _).
  pose proof (axis_grids_props md al H W oH oW (dtype x)
                ltac:(lia) ltac:(lia) HoH HoW Hdeg) as Hp.
  pose proof (grids_value md al H W oH oW (dtype x)
                ltac:(lia) ltac:(lia) HoH HoW Hdeg) as Hg.
  destruct (axis_grids md al H W oH oW (dtype x)) as [[[v u] vw] uw].
  destruct Hp as (Hgv & Hgu & Hgvw & Hguw & Hvin & Huin).
  unfold ResizeImages_forward. rewrite Hsh. cbn [skipn out_H out_W mode align_corners].
  rewrite Hg. cbn [bind].
  apply interpolate_bilinear_cpu_correct with (B := B) (C := C) (H := H) (W := W)
    (out_H := oH) (out_W := oW); assumption || lia.
Qed.

Lemma resize_images_pixels :
  exists y,
    resize_images garbage x (oH, oW) md al = Ok y /\
    dtype y = Float32 /\ shape y = [B; C; oH; oW] /\
    Z.of_nat (length (data y)) = B * C * oH * oW /\
    forall n c i j,
      0 <= n < B -> 0 <= c < C -> 0 <= i < oH -> 0 <= j < oW ->
      at4 y n c i j =
      bilinear_pixel_spec x H W (n * C + c)
        (axis_index md al H oH i) (axis_index md al W oW j)
        (axis_weight md al H oH i) (axis_weight md al W oW j).
Proof.
  pose proof Hx as (Hdt & Hsh & HB & HC & HH & HW & _).
  pose proof ResizeImages_forward_value as Hf.
  unfold axis_grids in Hf. cbv zeta in Hf.
  unfold resize_images, apply_node, ResizeImages_init.
  rewrite check_type_forward_ok. cbn [bind fst snd].
  rewrite Hf. eexists. split; [reflexivity|].
  split; [|split; [|split]].
  - unfold resize_per_pixel_spec. rewrite Hsh. cbn [shape dtype]. exact Hdt.
  - unfold resize_per_pixel_spec. rewrite Hsh. reflexivity.
  - unfold resize_per_pixel_spec. rewrite Hsh. cbn [shape data].
    rewrite (length_flat_map_const _ _ (Z.to_nat (oH * oW)))
      by (intros; rewrite length_map, length_arange; reflexivity).
    rewrite length_arange. nia.
  - intros n c i j Hn Hc Hi Hj.
    rewrite (per_pixel_spec_at x _ _ _ _ B C H W oH oW n c i j)
      by (assumption || reflexivity).
    cbn [data].
    destruct (grid_cell oH oW i j Hi Hj) as (Hk & Hdiv & Hmod).
    rewrite !znth_map_arange by lia. rewrite Hdiv, Hmod. reflexivity.
Qed.

End Forward.

(** * The claims about the two engines *)




Lemma image_batch_X11 : image_batch X11 1 1 1 1.
Proof. unfold image_batch. repeat split; try reflexivity; lia. Qed.

Lemma image_batch_GY11 : image_batch GY11 1 1 1 1.
Proof. unfold image_batch. repeat split; try reflexivity; lia. Qed.

Lemma image_batch_X22 : image_batch X22 1 1 2 2.
Proof. unfold image_batch. repeat split; try reflexivity; lia. Qed.

Lemma grid_index_11 : grid index_grid_11 1 1 /\ indices_below index_grid_11 1.
Proof.
  split; [split; reflexivity|].
  unfold indices_below. repeat constructor; simpl; lia.
Qed.

Lemma grid_weight_11 : grid weight_grid_11 1 1.
Proof. split; reflexivity. Qed.



(** * The claims about the operator *)

Lemma at4_pixel (x : array Qc) (B C H W n c vi ui : Z) :
  shape x = [B; C; H; W] -> at4 x n c vi ui = pixel x H W (n * C + c) vi ui.
Proof. intros Hsh. unfold at4, pixel. rewrite Hsh. reflexivity. Qed.

Lemma bilinear_pixel_spec_corner (x : array Qc) (H W bc v0 u0 : Z) :
  bilinear_pixel_spec x H W bc v0 u0 0%Qc 0%Qc = pixel x H W bc v0 u0.
Proof. unfold bilinear_pixel_spec. cbv zeta. ring. Qed.



Lemma align_same_size_index (n i : Z) : 2 <= n -> axis_index bilinear true n n i = i.
Proof.
  intros Hn. unfold axis_index. apply Z.div_mul. lia.
Qed.

Lemma align_same_size_weight (n i : Z) : 2 <= n -> axis_weight bilinear true n n i = 0%Qc.
Proof.
  intros Hn. unfold axis_weight. rewrite align_same_size_index by assumption.
  unfold axis_coordinate. rewrite Z2Qc_mul.
  assert (Z2Qc (n - 1) <> 0%Qc) by (apply Z2Qc_nonzero; lia).
  field. assumption.
Qed.

(** With AlignCorners and the output size of the input, the per-pixel
    evaluation gives the input back, as long as no axis has length 1. *)
Lemma identity_per_pixel (x : array Qc) (B C H W : Z) :
  image_batch x B C H W -> 2 <= H -> 2 <= W ->
  let '(v, u, vw, uw) := axis_grids bilinear true H W H W (dtype x) in
  resize_per_pixel_spec x v u vw uw = x.
Proof.
  intros (Hdt & Hsh & HB & HC & _ & _ & Hsz & Hlen) HH HW.
  unfold axis_grids, resize_per_pixel_spec. cbv zeta. rewrite Hsh. cbn [shape data].
  destruct x as [dt sh dat]. cbn [dtype shape data] in *. subst sh. f_equal.
  rewrite (flat_map_grid (fun bc k => bilinear_pixel_spec _ H W bc _ _ _ _)) by nia.
  transitivity (map (fun p => znth p dat 0%Qc) (arange (B * C * (H * W)))).
  2:{ replace (B * C * (H * W)) with (Z.of_nat (length dat)) by lia.
      symmetry. apply list_as_map. }
  apply map_ext_in. intros p Hp. apply in_arange in Hp.
  destruct (cell_row_col (B * C) (H * W) p ltac:(nia) Hp) as [Hbc Hk].
  destruct (cell_row_col H W (p mod (H * W)) ltac:(lia) Hk) as [Hi Hj].
  rewrite !znth_map_arange by lia.
  rewrite !align_same_size_index, !align_same_size_weight by lia.
  rewrite bilinear_pixel_spec_corner. unfold pixel. cbn [data]. f_equal.
  pose proof (Z.div_mod p (H * W) ltac:(nia)).
  pose proof (Z.div_mod (p mod (H * W)) W ltac:(lia)).
  nia.
Qed.

(** C2.  [resize(X, (H, W))] with bilinear mode and AlignCorners returns X
    itself when both axes have at least two samples.  For an image with a
    single row or a single column the same call divides 0 by 0 in the
    coordinate formula and returns nothing. *)
Theorem identity_resize (garbage : Qc) (x : array Qc) (B C H W : Z) :
  image_batch x B C H W ->
  (2 <= H -> 2 <= W -> resize_images garbage x (H, W) bilinear true = Ok x) /\
  (H = 1 \/ W = 1 -> resize_images garbage x (H, W) bilinear true = Raise InvalidCast).
Proof.
  intros Hx. pose proof Hx as (Hdt & Hsh & HB & HC & HH & HW & _).
  pose proof (image_axes_small x B C H W Hx) as [HHs HWs].
  unfold resize_images, apply_node, ResizeImages_init.
  rewrite (check_type_forward_ok x B C H W Hx). cbn [bind fst snd]. split.
  - intros HH2 HW2.
    assert (Hdeg : degenerate bilinear true H W = false).
    { cbn. apply orb_false_iff. lia. }
    pose proof (ResizeImages_forward_value garbage x B C H W H W bilinear true Hx
                  ltac:(lia) ltac:(lia) Hdeg) as Hf.
    pose proof (identity_per_pixel x B C H W Hx HH2 HW2) as Hid.
    destruct (axis_grids bilinear true H W H W (dtype x)) as [[[v u] vw] uw].
    rewrite Hf, Hid. reflexivity.
  - intros Hone. unfold ResizeImages_forward. rewrite Hsh.
    cbn [skipn out_H out_W mode align_corners].
    rewrite grids_degenerate by lia. reflexivity.
Qed.

Lemma identity_resize_witness :
  resize_images 0%Qc X22 (2, 2) bilinear true = Ok X22 /\
  resize_images 0%Qc X11 (1, 1) bilinear true = Raise InvalidCast.
Proof.
  split.
  - apply (proj1 (identity_resize 0%Qc X22 1 1 2 2 image_batch_X22)); lia.
  - apply (proj2 (identity_resize 0%Qc X11 1 1 1 1 image_batch_X11)). left. reflexivity.
Defined.

(** C3.  In bilinear mode with AlignCorners the generator splits, for each
    output row i, the coordinate [bilinear_coordinate true H outH i] into
    its integral part v[i] and its fraction vw[i] (and likewise for the
    columns).  For outH <> 1 this coordinate is i*(H-1)/(outH-1).  For
    outH = 1 nothing guards the division: the coordinate is 0/0, that is
    NaN and not 0, and so are v[0] and vw[0]. *)
Theorem align_corners_coordinates (H W oH oW : Z) :
  compute_indices_and_weights (oH, oW) (H, W) bilinear true =
  Ok (map (fun a => snd (modf a)) (map (bilinear_coordinate true H oH) (arange oH)),
      map (fun a => snd (modf a)) (map (bilinear_coordinate true W oW) (arange oW)),
      map (fun a => fst (modf a)) (map (bilinear_coordinate true H oH) (arange oH)),
      map (fun a => fst (modf a)) (map (bilinear_coordinate true W oW) (arange oW))) /\
  (forall i, oH <> 1 ->
     bilinear_coordinate true H oH i = Fin (Z2Qc i * Z2Qc (H - 1) / Z2Qc (oH - 1))%Qc) /\
  (forall j, oW <> 1 ->
     bilinear_coordinate true W oW j = Fin (Z2Qc j * Z2Qc (W - 1) / Z2Qc (oW - 1))%Qc) /\
  bilinear_coordinate true H 1 0 = NaN /\
  bilinear_coordinate true W 1 0 = NaN /\
  compute_indices_and_weights (1, 1) (H, W) bilinear true = Ok ([NaN], [NaN], [NaN], [NaN]) /\
  NaN <> of_int 0.
Proof.
  split; [apply compute_bilinear|].
  split; [|split].
  - intros i Hne. rewrite bilinear_coordinate_finite by exact Hne.
    unfold axis_coordinate. rewrite Z2Qc_mul. reflexivity.
  - intros j Hne. rewrite bilinear_coordinate_finite by exact Hne.
    unfold axis_coordinate. rewrite Z2Qc_mul. reflexivity.
  - split; [apply bilinear_coordinate_nan|].
    split; [apply bilinear_coordinate_nan|].
    split; [|discriminate].
    rewrite compute_bilinear. change (arange 1) with [0]. cbn [map].
    rewrite !bilinear_coordinate_nan. reflexivity.
Qed.

Lemma align_corners_coordinates_witness :
  bilinear_coordinate true 2 4 1 = Fin (Z2Qc 1 * Z2Qc (2 - 1) / Z2Qc (4 - 1))%Qc /\
  compute_indices_and_weights (1, 1) (2, 2) bilinear true = Ok ([NaN], [NaN], [NaN], [NaN]).
Proof.
  destruct (align_corners_coordinates 2 2 4 4) as (_ & Hv & _ & _ & _ & _ & _).
  destruct (align_corners_coordinates 2 2 1 1) as (_ & _ & _ & _ & _ & Hnan & _).
  split; [apply Hv; lia|exact Hnan].
Defined.

Lemma znth_next_index (last k : Z) (l : list Z) :
  0 <= k < Z.of_nat (length l) ->
  znth k (next_index last l) 0 = Z.min (wrap_intp (znth k l 0 + 1)) last.
Proof.
  intros Hk. unfold znth, next_index.
  rewrite nth_indep with (d' := Z.min (wrap_intp (0 + 1)) last)
    by (rewrite length_map; lia).
  apply (map_nth (fun a => Z.min (wrap_intp (a + 1)) last)).
Qed.

(** C7.  For every image size, output size and mode away from the division
    by zero of C3, the base indices of every output cell lie in
    [0,H-1] x [0,W-1], the neighbours the two engines derive from them are
    min(v0+1, H-1) and min(u0+1, W-1), hence in range too, and equal to
    H-1 (W-1) on the last row (column).  With AlignCorners and a single
    output row or column there is no index at all: the coordinate is NaN
    and its conversion to an index fails. *)
Theorem source_indices_in_bounds (H W oH oW : Z) (md : sampling_mode) (al : bool)
    (ft : scalar_type) :
  1 <= H < 2 ^ 63 -> 1 <= W < 2 ^ 63 -> 1 <= oH -> 1 <= oW ->
  (degenerate md al oH oW = false ->
   exists v u vw uw,
     index_and_weight_grids (oH, oW) (H, W) md al ft = Ok (v, u, vw, uw) /\
     grid v oH oW /\ grid u oH oW /\
     indices_below v H /\ indices_below u W /\
     forall k, 0 <= k < oH * oW ->
       let v0 := znth k (data v) 0 in
       let u0 := znth k (data u) 0 in
       let v1 := znth k (next_index (H - 1) (data v)) 0 in
       let u1 := znth k (next_index (W - 1) (data u)) 0 in
       0 <= v0 <= H - 1 /\ 0 <= u0 <= W - 1 /\
       v1 = Z.min (v0 + 1) (H - 1) /\ u1 = Z.min (u0 + 1) (W - 1) /\
       0 <= v1 <= H - 1 /\ 0 <= u1 <= W - 1 /\
       (v0 = H - 1 -> v1 = H - 1) /\ (u0 = W - 1 -> u1 = W - 1)) /\
  (degenerate md al oH oW = true ->
   index_and_weight_grids (oH, oW) (H, W) md al ft = Raise InvalidCast).
Proof.
  intros HH HW HoH HoW. split.
  - intros Hdeg.
    pose proof (axis_grids_props md al H W oH oW ft
                  ltac:(lia) ltac:(lia) HoH HoW Hdeg) as Hp.
    pose proof (grids_value md al H W oH oW ft HH HW HoH HoW Hdeg) as Hg.
    destruct (axis_grids md al H W oH oW ft) as [[[v u] vw] uw].
    destruct Hp as (Hv & Hu & _ & _ & Hvin & Huin).
    exists v, u, vw, uw.
    repeat (split; [assumption|]).
    intros k Hk. cbv zeta.
    assert (Hv0 : 0 <= znth k (data v) 0 < H).
    { apply indices_below_znth; [assumption|]. destruct Hv as [_ ->]. exact Hk. }
    assert (Hu0 : 0 <= znth k (data u) 0 < W).
    { apply indices_below_znth; [assumption|]. destruct Hu as [_ ->]. exact Hk. }
    rewrite !znth_next_index
      by (try (destruct Hv as [_ ->]); try (destruct Hu as [_ ->]); exact Hk).
    rewrite !wrap_intp_small by lia. lia.
  - intros Hdeg. destruct md; [|discriminate].
    cbn in Hdeg. apply andb_true_iff in Hdeg. destruct Hdeg as [-> Hone].
    apply orb_true_iff in Hone.
    apply grids_degenerate; lia.
Qed.

Lemma source_indices_in_bounds_witness :
  (exists v u vw uw,
      index_and_weight_grids (4, 4) (2, 2) bilinear true Float32 = Ok (v, u, vw, uw) /\
      indices_below v 2 /\ indices_below u 2) /\
  index_and_weight_grids (1, 1) (2, 2) bilinear true Float32 = Raise InvalidCast.
Proof.
  assert (Hdim : 1 <= 2 < 2 ^ 63) by (split; [lia|reflexivity]).
  destruct (source_indices_in_bounds 2 2 4 4 bilinear true Float32) as [Hok _];
    try assumption; try lia.
  destruct (source_indices_in_bounds 2 2 1 1 bilinear true Float32) as [_ Hbad];
    try assumption; try lia.
  split.
  - destruct (Hok eq_refl) as (v & u & vw & uw & Hg & _ & _ & Hv & Hu & _).
    exists v, u, vw, uw. auto.
  - apply Hbad. reflexivity.
Defined.

Lemma Qc_list_eq (l1 l2 : list Qc) : map this l1 = map this l2 -> l1 = l2.
Proof.
  revert l2. induction l1 as [|a l1 IH]; intros [|b l2] Heq; try discriminate.
  - reflexivity.
  - simpl in Heq. injection Heq as Hab Hl. f_equal.
    + apply Qc_is_canon. rewrite Hab. reflexivity.
    + apply IH. exact Hl.
Qed.

Lemma array_eq_by_this (a b : array Qc) :
  dtype a = dtype b -> shape a = shape b -> map this (data a) = map this (data b) -> a = b.
Proof.
  destruct a, b. cbn [dtype shape data]. intros -> -> Hd.
  f_equal. apply Qc_list_eq. exact Hd.
Qed.

Lemma resize_X22_to_4x4 (garbage : Qc) :
  resize_images garbage X22 (4, 4) bilinear true = Ok Y44.
Proof.
  pose proof (ResizeImages_forward_value garbage X22 1 1 2 2 4 4 bilinear true
                image_batch_X22 ltac:(lia) ltac:(lia) eq_refl) as Hf.
  unfold axis_grids in Hf. cbv zeta in Hf.
  unfold resize_images, apply_node, ResizeImages_init.
  rewrite (check_type_forward_ok X22 1 1 2 2 image_batch_X22). cbn [bind fst snd].
  rewrite Hf. f_equal.
  apply array_eq_by_this; vm_compute; reflexivity.
Qed.

(** C9.  The image [[1,2],[3,4]] of shape (1,1,2,2), resized to (4,4) with
    bilinear mode and AlignCorners: the row (and column) coordinates are
    0, 1/3, 2/3, 1, the four corners of the output are 1, 2, 3, 4, and
    every cell is the blend of the source pixels at these coordinates, the
    whole output being [Y44]. *)
Theorem resize_2x2_to_4x4 (garbage : Qc) :
  resize_images garbage X22 (4, 4) bilinear true = Ok Y44 /\
  map (fun i => this (axis_coordinate true 2 4 i)) [0; 1; 2; 3]
  = [0%Q; 1 # 3; 2 # 3; 1%Q] /\
  at4 Y44 0 0 0 0 = Z2Qc 1 /\ at4 Y44 0 0 0 3 = Z2Qc 2 /\
  at4 Y44 0 0 3 0 = Z2Qc 3 /\ at4 Y44 0 0 3 3 = Z2Qc 4 /\
  forall i j, 0 <= i < 4 -> 0 <= j < 4 ->
    at4 Y44 0 0 i j =
    bilinear_pixel_spec X22 2 2 0
      (axis_index bilinear true 2 4 i) (axis_index bilinear true 2 4 j)
      (axis_weight bilinear true 2 4 i) (axis_weight bilinear true 2 4 j).
Proof.
  split; [apply resize_X22_to_4x4|].
  split; [vm_compute; reflexivity|].
  repeat (split; [apply Qc_is_canon; vm_compute; reflexivity|]).
  intros i j Hi Hj.
  destruct (resize_images_pixels garbage X22 1 1 2 2 4 4 bilinear true
              image_batch_X22 ltac:(lia) ltac:(lia) eq_refl)
    as [y (Hy & _ & _ & _ & Hpix)].
  rewrite resize_X22_to_4x4 in Hy. injection Hy as <-.
  apply (Hpix 0 0 i j); lia.
Qed.

Lemma resize_2x2_to_4x4_witness :
  at4 Y44 0 0 1 2 =
  bilinear_pixel_spec X22 2 2 0
    (axis_index bilinear true 2 4 1) (axis_index bilinear true 2 4 2)
    (axis_weight bilinear true 2 4 1) (axis_weight bilinear true 2 4 2).
Proof.
  destruct (resize_2x2_to_4x4 0%Qc) as (_ & _ & _ & _ & _ & _ & Hpix).
  apply Hpix; lia.
Defined.

Lemma scalar_type_eqb_eq (a b : scalar_type) : scalar_type_eqb a b = true <-> a = b.
Proof. destruct a, b; simpl; split; congruence. Qed.

Lemma check_type_forward_rejects (x : array Qc) :
  ndim x <> 4 \/ dtype x <> Float32 -> check_type_forward x = Raise InvalidType.
Proof.
  intros Hbad. unfold check_type_forward, type_check_expect. cbn [forallb].
  destruct (scalar_type_eqb (dtype x) Float32) eqn:Ed; [|reflexivity].
  destruct (ndim x =? 4) eqn:En; [|reflexivity].
  apply scalar_type_eqb_eq in Ed. apply Z.eqb_eq in En.
  destruct Hbad; contradiction.
Qed.

(** C5.  An input whose rank is not 4 or whose element type is not float32
    is refused by [check_type_forward] with [InvalidType]; as a node checks
    its input before it runs its [forward], the forward node, the gradient
    node and the node the gradient node builds all fail with that error and
    none of their computations takes place. *)
Theorem invalid_input_rejected (garbage : Qc) (x : array Qc) :
  ndim x <> 4 \/ dtype x <> Float32 ->
  check_type_forward x = Raise InvalidType /\
  (forall (R : Type) (forward : array Qc -> result R),
     apply_node check_type_forward forward x = Raise InvalidType) /\
  (forall output_shape md al,
     resize_images garbage x output_shape md al = Raise InvalidType) /\
  (forall (self : ResizeImages) (x0 : array Qc),
     ResizeImages_backward self x0 x = Raise InvalidType) /\
  (forall (self : ResizeImagesGrad),
     ResizeImagesGrad_backward garbage self x = Raise InvalidType).
Proof.
  intros Hbad. pose proof (check_type_forward_rejects x Hbad) as Hc.
  split; [exact Hc|].
  assert (Hap : forall (R : Type) (forward : array Qc -> result R),
             apply_node check_type_forward forward x = Raise InvalidType).
  { intros R forward. unfold apply_node. rewrite Hc. reflexivity. }
  split; [exact Hap|]. repeat split; intros; apply Hap.
Qed.

Lemma invalid_input_rejected_witness :
  resize_images 0%Qc X_rank3 (4, 4) bilinear true = Raise InvalidType /\
  ResizeImages_backward (mk_ResizeImages 4 4 bilinear true) X22 X_float64
  = Raise InvalidType.
Proof.
  split.
  - apply (invalid_input_rejected 0%Qc X_rank3). left. discriminate.
  - apply (invalid_input_rejected 0%Qc X_float64). right. discriminate.
Defined.

(** * The output size is not validated *)









(** * Further properties of the panel-size heuristic *)

(** X1.  [_infer_lines] raises [ZeroDivisionError] exactly when [out_H] is 0
    or the line size [B * C * (H * W // out_H + kH * kW * out_W)] is 0 (an
    empty batch, for one); for all other integers the doubling loop stops
    and a panel height is returned. *)
Theorem infer_lines_zero_division (B C H W out_H out_W kH kW : Z) :
  let line_size := B * C * (H * W / out_H + kH * kW * out_W) in
  (out_H = 0 \/ line_size = 0 ->
   _infer_lines B C H W out_H out_W kH kW = Raise ZeroDivisionError) /\
  (out_H <> 0 -> line_size <> 0 ->
   exists lines, _infer_lines B C H W out_H out_W kH kW = Ok lines).
Proof.
  intros line_size. split.
  - intros Hz. unfold _infer_lines, floordiv.
    destruct (Z.eqb_spec out_H 0) as [E|E]; [reflexivity|].
    destruct Hz as [Hz|Hz]; [contradiction|].
    cbn [bind]. fold line_size. rewrite Hz. reflexivity.
  - intros HoH Hls.
    pose proof (infer_lines_never_diverges B C H W out_H out_W kH kW) as Hnd.
    unfold _infer_lines, floordiv in *.
    destruct (Z.eqb_spec out_H 0) as [E|E]; [contradiction|].
    cbn [bind] in *. fold line_size in Hnd |- *.
    destruct (Z.eqb_spec line_size 0) as [E'|E']; [contradiction|].
    cbn [bind] in *.
    destruct (_ <? out_H); [|eauto].
    destruct (infer_lines_loop _ _ _); [eauto|contradiction].
Qed.

Lemma infer_lines_zero_division_witness :
  _infer_lines 0 3 4 4 2 2 2 2 = Raise ZeroDivisionError /\
  exists lines, _infer_lines 1 1 2 2 4 4 2 2 = Ok lines.
Proof.
  split.
  - apply (proj1 (infer_lines_zero_division 0 3 4 4 2 2 2 2)). right. reflexivity.
  - apply (proj2 (infer_lines_zero_division 1 1 2 2 4 4 2 2)); discriminate.
Defined.

(** X2.  For a positive [out_H] and a positive line size the panel height
    is [out_H] itself or a power of two below it; a panel of that height
    stays within the budget of 2^17 cells whenever a single line does, and
    a panel smaller than the image cannot be doubled within the budget. *)
Theorem infer_lines_budget (B C H W out_H out_W kH kW : Z) :
  let line_size := B * C * (H * W / out_H + kH * kW * out_W) in
  0 < out_H -> 0 < line_size ->
  exists lines,
    _infer_lines B C H W out_H out_W kH kW = Ok lines /\
    1 <= lines <= out_H /\
    (lines = out_H \/ exists k, 0 <= k /\ lines = 2 ^ k) /\
    (line_size <= 2 ^ 17 -> lines * line_size <= 2 ^ 17) /\
    (lines < out_H -> 2 ^ 17 < 2 * lines * line_size).
Proof.
  intros line_size HoH Hls.
  unfold _infer_lines, floordiv.
  replace (out_H =? 0) with false by lia. cbn [bind]. fold line_size.
  replace (line_size =? 0) with false by lia. cbn [bind].
  set (target := 2 ^ 17 / line_size).
  assert (Ht : 0 <= target) by (apply Z.div_pos; lia).
  assert (Hmul : target * line_size <= 2 ^ 17).
  { unfold target. rewrite Z.mul_comm. apply Z.mul_div_le. lia. }
  assert (Hup : 2 ^ 17 < (target + 1) * line_size).
  { unfold target.
    pose proof (Z.mul_succ_div_gt (2 ^ 17) line_size Hls). lia. }
  destruct (Z.ltb_spec target out_H) as [Hlt|Hge].
  - destruct (infer_lines_loop_spec target (S (Z.to_nat target)) 1)
      as [r [k [Hr [Hk [Hr2 [_ [Hrt Hlt2]]]]]]]; try lia.
    { exists 0. split; [lia|reflexivity]. }
    rewrite Hr. exists r.
    assert (Hr1 : 1 <= r).
    { rewrite Hr2. assert (0 < 2 ^ k) by (apply Z.pow_pos_nonneg; lia). lia. }
    split; [reflexivity|]. split; [lia|]. split; [right; eauto|]. split.
    + intros Hfit.
      assert (1 <= target).
      { unfold target. apply Z.div_le_lower_bound; lia. }
      nia.
    + intros _. nia.
  - exists out_H. split; [reflexivity|]. split; [lia|]. split; [left; reflexivity|].
    split; [intros _; nia|lia].
Qed.

Lemma infer_lines_budget_witness :
  exists lines,
    _infer_lines 1 1 512 512 1024 1024 2 2 = Ok lines /\
    lines * 4352 <= 2 ^ 17 /\ 2 ^ 17 < 2 * lines * 4352.
Proof.
  destruct (infer_lines_budget 1 1 512 512 1024 1024 2 2)
    as (lines & Hl & _ & _ & Hfit & Hmax); [lia|reflexivity|].
  change (1 * 1 * (512 * 512 / 1024 + 2 * 2 * 1024)) with 4352 in Hfit, Hmax.
  exists lines. split; [exact Hl|].
  assert (Hle : lines * 4352 <= 2 ^ 17) by (apply Hfit; lia).
  split; [exact Hle|]. apply Hmax. lia.
Defined.

(** * The GPU engines *)

Lemma all_defined_map {A B : Type} (f : A -> option B) (g : A -> B) (l : list A) :
  (forall a, In a l -> f a = Some (g a)) -> all_defined f l = Some (map g l).
Proof.
  induction l as [|a l IH]; intros Hf; [reflexivity|].
  cbn [all_defined map]. rewrite (Hf a) by (left; reflexivity).
  rewrite IH by (intros b Hb; apply Hf; right; exact Hb). reflexivity.
Qed.

(** The address a thread computes for the pixel (vi, ui) of its image: no
    step of it leaves the index type. *)
Lemma kernel_address_small (B C H W K bc k vi ui : Z) :
  0 < H -> 0 < W -> B * C * H * W < 2 ^ 63 -> 0 < K ->
  0 <= bc < B * C -> 0 <= k < K -> 0 <= vi < H -> 0 <= ui < W ->
  kernel_address (kernel_offset H W K (bc * K + k)) vi ui W = (bc * H + vi) * W + ui /\
  0 <= (bc * H + vi) * W + ui < B * C * H * W.
Proof.
  intros HH HW Hsz HK Hbc Hk Hvi Hui.
  assert (Hq : Z.quot (bc * K + k) K = bc).
  { rewrite Z.quot_div_nonneg by nia.
    rewrite Z.div_add_l by lia. rewrite Z.div_small by lia. lia. }
  assert (Hrow : 0 <= bc * H + vi < B * C * H) by nia.
  assert (Hall : 0 <= (bc * H + vi) * W + ui < B * C * H * W) by nia.
  split; [|exact Hall].
  unfold kernel_address, kernel_offset. rewrite Hq.
  rewrite (wrap_intp_small (bc * H)) by nia.
  rewrite (wrap_intp_small (bc * H * W)) by nia.
  rewrite (wrap_intp_small (vi * W)) by nia.
  rewrite (wrap_intp_small (bc * H * W + vi * W)) by nia.
  rewrite wrap_intp_small by nia. ring.
Qed.

Lemma raw_read_pixel (x : array Qc) (B C H W bc vi ui : Z) :
  Z.of_nat (length (data x)) = B * C * H * W ->
  0 <= (bc * H + vi) * W + ui < B * C * H * W ->
  raw_read (data x) ((bc * H + vi) * W + ui) = Some (pixel x H W bc vi ui).
Proof.
  intros Hlen Hr. unfold raw_read. rewrite Hlen.
  replace (0 <=? _) with true by lia. replace (_ <? _) with true by lia.
  reflexivity.
Qed.

Section GpuForward.

Variables (x : array Qc) (v u : array Z) (vw uw : array Qc).
Variables B C H W out_H out_W : Z.
Hypothesis Hx : image_batch x B C H W.
Hypothesis Hv : grid v out_H out_W.
Hypothesis Hu : grid u out_H out_W.
Hypothesis Hvw : grid vw out_H out_W.
Hypothesis Huw : grid uw out_H out_W.
Hypothesis Hvin : indices_below v H.
Hypothesis Huin : indices_below u W.
Hypothesis HoH : 0 < out_H.
Hypothesis HoW : 0 < out_W.

Lemma gpu_thread_value (i : Z) :
  0 <= i < B * C * (out_H * out_W) ->
  let k := i mod (out_H * out_W) in
  interpolate_bilinear_kernel (data x) (znth k (data v) 0) (znth k (data u) 0)
    (znth k (data vw) 0%Qc) (znth k (data uw) 0%Qc) H W (out_H * out_W) i
  = Some (bilinear_pixel_spec x H W (i / (out_H * out_W))
            (znth k (data v) 0) (znth k (data u) 0)
            (znth k (data vw) 0%Qc) (znth k (data uw) 0%Qc)).
Proof.
  intros Hi k.
  pose proof (image_axes_small x B C H W Hx) as [HHs HWs].
  pose proof Hx as (_ & _ & HB & HC & HH & HW & Hsz & Hlen).
  set (K := out_H * out_W) in *.
  assert (HK : 0 < K) by (unfold K; nia).
  destruct (cell_row_col (B * C) K i HK ltac:(lia)) as [Hbc Hk]. fold k in Hk.
  assert (Ei : i = i / K * K + k).
  { unfold k. pose proof (Z.div_mod i K ltac:(lia)). lia. }
  set (bc := i / K) in *.
  assert (Hvk : 0 <= znth k (data v) 0 < H).
  { apply indices_below_znth; [assumption|]. destruct Hv as [_ ->]. exact Hk. }
  assert (Huk : 0 <= znth k (data u) 0 < W).
  { apply indices_below_znth; [assumption|]. destruct Hu as [_ ->]. exact Hk. }
  set (v0 := znth k (data v) 0) in *. set (u0 := znth k (data u) 0) in *.
  unfold interpolate_bilinear_kernel.
  rewrite (wrap_intp_small (v0 + 1)), (wrap_intp_small (u0 + 1)) by lia.
  assert (Hread : forall vi ui, 0 <= vi < H -> 0 <= ui < W ->
            raw_read (data x) (kernel_address (kernel_offset H W K i) vi ui W)
            = Some (pixel x H W bc vi ui)).
  { intros vi ui Hvi Hui. rewrite Ei.
    destruct (kernel_address_small B C H W K bc k vi ui) as [-> Hr]; try assumption.
    apply raw_read_pixel with (B := B) (C := C); assumption. }
  cbv zeta. rewrite !Hread by lia.
  f_equal. unfold bilinear_pixel_spec. ring.
Qed.

Lemma interpolate_bilinear_gpu_value :
  interpolate_bilinear_gpu x v u vw uw = Ok (Some (resize_per_pixel_spec x v u vw uw)).
Proof.
  pose proof Hx as (_ & Hsh & HB & HC & HH & HW & Hsz & Hlen).
  unfold interpolate_bilinear_gpu, resize_per_pixel_spec.
  rewrite Hsh. destruct Hv as [Hvs Hvl]. rewrite Hvs.
  unfold check_alloc. cbn [existsb].
  replace (B <? 0) with false by lia. replace (C <? 0) with false by lia.
  replace (out_H <? 0) with false by lia. replace (out_W <? 0) with false by lia.
  cbn [orb bind].
  rewrite !broadcast_to_grid by (assumption || (split; assumption)). cbn [bind].
  rewrite (all_defined_map _ (fun i =>
             bilinear_pixel_spec x H W (i / (out_H * out_W))
               (znth (i mod (out_H * out_W)) (data v) 0)
               (znth (i mod (out_H * out_W)) (data u) 0)
               (znth (i mod (out_H * out_W)) (data vw) 0%Qc)
               (znth (i mod (out_H * out_W)) (data uw) 0%Qc))).
  - cbn [option_map]. do 3 f_equal.
    rewrite (flat_map_grid (fun bc k => bilinear_pixel_spec x H W bc
               (znth k (data v) 0) (znth k (data u) 0)
               (znth k (data vw) 0%Qc) (znth k (data uw) 0%Qc))) by nia.
    f_equal. f_equal. ring.
  - intros i Hi. apply in_arange in Hi. apply gpu_thread_value. nia.
Qed.

End GpuForward.

(** ** Atomic additions *)

Lemma run_atomic_spec (ops : list (Z * Qc)) :
  forall gx,
    run_atomic ops gx =
    if forallb (fun op => (0 <=? fst op) && (fst op <? Z.of_nat (length gx))) ops
    then Some (fold_left (fun gx iw => add_at (fst iw) (snd iw) gx) ops gx)
    else None.
Proof.
  induction ops as [|[k w] ops IH]; intros gx; [reflexivity|].
  cbn [run_atomic forallb fold_left fst snd]. unfold atomicAdd.
  destruct ((0 <=? k) && (k <? Z.of_nat (length gx))); [|reflexivity].
  rewrite IH, length_add_at. reflexivity.
Qed.

Lemma combine_fst_snd {A B : Type} (l : list (A * B)) :
  combine (map fst l) (map snd l) = l.
Proof.
  induction l as [|[a b] l IH]; [reflexivity|]. cbn. rewrite IH. reflexivity.
Qed.

Lemma dot_scatter_ops (xs : list Qc) (ops : list (Z * Qc)) (gx : list Qc) :
  length xs = length gx ->
  Forall (fun op => 0 <= fst op < Z.of_nat (length xs)) ops ->
  sum_zip Qcmult xs (fold_left (fun gx iw => add_at (fst iw) (snd iw) gx) ops gx)
  = (sum_zip Qcmult xs gx
     + sum_Qc (map (fun op => znth (fst op) xs 0%Qc * snd op)%Qc ops))%Qc.
Proof.
  intros Hlen Hin.
  rewrite <- (combine_fst_snd ops) at 1.
  rewrite dot_scatter.
  - rewrite sum_zip_map. reflexivity.
  - exact Hlen.
  - apply Forall_map_in. intros op Hop.
    rewrite Forall_forall in Hin. apply Hin. exact Hop.
Qed.

Lemma sum_Qc_perm (l l' : list Qc) : Permutation l l' -> sum_Qc l = sum_Qc l'.
Proof.
  induction 1 as [|a l l' _ IH|a b l|l l' l'' _ IH1 _ IH2];
    unfold sum_Qc in *; cbn [fold_right].
  - reflexivity.
  - rewrite IH. reflexivity.
  - ring.
  - congruence.
Qed.

(** A list of numbers is known by its inner products. *)
Lemma sum_zip_determines :
  forall (a b : list Qc),
    length a = length b ->
    (forall xs, length xs = length a ->
                sum_zip Qcmult xs a = sum_zip Qcmult xs b) ->
    a = b.
Proof.
  induction a as [|a0 a IH]; intros [|b0 b] Hlen Hdot; try discriminate; [reflexivity|].
  cbn in Hlen. injection Hlen as Hlen.
  f_equal.
  - specialize (Hdot (1%Qc :: repeat 0%Qc (length a))).
    cbn [length] in Hdot. rewrite repeat_length in Hdot.
    specialize (Hdot eq_refl).
    unfold sum_zip, zip_with in Hdot. cbn [combine map fst snd sum_Qc fold_right] in Hdot.
    fold (zip_with Qcmult (repeat 0%Qc (length a)) a) in Hdot.
    fold (zip_with Qcmult (repeat 0%Qc (length a)) b) in Hdot.
    fold (sum_Qc (zip_with Qcmult (repeat 0%Qc (length a)) a)) in Hdot.
    fold (sum_Qc (zip_with Qcmult (repeat 0%Qc (length a)) b)) in Hdot.
    assert (Hz : forall l : list Qc,
               sum_Qc (zip_with Qcmult (repeat 0%Qc (length a)) l) = 0%Qc).
    { generalize (length a). intros n. induction n as [|n IHn]; intros [|c l];
        try reflexivity.
      unfold zip_with in *. cbn [repeat combine map fst snd sum_Qc fold_right].
      fold (sum_Qc (map (fun p => (fst p * snd p)%Qc) (combine (repeat 0%Qc n) l))).
      rewrite IHn. ring. }
    rewrite !Hz in Hdot.
    rewrite !Qcmult_1_l, !Qcplus_0_r in Hdot. exact Hdot.
  - apply IH; [exact Hlen|].
    intros xs Hxs. specialize (Hdot (0%Qc :: xs)).
    cbn [length] in Hdot. specialize (Hdot (f_equal S Hxs)).
    unfold sum_zip, zip_with in *. cbn [combine map fst snd sum_Qc fold_right] in Hdot.
    fold (sum_Qc (map (fun p => (fst p * snd p)%Qc) (combine xs a))) in Hdot.
    fold (sum_Qc (map (fun p => (fst p * snd p)%Qc) (combine xs b))) in Hdot.
    rewrite !Qcmult_0_l, !Qcplus_0_l in Hdot. exact Hdot.
Qed.

Lemma scatter_perm (ops ops' : list (Z * Qc)) (gx : list Qc) :
  Permutation ops ops' ->
  Forall (fun op => 0 <= fst op < Z.of_nat (length gx)) ops ->
  fold_left (fun gx iw => add_at (fst iw) (snd iw) gx) ops gx
  = fold_left (fun gx iw => add_at (fst iw) (snd iw) gx) ops' gx.
Proof.
  intros Hp Hin.
  assert (Hin' : Forall (fun op => 0 <= fst op < Z.of_nat (length gx)) ops').
  { eapply Permutation_Forall; eassumption. }
  apply sum_zip_determines.
  - rewrite !length_fold_add_at. reflexivity.
  - intros xs Hxs. rewrite length_fold_add_at in Hxs.
    rewrite !dot_scatter_ops by (try assumption; rewrite Hxs; assumption).
    f_equal. apply sum_Qc_perm. apply Permutation_map. exact Hp.
Qed.

Lemma run_atomic_perm (ops ops' : list (Z * Qc)) (gx : list Qc) :
  Permutation ops ops' -> run_atomic ops gx = run_atomic ops' gx.
Proof.
  intros Hp. rewrite !run_atomic_spec.
  set (ok := fun op : Z * Qc => (0 <=? fst op) && (fst op <? Z.of_nat (length gx))).
  assert (Hb : forallb ok ops = forallb ok ops').
  { apply eq_true_iff_eq. rewrite !forallb_forall. split; intros Hall op Hop;
      apply Hall; [eapply Permutation_in; [apply Permutation_sym|]|eapply Permutation_in];
      eassumption. }
  rewrite <- Hb. destruct (forallb ok ops) eqn:E; [|reflexivity].
  f_equal. apply scatter_perm; [exact Hp|].
  apply Forall_forall. intros op Hop. rewrite forallb_forall in E.
  specialize (E op Hop). unfold ok in E. lia.
Qed.

Lemma sum_Qc_flat_map {A : Type} (f : A -> list Qc) (l : list A) :
  sum_Qc (flat_map f l) = sum_Qc (map (fun a => sum_Qc (f a)) l).
Proof.
  induction l as [|a l IH]; [reflexivity|].
  cbn [flat_map map]. rewrite sum_Qc_app, IH. reflexivity.
Qed.

Lemma zip_with_arange_r {A B C : Type} (f : A -> B -> C) (g : Z -> A) (m : list B)
    (n : Z) (d : B) :
  Z.of_nat (length m) = n ->
  zip_with f (map g (arange n)) m = map (fun i => f (g i) (znth i m d)) (arange n).
Proof.
  intros Hn.
  transitivity (zip_with f (map g (arange n)) (map (fun i => znth i m d) (arange n))).
  - f_equal. subst n. apply list_as_map.
  - apply zip_with_map.
Qed.

Section GpuGrad.

Variables (gy : array Qc) (v u : array Z) (vw uw : array Qc).
Variables B C H W out_H out_W : Z.
Hypothesis Hgy : image_batch gy B C out_H out_W.
Hypothesis Hv : grid v out_H out_W.
Hypothesis Hu : grid u out_H out_W.
Hypothesis Hvw : grid vw out_H out_W.
Hypothesis Huw : grid uw out_H out_W.
Hypothesis Hvin : indices_below v H.
Hypothesis Huin : indices_below u W.
Hypothesis HH : 0 < H.
Hypothesis HW : 0 < W.
Hypothesis Hsz : B * C * H * W < 2 ^ 63.

Let K := out_H * out_W.
Let vf (k : Z) : Z := znth k (data v) 0.
Let uf (k : Z) : Z := znth k (data u) 0.
Let vwf (k : Z) : Qc := znth k (data vw) 0%Qc.
Let uwf (k : Z) : Qc := znth k (data uw) 0%Qc.
Let v1f (k : Z) : Z := Z.min (vf k + 1) (H - 1).
Let u1f (k : Z) : Z := Z.min (uf k + 1) (W - 1).
Let place (i vi ui : Z) : Z := (i / K * H + vi) * W + ui.

Lemma grad_thread_ops (i : Z) :
  0 <= i < B * C * K ->
  let k := i mod K in
  interpolate_grad_bilinear_kernel (znth i (data gy) 0%Qc) (vf k) (uf k) (vwf k) (uwf k)
    H W K i
  = [(place i (vf k) (uf k), ((1 - vwf k) * (1 - uwf k) * znth i (data gy) 0%Qc)%Qc);
     (place i (vf k) (u1f k), ((1 - vwf k) * uwf k * znth i (data gy) 0%Qc)%Qc);
     (place i (v1f k) (uf k), (vwf k * (1 - uwf k) * znth i (data gy) 0%Qc)%Qc);
     (place i (v1f k) (u1f k), (vwf k * uwf k * znth i (data gy) 0%Qc)%Qc)] /\
  0 <= vf k < H /\ 0 <= uf k < W /\ 0 <= v1f k < H /\ 0 <= u1f k < W /\
  0 <= i / K < B * C.
Proof.
  intros Hi k.
  pose proof Hgy as (_ & _ & HB & HC & HoH & HoW & _ & _).
  assert (HK : 0 < K) by (unfold K; nia).
  destruct (cell_row_col (B * C) K i HK ltac:(lia)) as [Hbc Hk]. fold k in Hk.
  assert (Ei : i = i / K * K + k).
  { unfold k. pose proof (Z.div_mod i K ltac:(lia)). lia. }
  assert (Hvk : 0 <= vf k < H).
  { apply indices_below_znth; [assumption|]. destruct Hv as [_ ->]. exact Hk. }
  assert (Huk : 0 <= uf k < W).
  { apply indices_below_znth; [assumption|]. destruct Hu as [_ ->]. exact Hk. }
  assert (HHs : H < 2 ^ 63) by nia.
  assert (HWs : W < 2 ^ 63) by nia.
  assert (Haddr : forall vi ui, 0 <= vi < H -> 0 <= ui < W ->
            kernel_address (kernel_offset H W K i) vi ui W = place i vi ui).
  { intros vi ui Hvi Hui. unfold place. rewrite Ei at 1.
    apply (kernel_address_small B C H W K (i / K) k vi ui); assumption. }
  unfold interpolate_grad_bilinear_kernel. cbv zeta.
  rewrite (wrap_intp_small (vf k + 1)), (wrap_intp_small (uf k + 1)) by lia.
  fold (v1f k) (u1f k).
  assert (Hv1 : 0 <= v1f k < H) by (unfold v1f; lia).
  assert (Hu1 : 0 <= u1f k < W) by (unfold u1f; lia).
  rewrite !Haddr by assumption.
  repeat split; try lia.
Qed.

Lemma launch_in_range :
  Forall (fun op : Z * Qc => 0 <= fst op < B * C * H * W)
         (grad_kernel_launch gy (data v) (data u) (data vw) (data uw) H W K
            (B * C * out_H * out_W)).
Proof.
  apply Forall_forall. intros op Hop. unfold grad_kernel_launch in Hop.
  apply in_flat_map in Hop. destruct Hop as [i [Hi Hop]].
  apply in_arange in Hi.
  destruct (grad_thread_ops i ltac:(unfold K; lia)) as (E & Hv0 & Hu0 & Hv1 & Hu1 & Hbc).
  change (In op (interpolate_grad_bilinear_kernel (znth i (data gy) 0%Qc)
                   (vf (i mod K)) (uf (i mod K)) (vwf (i mod K)) (uwf (i mod K))
                   H W K i)) in Hop.
  cbv zeta in E. rewrite E in Hop.
  assert (Hplace : forall vi ui, 0 <= vi < H -> 0 <= ui < W ->
            0 <= place i vi ui < B * C * H * W).
  { intros vi ui Hvi Hui. unfold place.
    assert (0 <= i / K * H + vi < B * C * H) by nia. nia. }
  cbn [In] in Hop.
  destruct Hop as [<-|[<-|[<-|[<-|[]]]]]; cbn [fst]; apply Hplace; assumption.
Qed.

Lemma launch_dot (x : array Qc) :
  image_batch x B C H W ->
  sum_Qc (map (fun op : Z * Qc => znth (fst op) (data x) 0 * snd op)%Qc
              (grad_kernel_launch gy (data v) (data u) (data vw) (data uw) H W K
                 (B * C * out_H * out_W)))
  = inner (resize_per_pixel_spec x v u vw uw) gy.
Proof.
  intros Hx.
  pose proof Hx as (_ & Hxsh & _).
  pose proof Hgy as (_ & _ & HB & HC & HoH & HoW & _ & Hglen).
  unfold grad_kernel_launch.
  unfold inner, resize_per_pixel_spec. rewrite Hxsh.
  destruct Hv as [Hvs _]. rewrite Hvs. cbn [data].
  rewrite (flat_map_grid (fun bc k => bilinear_pixel_spec x H W bc
             (znth k (data v) 0) (znth k (data u) 0)
             (znth k (data vw) 0%Qc) (znth k (data uw) 0%Qc))) by nia.
  replace (B * C * out_H * out_W) with (B * C * (out_H * out_W)) in * by ring.
  rewrite (zip_with_arange_r _ _ _ _ 0%Qc Hglen).
  fold K.
  transitivity (sum_Qc (map (fun i =>
      sum_Qc (map (fun op : Z * Qc => znth (fst op) (data x) 0 * snd op)%Qc
                (interpolate_grad_bilinear_kernel (znth i (data gy) 0%Qc)
                   (vf (i mod K)) (uf (i mod K)) (vwf (i mod K)) (uwf (i mod K))
                   H W K i))) (arange (B * C * K)))).
  - induction (arange (B * C * K)) as [|i l IH]; [reflexivity|].
    cbn [flat_map map]. rewrite map_app, sum_Qc_app, IH. reflexivity.
  - apply sum_Qc_map_ext_in. intros i Hi. apply in_arange in Hi.
    destruct (grad_thread_ops i Hi) as (E & Hv0 & Hu0 & Hv1 & Hu1 & Hbc).
    cbv zeta in E. rewrite E.
    unfold sum_Qc. cbn [map fst snd fold_right].
    unfold place, bilinear_pixel_spec, pixel. cbv zeta.
    fold (vf (i mod K)) (uf (i mod K)) (vwf (i mod K)) (uwf (i mod K)).
    fold (v1f (i mod K)) (u1f (i mod K)).
    ring.
Qed.

Lemma interpolate_grad_bilinear_gpu_value (schedule : list (Z * Qc) -> list (Z * Qc)) :
  (forall ops, Permutation ops (schedule ops)) ->
  exists gx,
    interpolate_grad_bilinear_cpu gy v u vw uw H W = Ok gx /\
    interpolate_grad_bilinear_gpu schedule gy v u vw uw H W = Ok (Some gx).
Proof.
  intros Hsched.
  pose proof Hgy as (Hgdt & Hgsh & HB & HC & HoH & HoW & _ & Hglen).
  set (N := B * C * H * W).
  assert (HN : 0 < N) by (unfold N; nia).
  set (x0 := mk_array Float32 [B; C; H; W] (repeat 0%Qc (Z.to_nat N))).
  assert (Hx0 : image_batch x0 B C H W).
  { unfold image_batch, x0. cbn [dtype shape data]. rewrite repeat_length.
    repeat split; try assumption; try reflexivity. fold N. lia. }
  destruct (grad_engine_adjoint x0 gy v u vw uw B C H W out_H out_W)
    as [gx (Hcpu & Hgx & _)]; try assumption.
  exists gx. split; [exact Hcpu|].
  unfold interpolate_grad_bilinear_gpu. rewrite Hgsh.
  unfold check_alloc. cbn [existsb].
  replace (B * C <? 0) with false by nia.
  replace (H <? 0) with false by lia. replace (W <? 0) with false by lia.
  cbn [orb bind].
  rewrite !broadcast_to_grid by assumption. cbn [bind].
  fold K N.
  set (ops := grad_kernel_launch gy (data v) (data u) (data vw) (data uw) H W K
                (B * C * out_H * out_W)).
  rewrite <- (run_atomic_perm ops (schedule ops)) by apply Hsched.
  rewrite run_atomic_spec, repeat_length.
  pose proof launch_in_range as Hin. fold ops N in Hin.
  replace (forallb _ ops) with true.
  2:{ symmetry. apply forallb_forall. intros op Hop.
      rewrite Forall_forall in Hin. specialize (Hin op Hop).
      apply andb_true_intro. split; [apply Z.leb_le|apply Z.ltb_lt]; lia. }
  cbn [option_map]. do 2 f_equal.
  destruct Hgx as (Hdt & Hsh & _ & _ & _ & _ & _ & Hlen).
  assert (Edata : fold_left (fun gx iw => add_at (fst iw) (snd iw) gx) ops
                    (repeat 0%Qc (Z.to_nat N)) = data gx).
  { apply sum_zip_determines.
    - rewrite length_fold_add_at, repeat_length. fold N in Hlen. lia.
    - intros xs Hxs. rewrite length_fold_add_at, repeat_length in Hxs.
      set (x := mk_array Float32 [B; C; H; W] xs).
      assert (Hx : image_batch x B C H W).
      { unfold image_batch, x. cbn [dtype shape data].
        repeat split; try assumption; try reflexivity. fold N. lia. }
      destruct (grad_engine_adjoint x gy v u vw uw B C H W out_H out_W)
        as [gx' (Hcpu' & _ & Hadj)]; try assumption.
      rewrite Hcpu in Hcpu'. injection Hcpu' as <-.
      rewrite dot_scatter_ops.
      + rewrite dot_zeros, Qcplus_0_l.
        change xs with (data x). unfold ops. rewrite launch_dot by exact Hx.
        rewrite <- Hadj. reflexivity.
      + rewrite repeat_length. exact Hxs.
      + rewrite Hxs. apply Forall_forall. intros op Hop.
        rewrite Forall_forall in Hin. specialize (Hin op Hop). lia. }
  rewrite Edata, Hgdt, <- Hdt, <- Hsh. destruct gx as [dt sh dat]. reflexivity.
Qed.

End GpuGrad.

(** X3.  On an image batch and grids of in-range indices the GPU kernel of
    the forward pass reads only inside [x] and, in exact arithmetic,
    returns the very array the CPU engine returns: the two back ends are
    one function. *)
Theorem gpu_forward_agrees_with_cpu (garbage : Qc) (x : array Qc) (v u : array Z)
    (vw uw : array Qc) (B C H W oH oW : Z) :
  image_batch x B C H W ->
  grid v oH oW -> grid u oH oW -> grid vw oH oW -> grid uw oH oW ->
  indices_below v H -> indices_below u W ->
  0 < oH -> 0 < oW ->
  exists y,
    interpolate_bilinear_cpu garbage x v u vw uw = Ok y /\
    interpolate_bilinear_gpu x v u vw uw = Ok (Some y).
Proof.
  intros Hx Hv Hu Hvw Huw Hvin Huin HoH HoW.
  exists (resize_per_pixel_spec x v u vw uw). split.
  - apply interpolate_bilinear_cpu_correct with (B := B) (C := C) (H := H) (W := W)
      (out_H := oH) (out_W := oW); assumption.
  - apply interpolate_bilinear_gpu_value with (B := B) (C := C) (H := H) (W := W)
      (out_H := oH) (out_W := oW); assumption.
Qed.

Lemma gpu_forward_agrees_with_cpu_witness :
  exists y,
    interpolate_bilinear_cpu 0%Qc X11 index_grid_11 index_grid_11
                             weight_grid_11 weight_grid_11 = Ok y /\
    interpolate_bilinear_gpu X11 index_grid_11 index_grid_11
                             weight_grid_11 weight_grid_11 = Ok (Some y).
Proof.
  apply (gpu_forward_agrees_with_cpu 0%Qc X11 index_grid_11 index_grid_11
           weight_grid_11 weight_grid_11 1 1 1 1 1 1 image_batch_X11
           (proj1 grid_index_11) (proj1 grid_index_11) grid_weight_11 grid_weight_11
           (proj2 grid_index_11) (proj2 grid_index_11)); lia.
Defined.

(** X4.  On a gradient batch and grids of in-range indices every atomic
    addition of the GPU gradient kernel lands inside [gx] and, in exact
    arithmetic, the kernel returns the very array the CPU engine builds
    with [bincount], in whatever order the additions of the concurrent
    threads reach the memory. *)
Theorem gpu_gradient_agrees_with_cpu (schedule : list (Z * Qc) -> list (Z * Qc))
    (gy : array Qc) (v u : array Z) (vw uw : array Qc) (B C H W oH oW : Z) :
  (forall ops, Permutation ops (schedule ops)) ->
  image_batch gy B C oH oW ->
  grid v oH oW -> grid u oH oW -> grid vw oH oW -> grid uw oH oW ->
  indices_below v H -> indices_below u W ->
  0 < H -> 0 < W -> B * C * H * W < 2 ^ 63 ->
  exists gx,
    interpolate_grad_bilinear_cpu gy v u vw uw H W = Ok gx /\
    interpolate_grad_bilinear_gpu schedule gy v u vw uw H W = Ok (Some gx).
Proof.
  intros Hsched Hgy Hv Hu Hvw Huw Hvin Huin HH HW Hsz.
  apply interpolate_grad_bilinear_gpu_value with (B := B) (C := C)
    (out_H := oH) (out_W := oW); assumption.
Qed.

Lemma gpu_gradient_agrees_with_cpu_witness :
  exists gx,
    interpolate_grad_bilinear_cpu GY11 index_grid_11 index_grid_11
                                  weight_grid_11 weight_grid_11 1 1 = Ok gx /\
    interpolate_grad_bilinear_gpu (@rev (Z * Qc)) GY11 index_grid_11 index_grid_11
                                  weight_grid_11 weight_grid_11 1 1 = Ok (Some gx).
Proof.
  apply (gpu_gradient_agrees_with_cpu (@rev (Z * Qc)) GY11 index_grid_11 index_grid_11
           weight_grid_11 weight_grid_11 1 1 1 1 1 1
           (@Permutation_rev (Z * Qc)) image_batch_GY11
           (proj1 grid_index_11) (proj1 grid_index_11) grid_weight_11 grid_weight_11
           (proj2 grid_index_11) (proj2 grid_index_11)); lia.
Defined.

(** * Further properties of the operator *)

(** ** A resize to the size of the input *)

Lemma same_size_index (md : sampling_mode) (al : bool) (n i : Z) :
  0 <= i < n -> (md = bilinear -> al = true -> 2 <= n) ->
  axis_index md al n n i = i.
Proof.
  intros Hi Hal. destruct md; [destruct al|].
  - apply align_same_size_index. apply Hal; reflexivity.
  - unfold axis_index.
    replace ((2 * i + 1) * n - n) with (i * (2 * n)) by ring.
    rewrite Z.div_mul by lia. lia.
  - unfold axis_index. rewrite Z.div_mul by lia. lia.
Qed.

Lemma same_size_weight (md : sampling_mode) (al : bool) (n i : Z) :
  0 <= i < n -> (md = bilinear -> al = true -> 2 <= n) ->
  axis_weight md al n n i = 0%Qc.
Proof.
  intros Hi Hal. destruct md; [destruct al|].
  - apply align_same_size_weight. apply Hal; reflexivity.
  - unfold axis_weight. rewrite same_size_index by (assumption || discriminate).
    unfold axis_coordinate.
    replace ((2 * i + 1) * n - n) with (i * (2 * n)) by ring.
    rewrite Z2Qc_mul.
    assert (Hn : Z2Qc (2 * n) <> 0%Qc) by (apply Z2Qc_nonzero; lia).
    replace (Z2Qc i * Z2Qc (2 * n) / Z2Qc (2 * n))%Qc with (Z2Qc i) by (field; exact Hn).
    unfold Qc_max. rewrite <- Z2Qc_0, Qc_ltb_Z2Qc.
    replace (i <? 0) with false by lia. cbv iota. rewrite Z2Qc_0. ring.
  - reflexivity.
Qed.

Lemma same_size_per_pixel (md : sampling_mode) (al : bool) (x : array Qc) (B C H W : Z) :
  image_batch x B C H W ->
  (md = bilinear -> al = true -> 2 <= H /\ 2 <= W) ->
  let '(v, u, vw, uw) := axis_grids md al H W H W (dtype x) in
  resize_per_pixel_spec x v u vw uw = x.
Proof.
  intros (Hdt & Hsh & HB & HC & HH & HW & Hsz & Hlen) Hal.
  unfold axis_grids, resize_per_pixel_spec. cbv zeta. rewrite Hsh. cbn [shape data].
  destruct x as [dt sh dat]. cbn [dtype shape data] in *. subst sh. f_equal.
  rewrite (flat_map_grid (fun bc k => bilinear_pixel_spec _ H W bc _ _ _ _)) by nia.
  transitivity (map (fun p => znth p dat 0%Qc) (arange (B * C * (H * W)))).
  2:{ replace (B * C * (H * W)) with (Z.of_nat (length dat)) by lia.
      symmetry. apply list_as_map. }
  apply map_ext_in. intros p Hp. apply in_arange in Hp.
  destruct (cell_row_col (B * C) (H * W) p ltac:(nia) Hp) as [Hbc Hk].
  destruct (cell_row_col H W (p mod (H * W)) ltac:(lia) Hk) as [Hi Hj].
  rewrite !znth_map_arange by lia.
  rewrite !same_size_index, !same_size_weight
    by (try assumption; intros E1 E2; apply (Hal E1 E2)).
  rewrite bilinear_pixel_spec_corner. unfold pixel. cbn [data]. f_equal.
  pose proof (Z.div_mod p (H * W) ltac:(nia)).
  pose proof (Z.div_mod (p mod (H * W)) W ltac:(lia)).
  nia.
Qed.

(** X5.  In nearest mode and in bilinear mode without AlignCorners a
    resize to the size of the input returns the input itself, for images
    of every size, a single row or column included. *)
Theorem same_size_resize_is_identity (garbage : Qc) (x : array Qc) (B C H W : Z)
    (md : sampling_mode) (al : bool) :
  image_batch x B C H W ->
  md = nearest \/ al = false ->
  resize_images garbage x (H, W) md al = Ok x.
Proof.
  intros Hx Hmode. pose proof Hx as (Hdt & Hsh & HB & HC & HH & HW & _).
  assert (Hal : md = bilinear -> al = true -> 2 <= H /\ 2 <= W).
  { intros -> ->. destruct Hmode; discriminate. }
  assert (Hdeg : degenerate md al H W = false).
  { destruct md; [|reflexivity]. destruct al; [|reflexivity].
    destruct Hmode; discriminate. }
  unfold resize_images, apply_node, ResizeImages_init.
  rewrite (check_type_forward_ok x B C H W Hx). cbn [bind fst snd].
  pose proof (ResizeImages_forward_value garbage x B C H W H W md al Hx
                ltac:(lia) ltac:(lia) Hdeg) as Hf.
  pose proof (same_size_per_pixel md al x B C H W Hx Hal) as Hid.
  destruct (axis_grids md al H W H W (dtype x)) as [[[v u] vw] uw].
  rewrite Hf, Hid. reflexivity.
Qed.

Lemma same_size_resize_is_identity_witness :
  resize_images 0%Qc X11 (1, 1) bilinear false = Ok X11 /\
  resize_images 0%Qc X22 (2, 2) nearest true = Ok X22.
Proof.
  split.
  - apply (same_size_resize_is_identity 0%Qc X11 1 1 1 1 bilinear false image_batch_X11).
    right. reflexivity.
  - apply (same_size_resize_is_identity 0%Qc X22 1 1 2 2 nearest true image_batch_X22).
    left. reflexivity.
Defined.

(** ** The weights are those of a convex combination *)

Lemma Qc_frac_range (c : Qc) :
  (0 <= c - Z2Qc (Qfloor c))%Qc /\ (c - Z2Qc (Qfloor c) < 1)%Qc.
Proof.
  assert (E : (this (c - Z2Qc (Qfloor c))%Qc == this c - inject_Z (Qfloor c))%Q).
  { unfold Qcminus, Qcplus, Qcopp, Q2Qc. cbn [this].
    rewrite !Qred_correct, this_Z2Qc. reflexivity. }
  pose proof (Qfloor_le c) as Hlo. pose proof (Qlt_floor c) as Hhi.
  rewrite inject_Z_plus in Hhi.
  unfold Qcle, Qclt. rewrite E.
  change (this 0%Qc) with 0%Q. change (this 1%Qc) with 1%Q.
  change (inject_Z 1) with 1%Q in Hhi.
  split.
  - apply (Qplus_le_l _ _ (inject_Z (Qfloor c))). ring_simplify. exact Hlo.
  - apply (Qplus_lt_l _ _ (inject_Z (Qfloor c))). ring_simplify.
    exact Hhi.
Qed.

Lemma axis_weight_range (md : sampling_mode) (al : bool) (n_in n_out i : Z) :
  (0 <= axis_weight md al n_in n_out i)%Qc /\ (axis_weight md al n_in n_out i < 1)%Qc.
Proof.
  destruct md.
  - unfold axis_weight. rewrite <- axis_coordinate_floor. apply Qc_frac_range.
  - cbn. split; [apply Qcle_refl|reflexivity].
Qed.

Lemma Qc_mul_nonneg (a b : Qc) : (0 <= a -> 0 <= b -> 0 <= a * b)%Qc.
Proof.
  intros Ha Hb. replace 0%Qc with (0 * b)%Qc by ring.
  apply Qcmult_le_compat_r; assumption.
Qed.

Lemma Qc_add_nonneg (a b : Qc) : (0 <= a -> 0 <= b -> 0 <= a + b)%Qc.
Proof.
  intros Ha Hb. replace 0%Qc with (0 + 0)%Qc by ring.
  apply Qcplus_le_compat; assumption.
Qed.

Lemma Qc_sub_nonneg (a b : Qc) : (a <= b <-> 0 <= b - a)%Qc.
Proof. unfold Qcminus. apply Qcle_minus_iff. Qed.

(** A blend of four numbers with weights built from two fractions stays
    between any two bounds of the four. *)
Lemma blend_between (lo hi p00 p01 p10 p11 vw uw : Qc) :
  (0 <= vw -> vw <= 1 -> 0 <= uw -> uw <= 1 ->
   lo <= p00 <= hi -> lo <= p01 <= hi -> lo <= p10 <= hi -> lo <= p11 <= hi ->
   lo <= (1 - uw) * (1 - vw) * p00 + uw * (1 - vw) * p01
         + (1 - uw) * vw * p10 + uw * vw * p11 <= hi)%Qc.
Proof.
  intros Hv0 Hv1 Hu0 Hu1 [L0 U0] [L1 U1] [L2 U2] [L3 U3].
  apply Qc_sub_nonneg in Hv1, Hu1, L0, U0, L1, U1, L2, U2, L3, U3.
  split; apply Qc_sub_nonneg.
  - replace ((1 - uw) * (1 - vw) * p00 + uw * (1 - vw) * p01
             + (1 - uw) * vw * p10 + uw * vw * p11 - lo)%Qc
      with ((1 - uw) * (1 - vw) * (p00 - lo) + uw * (1 - vw) * (p01 - lo)
            + (1 - uw) * vw * (p10 - lo) + uw * vw * (p11 - lo))%Qc by ring.
    repeat apply Qc_add_nonneg; repeat apply Qc_mul_nonneg; assumption.
  - replace (hi - ((1 - uw) * (1 - vw) * p00 + uw * (1 - vw) * p01
                   + (1 - uw) * vw * p10 + uw * vw * p11))%Qc
      with ((1 - uw) * (1 - vw) * (hi - p00) + uw * (1 - vw) * (hi - p01)
            + (1 - uw) * vw * (hi - p10) + uw * vw * (hi - p11))%Qc by ring.
    repeat apply Qc_add_nonneg; repeat apply Qc_mul_nonneg; assumption.
Qed.

Lemma Forall_znth {A : Type} (P : A -> Prop) (l : list A) (d : A) (i : Z) :
  Forall P l -> 0 <= i < Z.of_nat (length l) -> P (znth i l d).
Proof.
  intros Hall Hi. rewrite Forall_forall in Hall. apply Hall.
  unfold znth. apply nth_In. lia.
Qed.

Lemma per_pixel_between (x : array Qc) (v u : array Z) (vw uw : array Qc)
    (B C H W oH oW : Z) (lo hi : Qc) :
  image_batch x B C H W ->
  grid v oH oW -> grid u oH oW -> grid vw oH oW -> grid uw oH oW ->
  indices_below v H -> indices_below u W ->
  Forall (fun w => 0 <= w <= 1)%Qc (data vw) ->
  Forall (fun w => 0 <= w <= 1)%Qc (data uw) ->
  Forall (fun p => lo <= p <= hi)%Qc (data x) ->
  Forall (fun q => lo <= q <= hi)%Qc (data (resize_per_pixel_spec x v u vw uw)).
Proof.
  intros (_ & Hsh & HB & HC & HH & HW & _ & Hlen) [Hvs Hvl] [_ Hul] [_ Hvwl] [_ Huwl]
         Hvin Huin Hvw Huw Hx.
  unfold resize_per_pixel_spec. rewrite Hsh, Hvs. cbn [data].
  apply Forall_forall. intros q Hq.
  apply in_flat_map in Hq. destruct Hq as [bc [Hbc Hq]].
  apply in_map_iff in Hq. destruct Hq as [k [<- Hk]].
  apply in_arange in Hbc. apply in_arange in Hk.
  assert (Hv0 : 0 <= znth k (data v) 0 < H)
    by (apply indices_below_znth; [assumption|lia]).
  assert (Hu0 : 0 <= znth k (data u) 0 < W)
    by (apply indices_below_znth; [assumption|lia]).
  assert (Hpix : forall vi ui, 0 <= vi < H -> 0 <= ui < W ->
            (lo <= pixel x H W bc vi ui <= hi)%Qc).
  { intros vi ui Hvi Hui. unfold pixel.
    apply (Forall_znth (fun p => lo <= p <= hi)%Qc); [exact Hx|].
    rewrite Hlen. assert (0 <= bc * H + vi < B * C * H) by nia. nia. }
  pose proof (Forall_znth _ _ 0%Qc k Hvw ltac:(lia)) as [Hw0 Hw1].
  pose proof (Forall_znth _ _ 0%Qc k Huw ltac:(lia)) as [Hw2 Hw3].
  unfold bilinear_pixel_spec. cbv zeta.
  apply blend_between; try assumption; apply Hpix; lia.
Qed.

Lemma axis_grids_weights (md : sampling_mode) (al : bool) (H W oH oW : Z)
    (ft : scalar_type) :
  let '(_, _, vw, uw) := axis_grids md al H W oH oW ft in
  Forall (fun w => 0 <= w /\ w < 1)%Qc (data vw) /\
  Forall (fun w => 0 <= w /\ w < 1)%Qc (data uw).
Proof.
  unfold axis_grids. cbn [data].
  split; apply Forall_map_in; intros k _; apply axis_weight_range.
Qed.

(** X6.  The weights the nodes compute lie in [0, 1) in every mode, so
    an output pixel is a convex combination of input pixels of its image:
    whatever bounds [lo <= . <= hi] hold for all pixels of the input hold
    for all pixels of the output (no overshoot; a constant image stays
    constant). *)
Theorem resize_stays_in_range (garbage : Qc) (x : array Qc) (B C H W oH oW : Z)
    (md : sampling_mode) (al : bool) (lo hi : Qc) :
  image_batch x B C H W -> 1 <= oH -> 1 <= oW ->
  degenerate md al oH oW = false ->
  Forall (fun p => lo <= p <= hi)%Qc (data x) ->
  (exists v u vw uw,
     index_and_weight_grids (oH, oW) (H, W) md al (dtype x) = Ok (v, u, vw, uw) /\
     Forall (fun w => 0 <= w /\ w < 1)%Qc (data vw) /\
     Forall (fun w => 0 <= w /\ w < 1)%Qc (data uw)) /\
  exists y,
    resize_images garbage x (oH, oW) md al = Ok y /\
    Forall (fun q => lo <= q <= hi)%Qc (data y).
Proof.
  intros Hx HoH HoW Hdeg Hbounds.
  pose proof Hx as (Hdt & Hsh & HB & HC & HH & HW & _).
  pose proof (image_axes_small x B C H W Hx) as [HHs HWs].
  pose proof (grids_value md al H W oH oW (dtype x)
                ltac:(lia) ltac:(lia) HoH HoW Hdeg) as Hgrids.
  pose proof (ResizeImages_forward_value garbage x B C H W oH oW md al Hx HoH HoW Hdeg)
    as Hf.
  pose proof (axis_grids_props md al H W oH oW (dtype x)
                ltac:(lia) ltac:(lia) HoH HoW Hdeg) as Hp.
  pose proof (axis_grids_weights md al H W oH oW (dtype x)) as Hw.
  destruct (axis_grids md al H W oH oW (dtype x)) as [[[v u] vw] uw].
  destruct Hp as (Hv & Hu & Hvw & Huw & Hvin & Huin). destruct Hw as [Hw1 Hw2].
  split; [exists v, u, vw, uw; auto|].
  unfold resize_images, apply_node, ResizeImages_init.
  rewrite (check_type_forward_ok x B C H W Hx). cbn [bind fst snd].
  rewrite Hf. eexists. split; [reflexivity|].
  apply per_pixel_between with (B := B) (C := C) (H := H) (W := W) (oH := oH) (oW := oW);
    try assumption.
  - eapply Forall_impl; [|exact Hw1]. cbv beta. intros w [H0 H1].
    split; [exact H0|apply Qclt_le_weak; exact H1].
  - eapply Forall_impl; [|exact Hw2]. cbv beta. intros w [H0 H1].
    split; [exact H0|apply Qclt_le_weak; exact H1].
Qed.

Lemma resize_stays_in_range_witness :
  exists y,
    resize_images 0%Qc X22 (3, 5) bilinear false = Ok y /\
    Forall (fun q => Z2Qc 1 <= q <= Z2Qc 4)%Qc (data y).
Proof.
  apply (resize_stays_in_range 0%Qc X22 1 1 2 2 3 5 bilinear false (Z2Qc 1) (Z2Qc 4)
           image_batch_X22); try lia; try reflexivity.
  repeat constructor; vm_compute; discriminate.
Defined.

(** ** AlignCorners maps corners to corners *)

Lemma aligned_weight (n_in n_out i : Z) :
  2 <= n_out -> (i * (n_in - 1)) mod (n_out - 1) = 0 ->
  axis_weight bilinear true n_in n_out i = 0%Qc.
Proof.
  intros Hn Hmod. unfold axis_weight, axis_coordinate, axis_index.
  set (a := i * (n_in - 1)) in *.
  assert (Ea : a = (n_out - 1) * (a / (n_out - 1))).
  { apply Z_div_exact_full_2; [lia|exact Hmod]. }
  rewrite Ea at 1. rewrite Z2Qc_mul.
  assert (Z2Qc (n_out - 1) <> 0%Qc) by (apply Z2Qc_nonzero; lia).
  field. assumption.
Qed.

(** X7.  With AlignCorners (and at least two output rows and columns) an
    output position whose coordinate is a whole number copies the input
    pixel at that coordinate; in particular the four corners of every
    input image are the four corners of its output image. *)
Theorem align_corners_maps_corners (garbage : Qc) (x : array Qc) (B C H W oH oW : Z) :
  image_batch x B C H W -> 2 <= oH -> 2 <= oW ->
  exists y,
    resize_images garbage x (oH, oW) bilinear true = Ok y /\
    (forall n c i j,
       0 <= n < B -> 0 <= c < C -> 0 <= i < oH -> 0 <= j < oW ->
       (i * (H - 1)) mod (oH - 1) = 0 -> (j * (W - 1)) mod (oW - 1) = 0 ->
       at4 y n c i j = at4 x n c (i * (H - 1) / (oH - 1)) (j * (W - 1) / (oW - 1))) /\
    (forall n c,
       0 <= n < B -> 0 <= c < C ->
       at4 y n c 0 0 = at4 x n c 0 0 /\
       at4 y n c 0 (oW - 1) = at4 x n c 0 (W - 1) /\
       at4 y n c (oH - 1) 0 = at4 x n c (H - 1) 0 /\
       at4 y n c (oH - 1) (oW - 1) = at4 x n c (H - 1) (W - 1)).
Proof.
  intros Hx HoH HoW.
  assert (Hdeg : degenerate bilinear true oH oW = false).
  { cbn. apply orb_false_iff. lia. }
  destruct (resize_images_pixels garbage x B C H W oH oW bilinear true Hx
              ltac:(lia) ltac:(lia) Hdeg) as (y & Hy & _ & _ & _ & Hat).
  pose proof Hx as (_ & Hsh & _).
  assert (Hgen : forall n c i j,
       0 <= n < B -> 0 <= c < C -> 0 <= i < oH -> 0 <= j < oW ->
       (i * (H - 1)) mod (oH - 1) = 0 -> (j * (W - 1)) mod (oW - 1) = 0 ->
       at4 y n c i j = at4 x n c (i * (H - 1) / (oH - 1)) (j * (W - 1) / (oW - 1))).
  { intros n c i j Hn Hc Hi Hj Hmi Hmj.
    rewrite (Hat n c i j Hn Hc Hi Hj).
    rewrite !aligned_weight by assumption.
    rewrite bilinear_pixel_spec_corner.
    rewrite (at4_pixel x B C H W) by exact Hsh. reflexivity. }
  exists y. split; [exact Hy|]. split; [exact Hgen|].
  intros n c Hn Hc.
  assert (Hlast : forall a b, 2 <= b ->
            ((b - 1) * (a - 1)) mod (b - 1) = 0 /\ (b - 1) * (a - 1) / (b - 1) = a - 1).
  { intros a b Hb. rewrite (Z.mul_comm (b - 1)).
    split; [apply Z.mod_mul|apply Z.div_mul]; lia. }
  destruct (Hlast H oH HoH) as [Hm1 Hd1]. destruct (Hlast W oW HoW) as [Hm2 Hd2].
  assert (Hfirst : forall a b, 2 <= b -> (0 * (a - 1)) mod (b - 1) = 0 /\
                                      0 * (a - 1) / (b - 1) = 0).
  { intros a b Hb. rewrite Z.mul_0_l.
    split; [apply Z.mod_0_l|apply Z.div_0_l]; lia. }
  destruct (Hfirst H oH HoH) as [Hm3 Hd3]. destruct (Hfirst W oW HoW) as [Hm4 Hd4].
  repeat split.
  - rewrite (Hgen n c 0 0) by (assumption || lia). rewrite Hd3, Hd4. reflexivity.
  - rewrite (Hgen n c 0 (oW - 1)) by (assumption || lia). rewrite Hd3, Hd2. reflexivity.
  - rewrite (Hgen n c (oH - 1) 0) by (assumption || lia). rewrite Hd1, Hd4. reflexivity.
  - rewrite (Hgen n c (oH - 1) (oW - 1)) by (assumption || lia).
    rewrite Hd1, Hd2. reflexivity.
Qed.

Lemma align_corners_maps_corners_witness :
  exists y,
    resize_images 0%Qc X22 (3, 5) bilinear true = Ok y /\
    at4 y 0 0 2 4 = at4 X22 0 0 1 1.
Proof.
  destruct (align_corners_maps_corners 0%Qc X22 1 1 2 2 3 5 image_batch_X22)
    as (y & Hy & _ & Hc); try lia.
  exists y. split; [exact Hy|].
  destruct (Hc 0 0) as (_ & _ & _ & Hlast); try lia. exact Hlast.
Defined.

(** ** Shrinking by an even factor without AlignCorners *)

Lemma even_factor_quotient (m n_out i : Z) :
  1 <= n_out ->
  ((2 * i + 1) * (2 * m * n_out) - n_out) / (2 * n_out) = 2 * m * i + m - 1.
Proof.
  intros Hn.
  replace ((2 * i + 1) * (2 * m * n_out) - n_out)
    with ((2 * (2 * m * i + m - 1) + 1) * n_out) by ring.
  rewrite Z.div_mul_cancel_r by lia.
  symmetry. apply Z.div_unique with (r := 1); lia.
Qed.

Lemma even_factor_index (m n_out i : Z) :
  1 <= m -> 1 <= n_out -> 0 <= i ->
  axis_index bilinear false (2 * m * n_out) n_out i = 2 * m * i + m - 1.
Proof.
  intros Hm Hn Hi. unfold axis_index. rewrite even_factor_quotient by assumption. nia.
Qed.

Lemma even_factor_weight (m n_out i : Z) :
  1 <= m -> 1 <= n_out -> 0 <= i ->
  axis_weight bilinear false (2 * m * n_out) n_out i = (1 / Z2Qc 2)%Qc.
Proof.
  intros Hm Hn Hi. unfold axis_weight.
  rewrite even_factor_index by assumption.
  unfold axis_coordinate.
  set (q := (Z2Qc ((2 * i + 1) * (2 * m * n_out) - n_out) / Z2Qc (2 * n_out))%Qc).
  assert (Hq : Qc_max q 0%Qc = q).
  { unfold Qc_max. rewrite Qc_ltb_0_floor.
    unfold q. rewrite Qfloor_Z2Qc_div, even_factor_quotient by assumption.
    replace (2 * m * i + m - 1 <? 0) with false by nia. reflexivity. }
  rewrite Hq. unfold q.
  replace ((2 * i + 1) * (2 * m * n_out) - n_out)
    with ((2 * (2 * m * i + m - 1) + 1) * n_out) by ring.
  rewrite !Z2Qc_mul, Z2Qc_add, Z2Qc_mul, Z2Qc_1.
  assert (Z2Qc 2 <> 0%Qc) by (apply Z2Qc_nonzero; lia).
  assert (Z2Qc n_out <> 0%Qc) by (apply Z2Qc_nonzero; lia).
  field. split; assumption.
Qed.

(** X8.  Without AlignCorners, shrinking by the even factors [2 * mh] and
    [2 * mw] in bilinear mode puts every sample on the corner shared by
    the four middle pixels of its block, with both weights 1/2: the output
    pixel is the mean of these four pixels (for the factor 2, of the whole
    2 x 2 block). *)
Theorem even_shrink_is_block_mean (garbage : Qc) (x : array Qc)
    (B C oH oW mh mw : Z) :
  1 <= mh -> 1 <= mw -> 1 <= oH -> 1 <= oW ->
  image_batch x B C (2 * mh * oH) (2 * mw * oW) ->
  exists y,
    resize_images garbage x (oH, oW) bilinear false = Ok y /\
    shape y = [B; C; oH; oW] /\
    forall n c i j,
      0 <= n < B -> 0 <= c < C -> 0 <= i < oH -> 0 <= j < oW ->
      let a := 2 * mh * i + mh - 1 in
      let b := 2 * mw * j + mw - 1 in
      at4 y n c i j =
      ((at4 x n c a b + at4 x n c a (b + 1)
        + at4 x n c (a + 1) b + at4 x n c (a + 1) (b + 1)) / Z2Qc 4)%Qc.
Proof.
  intros Hmh Hmw HoH HoW Hx.
  destruct (resize_images_pixels garbage x B C (2 * mh * oH) (2 * mw * oW) oH oW
              bilinear false Hx HoH HoW eq_refl) as (y & Hy & _ & Hysh & _ & Hat).
  pose proof Hx as (_ & Hsh & _).
  exists y. split; [exact Hy|]. split; [exact Hysh|].
  intros n c i j Hn Hc Hi Hj a b.
  rewrite (Hat n c i j Hn Hc Hi Hj).
  rewrite !even_factor_index, !even_factor_weight by lia.
  fold a b. unfold bilinear_pixel_spec. cbv zeta.
  replace (Z.min (a + 1) (2 * mh * oH - 1)) with (a + 1) by (unfold a; nia).
  replace (Z.min (b + 1) (2 * mw * oW - 1)) with (b + 1) by (unfold b; nia).
  rewrite !(at4_pixel x B C (2 * mh * oH) (2 * mw * oW)) by exact Hsh.
  replace (Z2Qc 4) with ((1 + 1) * (1 + 1))%Qc by (apply Qc_is_canon; reflexivity).
  replace (Z2Qc 2) with (1 + 1)%Qc by (apply Qc_is_canon; reflexivity).
  field. split; intros E; apply (f_equal this) in E; discriminate E.
Qed.

Lemma even_shrink_is_block_mean_witness :
  exists y,
    resize_images 0%Qc X22 (1, 1) bilinear false = Ok y /\
    at4 y 0 0 0 0 =
    ((at4 X22 0 0 0 0 + at4 X22 0 0 0 1 + at4 X22 0 0 1 0 + at4 X22 0 0 1 1) / Z2Qc 4)%Qc.
Proof.
  destruct (even_shrink_is_block_mean 0%Qc X22 1 1 1 1 1 1) as (y & Hy & _ & Hat);
    try lia.
  - exact image_batch_X22.
  - exists y. split; [exact Hy|]. apply (Hat 0 0 0 0); lia.
Defined.

(** ** Nearest mode and whole factors *)

Lemma nearest_pixels (garbage : Qc) (x : array Qc) (B C H W oH oW : Z) (al : bool) :
  image_batch x B C H W -> 1 <= oH -> 1 <= oW ->
  exists y,
    resize_images garbage x (oH, oW) nearest al = Ok y /\
    dtype y = Float32 /\ shape y = [B; C; oH; oW] /\
    Z.of_nat (length (data y)) = B * C * oH * oW /\
    forall n c i j,
      0 <= n < B -> 0 <= c < C -> 0 <= i < oH -> 0 <= j < oW ->
      at4 y n c i j = at4 x n c (Z.min (i * H / oH) (H - 1)) (Z.min (j * W / oW) (W - 1)).
Proof.
  intros Hx HoH HoW.
  destruct (resize_images_pixels garbage x B C H W oH oW nearest al Hx HoH HoW eq_refl)
    as (y & Hy & Hdt & Hsh & Hlen & Hat).
  exists y. repeat split; try assumption.
  intros n c i j Hn Hc Hi Hj. rewrite (Hat n c i j Hn Hc Hi Hj).
  cbn [axis_weight axis_index]. rewrite bilinear_pixel_spec_corner.
  destruct Hx as (_ & Hxsh & _).
  rewrite (at4_pixel x B C H W) by exact Hxsh. reflexivity.
Qed.

Lemma nearest_enlarged (garbage : Qc) (x : array Qc) (B C H W kh kw : Z) (al : bool) :
  image_batch x B C H W -> 1 <= kh -> 1 <= kw ->
  exists y,
    resize_images garbage x (kh * H, kw * W) nearest al = Ok y /\
    dtype y = Float32 /\ shape y = [B; C; kh * H; kw * W] /\
    Z.of_nat (length (data y)) = B * C * (kh * H) * (kw * W) /\
    forall n c i j,
      0 <= n < B -> 0 <= c < C -> 0 <= i < kh * H -> 0 <= j < kw * W ->
      at4 y n c i j = at4 x n c (i / kh) (j / kw).
Proof.
  intros Hx Hkh Hkw. pose proof Hx as (_ & _ & _ & _ & HH & HW & _).
  destruct (nearest_pixels garbage x B C H W (kh * H) (kw * W) al Hx
              ltac:(nia) ltac:(nia)) as (y & Hy & Hdt & Hsh & Hlen & Hat).
  exists y. repeat split; try assumption.
  intros n c i j Hn Hc Hi Hj. rewrite (Hat n c i j Hn Hc Hi Hj).
  rewrite !Z.div_mul_cancel_r by lia.
  assert (i / kh < H) by (apply Z.div_lt_upper_bound; nia).
  assert (j / kw < W) by (apply Z.div_lt_upper_bound; nia).
  f_equal; lia.
Qed.

(** X9.  In nearest mode, enlarging by factors that are powers of two
    replicates pixels: the output pixel (i, j) is the input pixel
    (i // 2^a, j // 2^b).  (For such factors the scale [H / out_H] is a
    power of two, and a float computes the same index.) *)
Theorem nearest_enlarging_replicates (garbage : Qc) (x : array Qc)
    (B C H W a b : Z) (al : bool) :
  image_batch x B C H W -> 0 <= a -> 0 <= b ->
  exists y,
    resize_images garbage x (2 ^ a * H, 2 ^ b * W) nearest al = Ok y /\
    shape y = [B; C; 2 ^ a * H; 2 ^ b * W] /\
    forall n c i j,
      0 <= n < B -> 0 <= c < C -> 0 <= i < 2 ^ a * H -> 0 <= j < 2 ^ b * W ->
      at4 y n c i j = at4 x n c (i / 2 ^ a) (j / 2 ^ b).
Proof.
  intros Hx Ha Hb.
  assert (Hkh : 1 <= 2 ^ a) by (pose proof (Z.pow_pos_nonneg 2 a); lia).
  assert (Hkw : 1 <= 2 ^ b) by (pose proof (Z.pow_pos_nonneg 2 b); lia).
  destruct (nearest_enlarged garbage x B C H W (2 ^ a) (2 ^ b) al Hx Hkh Hkw)
    as (y & Hy & _ & Hsh & _ & Hat).
  exists y. auto.
Qed.

Lemma nearest_enlarging_replicates_witness :
  exists y,
    resize_images 0%Qc X22 (2 ^ 1 * 2, 2 ^ 2 * 2) nearest true = Ok y /\
    at4 y 0 0 3 5 = at4 X22 0 0 (3 / 2 ^ 1) (5 / 2 ^ 2).
Proof.
  destruct (nearest_enlarging_replicates 0%Qc X22 1 1 2 2 1 2 true image_batch_X22)
    as (y & Hy & _ & Hat); try lia.
  exists y. split; [exact Hy|]. apply (Hat 0 0 3 5); lia.
Defined.

(** X10.  In nearest mode, shrinking by the whole factors [kh] and [kw]
    keeps the first pixel of every block: the output pixel (i, j) is the
    input pixel (i * kh, j * kw). *)
Theorem nearest_shrinking_decimates (garbage : Qc) (x : array Qc)
    (B C oH oW kh kw : Z) (al : bool) :
  1 <= kh -> 1 <= kw -> 1 <= oH -> 1 <= oW ->
  image_batch x B C (kh * oH) (kw * oW) ->
  exists y,
    resize_images garbage x (oH, oW) nearest al = Ok y /\
    shape y = [B; C; oH; oW] /\
    forall n c i j,
      0 <= n < B -> 0 <= c < C -> 0 <= i < oH -> 0 <= j < oW ->
      at4 y n c i j = at4 x n c (i * kh) (j * kw).
Proof.
  intros Hkh Hkw HoH HoW Hx.
  destruct (nearest_pixels garbage x B C (kh * oH) (kw * oW) oH oW al Hx HoH HoW)
    as (y & Hy & _ & Hsh & _ & Hat).
  exists y. split; [exact Hy|]. split; [exact Hsh|].
  intros n c i j Hn Hc Hi Hj. rewrite (Hat n c i j Hn Hc Hi Hj).
  replace (i * (kh * oH)) with (i * kh * oH) by ring.
  replace (j * (kw * oW)) with (j * kw * oW) by ring.
  rewrite !Z.div_mul by lia.
  f_equal; nia.
Qed.

Lemma nearest_shrinking_decimates_witness :
  exists y,
    resize_images 0%Qc X22 (1, 1) nearest false = Ok y /\
    at4 y 0 0 0 0 = at4 X22 0 0 (0 * 2) (0 * 2).
Proof.
  destruct (nearest_shrinking_decimates 0%Qc X22 1 1 1 1 2 2 false) as (y & Hy & _ & Hat);
    try lia.
  - exact image_batch_X22.
  - exists y. split; [exact Hy|]. apply (Hat 0 0 0 0); lia.
Defined.

(** A four-dimensional array is known by its cells. *)
Lemma array_ext_at4 (a b : array Qc) (B C H W : Z) :
  dtype a = dtype b -> shape a = [B; C; H; W] -> shape b = [B; C; H; W] ->
  Z.of_nat (length (data a)) = B * C * H * W ->
  Z.of_nat (length (data b)) = B * C * H * W ->
  0 < C -> 0 < H -> 0 < W ->
  (forall n c i j,
     0 <= n < B -> 0 <= c < C -> 0 <= i < H -> 0 <= j < W ->
     at4 a n c i j = at4 b n c i j) ->
  a = b.
Proof.
  intros Hdt Hsa Hsb Hla Hlb HC HH HW Hat.
  destruct a as [dta sha da], b as [dtb shb db]. cbn [dtype shape data] in *.
  subst dtb sha shb. f_equal.
  rewrite (list_as_map da 0%Qc), (list_as_map db 0%Qc), Hla, Hlb.
  apply map_ext_in. intros p Hp. apply in_arange in Hp.
  set (j := p mod W). set (r1 := p / W).
  set (i := r1 mod H). set (r2 := r1 / H).
  set (c := r2 mod C). set (n := r2 / C).
  assert (E1 : p = r1 * W + j).
  { unfold r1, j. pose proof (Z.div_mod p W ltac:(lia)). lia. }
  assert (E2 : r1 = r2 * H + i).
  { unfold r2, i. pose proof (Z.div_mod r1 H ltac:(lia)). lia. }
  assert (E3 : r2 = n * C + c).
  { unfold n, c. pose proof (Z.div_mod r2 C ltac:(lia)). lia. }
  assert (Hj : 0 <= j < W) by (apply Z.mod_pos_bound; lia).
  assert (Hi : 0 <= i < H) by (apply Z.mod_pos_bound; lia).
  assert (Hc : 0 <= c < C) by (apply Z.mod_pos_bound; lia).
  assert (Hr1 : 0 <= r1 < B * C * H).
  { unfold r1. split; [apply Z.div_pos; lia|apply Z.div_lt_upper_bound; lia]. }
  assert (Hr2 : 0 <= r2 < B * C).
  { unfold r2. split; [apply Z.div_pos; lia|apply Z.div_lt_upper_bound; lia]. }
  assert (Hn : 0 <= n < B).
  { unfold n. split; [apply Z.div_pos; lia|apply Z.div_lt_upper_bound; lia]. }
  specialize (Hat n c i j Hn Hc Hi Hj). unfold at4 in Hat. cbn [shape data] in Hat.
  rewrite <- E3, <- E2, <- E1 in Hat. exact Hat.
Qed.

(** X11.  Round trip in nearest mode: enlarging an image by factors that
    are powers of two and shrinking the result back to the first size
    gives the image back. *)
Theorem nearest_round_trip (garbage : Qc) (x : array Qc) (B C H W a b : Z)
    (al al' : bool) :
  image_batch x B C H W -> 0 <= a -> 0 <= b ->
  B * C * (2 ^ a * H) * (2 ^ b * W) < 2 ^ 63 ->
  (y <- resize_images garbage x (2 ^ a * H, 2 ^ b * W) nearest al ;;
   resize_images garbage y (H, W) nearest al') = Ok x.
Proof.
  intros Hx Ha Hb Hsz.
  pose proof Hx as (Hdt & Hsh & HB & HC & HH & HW & _ & Hlen).
  assert (Hkh : 1 <= 2 ^ a) by (pose proof (Z.pow_pos_nonneg 2 a); lia).
  assert (Hkw : 1 <= 2 ^ b) by (pose proof (Z.pow_pos_nonneg 2 b); lia).
  set (kh := 2 ^ a) in *. set (kw := 2 ^ b) in *.
  destruct (nearest_enlarged garbage x B C H W kh kw al Hx Hkh Hkw)
    as (y & Hy & Hydt & Hysh & Hylen & Hyat).
  rewrite Hy. cbn [bind].
  assert (Hyb : image_batch y B C (kh * H) (kw * W)).
  { unfold image_batch. repeat split; try assumption; nia. }
  destruct (nearest_pixels garbage y B C (kh * H) (kw * W) H W al' Hyb
              ltac:(lia) ltac:(lia)) as (z & Hz & Hzdt & Hzsh & Hzlen & Hzat).
  rewrite Hz. f_equal.
  apply (array_ext_at4 z x B C H W); try assumption; try congruence.
  intros n c i j Hn Hc Hi Hj.
  rewrite (Hzat n c i j Hn Hc Hi Hj).
  replace (i * (kh * H)) with (i * kh * H) by ring.
  replace (j * (kw * W)) with (j * kw * W) by ring.
  rewrite !Z.div_mul by lia.
  replace (Z.min (i * kh) (kh * H - 1)) with (i * kh) by nia.
  replace (Z.min (j * kw) (kw * W - 1)) with (j * kw) by nia.
  rewrite (Hyat n c (i * kh) (j * kw)) by nia.
  rewrite !Z.div_mul by lia. reflexivity.
Qed.

Lemma nearest_round_trip_witness :
  (y <- resize_images 0%Qc X22 (2 ^ 1 * 2, 2 ^ 2 * 2) nearest true ;;
   resize_images 0%Qc y (2, 2) nearest false) = Ok X22.
Proof.
  apply (nearest_round_trip 0%Qc X22 1 1 2 2 1 2 true false image_batch_X22); lia.
Defined.

(** * Edge cases of the forward pass *)

Lemma infer_lines_empty_batch (B C H W out_H out_W kH kW : Z) :
  B * C = 0 -> _infer_lines B C H W out_H out_W kH kW = Raise ZeroDivisionError.
Proof.
  intros HBC. unfold _infer_lines, floordiv.
  destruct (out_H =? 0); [reflexivity|]. cbn [bind].
  rewrite HBC, Z.mul_0_l. reflexivity.
Qed.

(** X12.  An empty batch is not resized: for an input with no image or no
    channel the line size of the heuristic is 0, and the CPU engine stops
    with [ZeroDivisionError] whatever the grids are; so does
    [resize_images] for every output size it can compute grids for. *)
Theorem empty_batch_fails (garbage : Qc) (x : array Qc) (B C H W : Z) :
  shape x = [B; C; H; W] -> B * C = 0 ->
  (forall (v u : array Z) (vw uw : array Qc) (oH oW : Z),
     shape v = [oH; oW] ->
     interpolate_bilinear_cpu garbage x v u vw uw = Raise ZeroDivisionError) /\
  (forall (oH oW : Z) (md : sampling_mode) (al : bool),
     dtype x = Float32 -> 1 <= H < 2 ^ 63 -> 1 <= W < 2 ^ 63 ->
     1 <= oH -> 1 <= oW -> degenerate md al oH oW = false ->
     resize_images garbage x (oH, oW) md al = Raise ZeroDivisionError).
Proof.
  intros Hsh HBC.
  assert (Hengine : forall (v u : array Z) (vw uw : array Qc) (oH oW : Z),
     shape v = [oH; oW] ->
     interpolate_bilinear_cpu garbage x v u vw uw = Raise ZeroDivisionError).
  { intros v u vw uw oH oW Hv. unfold interpolate_bilinear_cpu.
    rewrite Hsh, Hv, infer_lines_empty_batch by exact HBC. reflexivity. }
  split; [exact Hengine|].
  intros oH oW md al Hdt HH HW HoH HoW Hdeg.
  assert (Hck : check_type_forward x = Ok tt).
  { unfold check_type_forward, type_check_expect, ndim. rewrite Hdt, Hsh. reflexivity. }
  unfold resize_images, apply_node, ResizeImages_init. rewrite Hck. cbn [bind fst snd].
  unfold ResizeImages_forward. rewrite Hsh, Hdt.
  cbn [skipn out_H out_W mode align_corners].
  rewrite grids_value by assumption. cbn [bind].
  pose proof (axis_grids_props md al H W oH oW Float32
                ltac:(lia) ltac:(lia) HoH HoW Hdeg) as Hp.
  destruct (axis_grids md al H W oH oW Float32) as [[[v u] vw] uw].
  destruct Hp as ([Hv _] & _).
  apply (Hengine v u vw uw oH oW Hv).
Qed.

Lemma empty_batch_fails_witness :
  resize_images 0%Qc (mk_array Float32 [0; 3; 2; 2] []) (4, 4) bilinear true
  = Raise ZeroDivisionError.
Proof.
  apply (proj2 (empty_batch_fails 0%Qc (mk_array Float32 [0; 3; 2; 2] []) 0 3 2 2
                  eq_refl eq_refl));
    try reflexivity; lia.
Defined.

(** X13.  The coordinate generator treats a zero output size by mode: in
    bilinear mode it never raises, whatever the sizes are, and returns
    [out_H] row entries and [out_W] column entries (none for a size below
    1); in nearest mode the scale [H / out_H] or [W / out_W] raises
    [ZeroDivisionError] exactly when [out_H] or [out_W] is 0, and
    otherwise the lists have the same lengths and all weights are 0. *)
Theorem coordinate_generator_errors (H W oH oW : Z) (al : bool) :
  (exists v u vw uw,
     compute_indices_and_weights (oH, oW) (H, W) bilinear al = Ok (v, u, vw, uw) /\
     length v = Z.to_nat oH /\ length u = Z.to_nat oW /\
     length vw = Z.to_nat oH /\ length uw = Z.to_nat oW) /\
  (oH = 0 \/ oW = 0 ->
   compute_indices_and_weights (oH, oW) (H, W) nearest al = Raise ZeroDivisionError) /\
  (oH <> 0 -> oW <> 0 ->
   exists v u vw uw,
     compute_indices_and_weights (oH, oW) (H, W) nearest al = Ok (v, u, vw, uw) /\
     length v = Z.to_nat oH /\ length u = Z.to_nat oW /\
     vw = repeat (Fin 0%Qc) (Z.to_nat oH) /\ uw = repeat (Fin 0%Qc) (Z.to_nat oW)).
Proof.
  split; [|split].
  - rewrite compute_bilinear. do 4 eexists. split; [reflexivity|].
    rewrite !length_map, !length_arange. auto.
  - intros Hz. cbn [compute_indices_and_weights]. unfold truediv.
    destruct (Z.eqb_spec oH 0) as [E|E]; [reflexivity|].
    destruct Hz as [Hz|Hz]; [contradiction|]. cbn [bind].
    rewrite Hz. reflexivity.
  - intros HoH HoW. cbn [compute_indices_and_weights]. unfold truediv.
    destruct (Z.eqb_spec oH 0) as [E|_]; [contradiction|].
    destruct (Z.eqb_spec oW 0) as [E|_]; [contradiction|]. cbn [bind].
    do 4 eexists. split; [reflexivity|].
    rewrite !length_map, !length_arange.
    repeat split; rewrite map_map, <- (length_arange oH) || rewrite map_map, <- (length_arange oW);
      symmetry; apply repeat_as_map.
Qed.

Lemma coordinate_generator_errors_witness :
  compute_indices_and_weights (2, 0) (2, 2) nearest true = Raise ZeroDivisionError /\
  exists v u vw uw,
    compute_indices_and_weights (2, 0) (2, 2) bilinear true = Ok (v, u, vw, uw) /\
    length u = Z.to_nat 0.
Proof.
  destruct (coordinate_generator_errors 2 2 2 0 true)
    as ((v & u & vw & uw & Hb & _ & Hu & _) & Hn & _).
  split; [apply Hn; right; reflexivity|].
  exists v, u, vw, uw. auto.
Defined.

(** * Further properties of the gradient *)

Lemma backward_adjoint_all (x gy : array Qc) (B C H W oH oW : Z)
    (md : sampling_mode) (al : bool) :
  image_batch x B C H W -> image_batch gy B C oH oW ->
  degenerate md al oH oW = false ->
  exists gx,
    ResizeImages_backward (mk_ResizeImages oH oW md al) x gy = Ok gx /\
    image_batch gx B C H W /\
    let '(v, u, vw, uw) := axis_grids md al H W oH oW Float32 in
    forall x', image_batch x' B C H W ->
               inner x' gx = inner (resize_per_pixel_spec x' v u vw uw) gy.
Proof.
  intros Hx Hgy Hdeg.
  pose proof Hx as (Hxdt & Hxsh & HB & HC & HH & HW & _).
  pose proof Hgy as (Hgdt & Hgsh & _ & _ & HoH & HoW & _).
  pose proof (image_axes_small x B C H W Hx) as [HHs HWs].
  pose proof (axis_grids_props md al H W oH oW Float32
                ltac:(lia) ltac:(lia) ltac:(lia) ltac:(lia) Hdeg) as Hp.
  pose proof (grids_value md al H W oH oW Float32
                ltac:(lia) ltac:(lia) ltac:(lia) ltac:(lia) Hdeg) as Hgrids.
  destruct (axis_grids md al H W oH oW Float32) as [[[v u] vw] uw].
  destruct Hp as (Hv & Hu & Hvw & Huw & Hvin & Huin).
  destruct (grad_engine_adjoint x gy v u vw uw B C H W oH oW)
    as [gx (Hg & Hgx & _)]; try assumption.
  exists gx. split; [|split; [exact Hgx|]].
  - unfold ResizeImages_backward, apply_node, ResizeImagesGrad_init.
    rewrite (check_type_forward_ok gy B C oH oW Hgy). cbn [bind fst snd].
    unfold ResizeImagesGrad_forward.
    cbn [input_shape g_out_H g_out_W g_mode g_align_corners out_H out_W mode
         align_corners].
    rewrite Hxsh, Hgdt, Hgrids. cbn [bind]. exact Hg.
  - intros x' Hx'.
    destruct (grad_engine_adjoint x' gy v u vw uw B C H W oH oW)
      as [gx' (Hg' & _ & Hadj)]; try assumption.
    rewrite Hg in Hg'. injection Hg' as <-. exact Hadj.
Qed.

Lemma sum_zip_ones (l m : list Qc) :
  Forall (fun q => q = 1%Qc) l -> length l = length m ->
  sum_zip Qcmult l m = sum_Qc m.
Proof.
  revert m. induction l as [|a l IH]; intros [|b m] Hall Hlen; try discriminate;
    [reflexivity|].
  inversion Hall as [|? ? Ha Hl]; subst.
  unfold sum_zip, zip_with in *. cbn [combine map fst snd sum_Qc fold_right].
  fold (sum_Qc (map (fun p => (fst p * snd p)%Qc) (combine l m))).
  fold (sum_Qc m).
  rewrite IH by (try assumption; cbn in Hlen; lia). ring.
Qed.

Lemma sum_zip_nonneg (l m : list Qc) :
  Forall (fun q => 0 <= q)%Qc l -> Forall (fun q => 0 <= q)%Qc m ->
  (0 <= sum_zip Qcmult l m)%Qc.
Proof.
  revert m. induction l as [|a l IH]; intros [|b m] Hl Hm;
    try (apply Qcle_refl).
  inversion Hl; inversion Hm; subst.
  unfold sum_zip, zip_with in *. cbn [combine map fst snd sum_Qc fold_right].
  fold (sum_Qc (map (fun p => (fst p * snd p)%Qc) (combine l m))).
  apply Qc_add_nonneg; [apply Qc_mul_nonneg; assumption|apply IH; assumption].
Qed.

(** The inner product with the unit impulse at [p] reads the cell [p]. *)
Lemma sum_zip_impulse (l : list Qc) (p : Z) :
  0 <= p < Z.of_nat (length l) ->
  sum_zip Qcmult
    (map (fun q => if q =? p then 1%Qc else 0%Qc) (arange (Z.of_nat (length l)))) l
  = znth p l 0%Qc.
Proof.
  intros Hp.
  rewrite (list_as_map l 0%Qc) at 2.
  rewrite sum_zip_map.
  replace (Z.of_nat (length l)) with (p + (1 + (Z.of_nat (length l) - p - 1))) by lia.
  rewrite !arange_add by lia.
  rewrite !map_app, !sum_Qc_app, !map_map.
  rewrite (sum_Qc_map_ext_in _ (fun _ => 0%Qc) (arange p)).
  2:{ intros q Hq. apply in_arange in Hq. replace (q =? p) with false by lia. ring. }
  rewrite (sum_Qc_map_ext_in _ (fun _ => 0%Qc) (arange (Z.of_nat (length l) - p - 1))).
  2:{ intros q Hq. apply in_arange in Hq.
      replace (p + (1 + q) =? p) with false by lia. ring. }
  rewrite !sum_Qc_zeros.
  change (arange 1) with [0]. cbn [map sum_Qc fold_right].
  replace (p + 0 =? p) with true by lia.
  rewrite Z.add_0_r. ring.
Qed.

Lemma axis_grids_weights_closed (md : sampling_mode) (al : bool) (H W oH oW : Z)
    (ft : scalar_type) :
  let '(_, _, vw, uw) := axis_grids md al H W oH oW ft in
  Forall (fun w => 0 <= w <= 1)%Qc (data vw) /\
  Forall (fun w => 0 <= w <= 1)%Qc (data uw).
Proof.
  pose proof (axis_grids_weights md al H W oH oW ft) as Hw.
  destruct (axis_grids md al H W oH oW ft) as [[[v u] vw] uw].
  destruct Hw as [Hw1 Hw2].
  split; (eapply Forall_impl; [|eassumption]); cbv beta; intros w [H0 H1];
    (split; [exact H0|apply Qclt_le_weak; exact H1]).
Qed.

Lemma length_per_pixel (x : array Qc) (v u : array Z) (vw uw : array Qc)
    (B C H W oH oW : Z) :
  shape x = [B; C; H; W] -> shape v = [oH; oW] ->
  0 <= B * C -> 0 <= oH * oW ->
  Z.of_nat (length (data (resize_per_pixel_spec x v u vw uw))) = B * C * (oH * oW).
Proof.
  intros Hx Hv HBC HK. unfold resize_per_pixel_spec. rewrite Hx, Hv. cbn [data].
  rewrite (length_flat_map_const _ _ (Z.to_nat (oH * oW))).
  - rewrite length_arange. nia.
  - intros bc _. rewrite length_map, length_arange. reflexivity.
Qed.

Section Gradient.

Variables (x gy : array Qc) (B C H W oH oW : Z) (md : sampling_mode) (al : bool).
Hypothesis Hx : image_batch x B C H W.
Hypothesis Hgy : image_batch gy B C oH oW.
Hypothesis Hdeg : degenerate md al oH oW = false.

Let N := B * C * H * W.

Lemma image_batch_cells (cells : list Qc) :
  Z.of_nat (length cells) = N ->
  image_batch (mk_array Float32 [B; C; H; W] cells) B C H W.
Proof.
  intros Hlen. destruct Hx as (_ & _ & HB & HC & HH & HW & Hsz & _).
  unfold image_batch. cbn [dtype shape data]. repeat split; assumption.
Qed.

(** The response of the forward pass to an image within bounds, as the
    gradient sees it. *)
Lemma response_between (cells : list Qc) (lo hi : Qc) :
  Z.of_nat (length cells) = N ->
  Forall (fun p => lo <= p <= hi)%Qc cells ->
  let '(v, u, vw, uw) := axis_grids md al H W oH oW Float32 in
  Forall (fun q => lo <= q <= hi)%Qc
         (data (resize_per_pixel_spec (mk_array Float32 [B; C; H; W] cells) v u vw uw)) /\
  length (data (resize_per_pixel_spec (mk_array Float32 [B; C; H; W] cells) v u vw uw))
  = length (data gy).
Proof.
  intros Hlen Hcells.
  pose proof Hx as (_ & _ & HB & HC & HH & HW & _).
  pose proof Hgy as (_ & _ & _ & _ & HoH & HoW & _ & Hglen).
  pose proof (axis_grids_props md al H W oH oW Float32
                ltac:(lia) ltac:(lia) ltac:(lia) ltac:(lia) Hdeg) as Hp.
  pose proof (axis_grids_weights_closed md al H W oH oW Float32) as Hw.
  destruct (axis_grids md al H W oH oW Float32) as [[[v u] vw] uw].
  destruct Hp as (Hv & Hu & Hvw & Huw & Hvin & Huin). destruct Hw as [Hw1 Hw2].
  split.
  - apply per_pixel_between with (B := B) (C := C) (H := H) (W := W) (oH := oH) (oW := oW);
      try assumption.
    apply image_batch_cells. exact Hlen.
  - apply Nat2Z.inj.
    rewrite (length_per_pixel _ v u vw uw B C H W oH oW) by (try reflexivity; try nia; apply Hv).
    rewrite Hglen. ring.
Qed.

Lemma gradient_sum :
  exists gx,
    ResizeImages_backward (mk_ResizeImages oH oW md al) x gy = Ok gx /\
    image_batch gx B C H W /\
    sum_Qc (data gx) = sum_Qc (data gy).
Proof.
  destruct (backward_adjoint_all x gy B C H W oH oW md al Hx Hgy Hdeg)
    as (gx & Hb & Hgx & Hadj).
  exists gx. split; [exact Hb|]. split; [exact Hgx|].
  pose proof Hx as (_ & _ & HB & HC & HH & HW & _).
  set (ones := repeat 1%Qc (Z.to_nat N)).
  assert (Hlen : Z.of_nat (length ones) = N).
  { unfold ones. rewrite repeat_length. unfold N. nia. }
  assert (Hones : Forall (fun p => 1 <= p <= 1)%Qc ones).
  { unfold ones. apply Forall_forall. intros p Hp. apply repeat_spec in Hp. subst p.
    split; apply Qcle_refl. }
  pose proof (response_between ones 1%Qc 1%Qc Hlen Hones) as Hresp.
  destruct (axis_grids md al H W oH oW Float32) as [[[v u] vw] uw].
  destruct Hresp as [Hall Hrlen].
  specialize (Hadj _ (image_batch_cells ones Hlen)).
  unfold inner in Hadj. cbn [data] in Hadj.
  fold (sum_zip Qcmult ones (data gx)) in Hadj.
  match type of Hadj with
  | _ = sum_Qc (zip_with Qcmult ?r _) => fold (sum_zip Qcmult r (data gy)) in Hadj
  end.
  rewrite sum_zip_ones in Hadj.
  - rewrite sum_zip_ones in Hadj; [exact Hadj| |exact Hrlen].
    eapply Forall_impl; [|exact Hall]. cbv beta. intros q [H1 H2].
    apply Qcle_antisym; assumption.
  - unfold ones. apply Forall_forall. intros p Hp. apply repeat_spec in Hp. exact Hp.
  - destruct Hgx as (_ & _ & _ & _ & _ & _ & _ & Hgl). fold N in Hgl. lia.
Qed.

Lemma gradient_nonneg :
  Forall (fun g => 0 <= g)%Qc (data gy) ->
  exists gx,
    ResizeImages_backward (mk_ResizeImages oH oW md al) x gy = Ok gx /\
    Forall (fun g => 0 <= g)%Qc (data gx).
Proof.
  intros Hpos.
  destruct (backward_adjoint_all x gy B C H W oH oW md al Hx Hgy Hdeg)
    as (gx & Hb & Hgx & Hadj).
  exists gx. split; [exact Hb|].
  destruct Hgx as (_ & _ & _ & _ & _ & _ & _ & Hgl). fold N in Hgl.
  rewrite (list_as_map (data gx) 0%Qc). apply Forall_map_in.
  intros p Hp. apply in_arange in Hp.
  set (e := map (fun q => if q =? p then 1%Qc else 0%Qc)
                (arange (Z.of_nat (length (data gx))))).
  assert (Hlen : Z.of_nat (length e) = N).
  { unfold e. rewrite length_map, length_arange. lia. }
  assert (He : Forall (fun q => 0 <= q <= 1)%Qc e).
  { unfold e. apply Forall_map_in. intros q _.
    destruct (q =? p); split; try apply Qcle_refl; discriminate. }
  pose proof (response_between e 0%Qc 1%Qc Hlen He) as Hresp.
  destruct (axis_grids md al H W oH oW Float32) as [[[v u] vw] uw].
  destruct Hresp as [Hall _].
  specialize (Hadj _ (image_batch_cells e Hlen)).
  unfold inner in Hadj. cbn [data] in Hadj.
  fold (sum_zip Qcmult e (data gx)) in Hadj.
  unfold e in Hadj at 1. rewrite sum_zip_impulse in Hadj by exact Hp.
  rewrite Hadj.
  match goal with
  | |- (0 <= sum_Qc (zip_with Qcmult ?r _))%Qc => fold (sum_zip Qcmult r (data gy))
  end.
  apply sum_zip_nonneg; [|exact Hpos].
  eapply Forall_impl; [|exact Hall]. cbv beta. intros q [H0 _]. exact H0.
Qed.

End Gradient.

(** X14.  The weights of an output pixel add up to 1, so in exact
    arithmetic the gradient node moves the gradient without loss: the sum
    of the cells of [gx] is the sum of the cells of [gy], and [gx] has the
    shape of the input. *)
Theorem gradient_preserves_sum (x gy : array Qc) (B C H W oH oW : Z)
    (md : sampling_mode) (al : bool) :
  image_batch x B C H W -> image_batch gy B C oH oW ->
  degenerate md al oH oW = false ->
  exists gx,
    ResizeImages_backward (mk_ResizeImages oH oW md al) x gy = Ok gx /\
    shape gx = shape x /\
    sum_Qc (data gx) = sum_Qc (data gy).
Proof.
  intros Hx Hgy Hdeg.
  destruct (gradient_sum x gy B C H W oH oW md al Hx Hgy Hdeg) as (gx & Hb & Hgx & Hs).
  exists gx. split; [exact Hb|]. split; [|exact Hs].
  destruct Hx as (_ & -> & _). destruct Hgx as (_ & -> & _). reflexivity.
Qed.

Lemma gradient_preserves_sum_witness :
  exists gx,
    ResizeImages_backward (mk_ResizeImages 1 1 bilinear false) X22 GY11 = Ok gx /\
    shape gx = shape X22 /\
    sum_Qc (data gx) = sum_Qc (data GY11).
Proof.
  apply (gradient_preserves_sum X22 GY11 1 1 2 2 1 1 bilinear false
           image_batch_X22 image_batch_GY11 eq_refl).
Defined.

(** X15.  The weights are never negative, so the gradient node keeps the
    sign: a gradient [gy] without negative cells gives a gradient [gx]
    without negative cells. *)
Theorem gradient_keeps_sign (x gy : array Qc) (B C H W oH oW : Z)
    (md : sampling_mode) (al : bool) :
  image_batch x B C H W -> image_batch gy B C oH oW ->
  degenerate md al oH oW = false ->
  Forall (fun g => 0 <= g)%Qc (data gy) ->
  exists gx,
    ResizeImages_backward (mk_ResizeImages oH oW md al) x gy = Ok gx /\
    Forall (fun g => 0 <= g)%Qc (data gx).
Proof.
  intros Hx Hgy Hdeg Hpos.
  apply gradient_nonneg with (B := B) (C := C) (H := H) (W := W); assumption.
Qed.

Lemma gradient_keeps_sign_witness :
  exists gx,
    ResizeImages_backward (mk_ResizeImages 1 1 bilinear false) X22 GY11 = Ok gx /\
    Forall (fun g => 0 <= g)%Qc (data gx).
Proof.
  apply (gradient_keeps_sign X22 GY11 1 1 2 2 1 1 bilinear false
           image_batch_X22 image_batch_GY11 eq_refl).
  repeat constructor. vm_compute. discriminate.
Defined.

(** X16.  The gradient of a resize to the size of the input is the
    identity: for an output of the size of the input the gradient node
    returns [gy] itself, in nearest mode, in bilinear mode without
    AlignCorners and, for images of at least two rows and two columns,
    with AlignCorners. *)
Theorem same_size_gradient_is_identity (x gy : array Qc) (B C H W : Z)
    (md : sampling_mode) (al : bool) :
  image_batch x B C H W -> image_batch gy B C H W ->
  md = nearest \/ al = false \/ (2 <= H /\ 2 <= W) ->
  ResizeImages_backward (mk_ResizeImages H W md al) x gy = Ok gy.
Proof.
  intros Hx Hgy Hmode.
  assert (Hal : md = bilinear -> al = true -> 2 <= H /\ 2 <= W).
  { intros -> ->. destruct Hmode as [E|[E|E]]; [discriminate|discriminate|exact E]. }
  assert (Hdeg : degenerate md al H W = false).
  { destruct md; [|reflexivity]. destruct al; [|reflexivity].
    destruct (Hal eq_refl eq_refl). cbn. apply orb_false_iff. lia. }
  destruct (backward_adjoint_all x gy B C H W H W md al Hx Hgy Hdeg)
    as (gx & Hb & Hgx & Hadj).
  rewrite Hb. f_equal.
  pose proof Hx as (_ & _ & HB & HC & HH & HW & Hsz & _).
  destruct Hgx as (Hdt & Hsh & _ & _ & _ & _ & _ & Hlen).
  destruct Hgy as (Hgdt & Hgsh & _ & _ & _ & _ & _ & Hglen).
  assert (Edata : data gx = data gy).
  { apply sum_zip_determines; [lia|].
    intros xs Hxs.
    set (x' := mk_array Float32 [B; C; H; W] xs).
    assert (Hx' : image_batch x' B C H W).
    { unfold image_batch, x'. cbn [dtype shape data].
      repeat split; try assumption; try reflexivity. lia. }
    pose proof (same_size_per_pixel md al x' B C H W Hx' Hal) as Hid.
    change (dtype x') with Float32 in Hid.
    destruct (axis_grids md al H W H W Float32) as [[[v u] vw] uw].
    specialize (Hadj x' Hx'). rewrite Hid in Hadj. exact Hadj. }
  destruct gx as [dt sh dat], gy as [gdt gsh gdat]. cbn [dtype shape data] in *.
  congruence.
Qed.

Lemma same_size_gradient_is_identity_witness :
  ResizeImages_backward (mk_ResizeImages 1 1 nearest true) X11 GY11 = Ok GY11.
Proof.
  apply (same_size_gradient_is_identity X11 GY11 1 1 1 1 nearest true
           image_batch_X11 image_batch_GY11).
  left. reflexivity.
Defined.

(** * The grids are a monotone mesh *)

Lemma axis_index_monotone (md : sampling_mode) (al : bool) (n_in n_out i i' : Z) :
  1 <= n_in -> 1 <= n_out -> (md = bilinear -> al = true -> 2 <= n_out) ->
  0 <= i <= i' ->
  axis_index md al n_in n_out i <= axis_index md al n_in n_out i'.
Proof.
  intros Hin Hout Hal Hi. destruct md; [destruct al|]; unfold axis_index.
  - specialize (Hal eq_refl eq_refl). apply Z.div_le_mono; nia.
  - apply Z.max_le_compat_l. apply Z.div_le_mono; nia.
  - apply Z.min_le_compat_r. apply Z.div_le_mono; nia.
Qed.

(** X17.  The grids a node computes are a mesh: the row index of a cell
    depends on its row only and the column index on its column only, and
    both never decrease along their axis, so a resize never reorders rows
    or columns. *)
Theorem source_indices_are_monotone (H W oH oW : Z) (md : sampling_mode) (al : bool)
    (ft : scalar_type) :
  1 <= H < 2 ^ 63 -> 1 <= W < 2 ^ 63 -> 1 <= oH -> 1 <= oW ->
  degenerate md al oH oW = false ->
  exists v u vw uw,
    index_and_weight_grids (oH, oW) (H, W) md al ft = Ok (v, u, vw, uw) /\
    (forall i j, 0 <= i < oH -> 0 <= j < oW ->
       znth (i * oW + j) (data v) 0 = znth (i * oW) (data v) 0 /\
       znth (i * oW + j) (data u) 0 = znth j (data u) 0) /\
    (forall i i' j, 0 <= i <= i' -> i' < oH -> 0 <= j < oW ->
       znth (i * oW + j) (data v) 0 <= znth (i' * oW + j) (data v) 0) /\
    (forall i j j', 0 <= i < oH -> 0 <= j <= j' -> j' < oW ->
       znth (i * oW + j) (data u) 0 <= znth (i * oW + j') (data u) 0).
Proof.
  intros HH HW HoH HoW Hdeg.
  rewrite (grids_value md al H W oH oW ft HH HW HoH HoW Hdeg).
  unfold axis_grids. do 4 eexists. split; [reflexivity|]. cbn [data].
  pose proof (degenerate_false md al oH oW HoH HoW Hdeg) as Hal.
  assert (Hcell : forall i j, 0 <= i < oH -> 0 <= j < oW ->
            znth (i * oW + j)
                 (map (fun k => axis_index md al H oH (k / oW)) (arange (oH * oW))) 0
            = axis_index md al H oH i /\
            znth (i * oW + j)
                 (map (fun k => axis_index md al W oW (k mod oW)) (arange (oH * oW))) 0
            = axis_index md al W oW j).
  { intros i j Hi Hj. destruct (grid_cell oH oW i j Hi Hj) as (Hk & Hd & Hm).
    rewrite !znth_map_arange by exact Hk. rewrite Hd, Hm. auto. }
  split; [|split].
  - intros i j Hi Hj.
    destruct (Hcell i j Hi Hj) as [-> ->].
    destruct (Hcell i 0 Hi ltac:(lia)) as [E1 _]. rewrite Z.add_0_r in E1. rewrite E1.
    destruct (Hcell 0 j ltac:(lia) Hj) as [_ E2]. cbn [Z.mul Z.add] in E2. rewrite E2.
    auto.
  - intros i i' j Hi Hi' Hj.
    destruct (Hcell i j ltac:(lia) Hj) as [-> _].
    destruct (Hcell i' j ltac:(lia) Hj) as [-> _].
    apply axis_index_monotone; try lia. intros E1 E2. apply (Hal E1 E2).
  - intros i j j' Hi Hj Hj'.
    destruct (Hcell i j Hi ltac:(lia)) as [_ ->].
    destruct (Hcell i j' Hi ltac:(lia)) as [_ ->].
    apply axis_index_monotone; try lia. intros E1 E2. apply (Hal E1 E2).
Qed.

Lemma source_indices_are_monotone_witness :
  exists v u vw uw,
    index_and_weight_grids (3, 5) (2, 2) bilinear false Float32 = Ok (v, u, vw, uw) /\
    znth (0 * 5 + 1) (data v) 0 <= znth (2 * 5 + 1) (data v) 0.
Proof.
  destruct (source_indices_are_monotone 2 2 3 5 bilinear false Float32)
    as (v & u & vw & uw & Hg & _ & Hv & _); try lia; try reflexivity.
  exists v, u, vw, uw. split; [exact Hg|]. apply (Hv 0 2 1); lia.
Defined.

(** * The forward pass is linear *)

Lemma znth_zip_with {A B C : Type} (f : A -> B -> C) (l1 : list A) (l2 : list B)
    (d1 : A) (d2 : B) (d : C) (i : Z) :
  length l1 = length l2 -> 0 <= i < Z.of_nat (length l1) ->
  znth i (zip_with f l1 l2) d = f (znth i l1 d1) (znth i l2 d2).
Proof.
  intros Hlen Hi. unfold znth, zip_with.
  rewrite (nth_indep _ d (f d1 d2))
    by (rewrite length_map, length_combine; lia).
  change (f d1 d2) with ((fun p => f (fst p) (snd p)) (d1, d2)).
  rewrite map_nth, combine_nth by exact Hlen. reflexivity.
Qed.

Lemma zip_with_app {A B C : Type} (f : A -> B -> C) (l1 l2 : list A) (m1 m2 : list B) :
  length l1 = length m1 ->
  zip_with f (l1 ++ l2) (m1 ++ m2) = zip_with f l1 m1 ++ zip_with f l2 m2.
Proof.
  revert m1. induction l1 as [|a l1 IH]; intros [|b m1] Hlen; try discriminate;
    [reflexivity|].
  cbn in Hlen. injection Hlen as Hlen.
  unfold zip_with in *. cbn [app combine map]. rewrite IH by exact Hlen. reflexivity.
Qed.

Lemma zip_with_flat_map {T A B C : Type} (f : A -> B -> C) (F1 : T -> list A)
    (F2 : T -> list B) (l : list T) :
  (forall t, length (F1 t) = length (F2 t)) ->
  zip_with f (flat_map F1 l) (flat_map F2 l)
  = flat_map (fun t => zip_with f (F1 t) (F2 t)) l.
Proof.
  intros Hlen. induction l as [|t l IH]; [reflexivity|].
  cbn [flat_map]. rewrite zip_with_app by apply Hlen. rewrite IH. reflexivity.
Qed.

Lemma per_pixel_linear (x1 x2 : array Qc) (v u : array Z) (vw uw : array Qc)
    (B C H W oH oW : Z) (a b : Qc) :
  image_batch x1 B C H W -> image_batch x2 B C H W ->
  grid v oH oW -> grid u oH oW -> indices_below v H -> indices_below u W ->
  data (resize_per_pixel_spec
          (mk_array Float32 [B; C; H; W]
             (zip_with (fun p q => a * p + b * q)%Qc (data x1) (data x2))) v u vw uw)
  = zip_with (fun p q => a * p + b * q)%Qc
      (data (resize_per_pixel_spec x1 v u vw uw))
      (data (resize_per_pixel_spec x2 v u vw uw)).
Proof.
  intros (_ & Hsh1 & HB & HC & HH & HW & _ & Hlen1) (_ & Hsh2 & _ & _ & _ & _ & _ & Hlen2)
         [Hvs Hvl] [_ Hul] Hvin Huin.
  unfold resize_per_pixel_spec. rewrite Hsh1, Hsh2, Hvs. cbn [shape data].
  rewrite zip_with_flat_map by (intros bc; rewrite !length_map; reflexivity).
  apply flat_map_ext_in. intros bc Hbc. apply in_arange in Hbc.
  rewrite zip_with_map. apply map_ext_in. intros k Hk. apply in_arange in Hk.
  assert (Hv0 : 0 <= znth k (data v) 0 < H)
    by (apply indices_below_znth; [assumption|lia]).
  assert (Hu0 : 0 <= znth k (data u) 0 < W)
    by (apply indices_below_znth; [assumption|lia]).
  assert (Hpix : forall vi ui, 0 <= vi < H -> 0 <= ui < W ->
            pixel (mk_array Float32 [B; C; H; W]
                     (zip_with (fun p q => a * p + b * q)%Qc (data x1) (data x2)))
                  H W bc vi ui
            = (a * pixel x1 H W bc vi ui + b * pixel x2 H W bc vi ui)%Qc).
  { intros vi ui Hvi Hui. unfold pixel. cbn [data].
    rewrite (znth_zip_with (fun p q => a * p + b * q)%Qc _ _ 0%Qc 0%Qc 0%Qc);
      [reflexivity|lia|].
    rewrite Hlen1. assert (0 <= bc * H + vi < B * C * H) by nia. nia. }
  unfold bilinear_pixel_spec. cbv zeta.
  rewrite !Hpix by lia. ring.
Qed.

(** X18.  In exact arithmetic the forward pass is a linear map of the
    image: the resize of a linear combination [a * x1 + b * x2] of two
    batches is the same combination of their resizes, cell by cell. *)
Theorem resize_is_linear (garbage : Qc) (x1 x2 : array Qc) (B C H W oH oW : Z)
    (md : sampling_mode) (al : bool) (a b : Qc) :
  image_batch x1 B C H W -> image_batch x2 B C H W ->
  1 <= oH -> 1 <= oW -> degenerate md al oH oW = false ->
  exists y1 y2 y3,
    resize_images garbage x1 (oH, oW) md al = Ok y1 /\
    resize_images garbage x2 (oH, oW) md al = Ok y2 /\
    resize_images garbage
      (mk_array Float32 [B; C; H; W]
         (zip_with (fun p q => a * p + b * q)%Qc (data x1) (data x2)))
      (oH, oW) md al = Ok y3 /\
    shape y3 = [B; C; oH; oW] /\
    data y3 = zip_with (fun p q => a * p + b * q)%Qc (data y1) (data y2).
Proof.
  intros Hx1 Hx2 HoH HoW Hdeg.
  pose proof Hx1 as (Hdt1 & Hsh1 & HB & HC & HH & HW & Hsz & Hlen1).
  pose proof Hx2 as (Hdt2 & Hsh2 & _ & _ & _ & _ & _ & Hlen2).
  set (x3 := mk_array Float32 [B; C; H; W]
               (zip_with (fun p q => a * p + b * q)%Qc (data x1) (data x2))).
  assert (Hx3 : image_batch x3 B C H W).
  { unfold image_batch, x3. cbn [dtype shape data].
    repeat split; try assumption; try reflexivity.
    rewrite length_zip_with. lia. }
  pose proof (ResizeImages_forward_value garbage x1 B C H W oH oW md al Hx1 HoH HoW Hdeg)
    as Hf1.
  pose proof (ResizeImages_forward_value garbage x2 B C H W oH oW md al Hx2 HoH HoW Hdeg)
    as Hf2.
  pose proof (ResizeImages_forward_value garbage x3 B C H W oH oW md al Hx3 HoH HoW Hdeg)
    as Hf3.
  change (dtype x3) with Float32 in Hf3. rewrite Hdt1 in Hf1. rewrite Hdt2 in Hf2.
  pose proof (axis_grids_props md al H W oH oW Float32
                ltac:(lia) ltac:(lia) HoH HoW Hdeg) as Hp.
  destruct (axis_grids md al H W oH oW Float32) as [[[v u] vw] uw].
  destruct Hp as (Hv & Hu & _ & _ & Hvin & Huin).
  unfold resize_images, apply_node, ResizeImages_init.
  rewrite (check_type_forward_ok x1 B C H W Hx1), (check_type_forward_ok x2 B C H W Hx2),
    (check_type_forward_ok x3 B C H W Hx3).
  cbn [bind fst snd]. rewrite Hf1, Hf2, Hf3.
  do 3 eexists. repeat split.
  - unfold resize_per_pixel_spec, x3. cbn [shape]. destruct Hv as [-> _]. reflexivity.
  - apply per_pixel_linear with (oH := oH) (oW := oW); assumption.
Qed.

Lemma resize_is_linear_witness :
  exists y1 y2 y3,
    resize_images 0%Qc X22 (3, 5) bilinear true = Ok y1 /\
    resize_images 0%Qc X22 (3, 5) bilinear true = Ok y2 /\
    resize_images 0%Qc
      (mk_array Float32 [1; 1; 2; 2]
         (zip_with (fun p q => Z2Qc 2 * p + Z2Qc 3 * q)%Qc (data X22) (data X22)))
      (3, 5) bilinear true = Ok y3 /\
    shape y3 = [1; 1; 3; 5] /\
    data y3 = zip_with (fun p q => Z2Qc 2 * p + Z2Qc 3 * q)%Qc (data y1) (data y2).
Proof.
  apply (resize_is_linear 0%Qc X22 X22 1 1 2 2 3 5 bilinear true (Z2Qc 2) (Z2Qc 3)
           image_batch_X22 image_batch_X22); try lia.
  reflexivity.
Defined.

(** * The forward pass is separable *)

(** X19.  In exact arithmetic a resize can be done one axis at a time:
    resizing the rows first (to [oH] rows, keeping the [W] columns) and
    the columns of the result next gives the array the single resize to
    (oH, oW) gives.  (With AlignCorners every size involved must be at
    least 2, as for any resize in that mode.) *)
Theorem resize_is_separable (garbage : Qc) (x : array Qc) (B C H W oH oW : Z)
    (md : sampling_mode) (al : bool) :
  image_batch x B C H W -> 1 <= oH -> 1 <= oW ->
  B * C * oH * W < 2 ^ 63 ->
  (md = bilinear -> al = true -> 2 <= oH /\ 2 <= oW /\ 2 <= W) ->
  exists z,
    resize_images garbage x (oH, oW) md al = Ok z /\
    (y <- resize_images garbage x (oH, W) md al ;;
     resize_images garbage y (oH, oW) md al) = Ok z.
Proof.
  intros Hx HoH HoW Hsz Hal.
  pose proof Hx as (Hdt & Hsh & HB & HC & HH & HW & _).
  assert (Hdeg : forall a b, (md = bilinear -> al = true -> 2 <= a /\ 2 <= b) ->
                             degenerate md al a b = false).
  { intros a b Hab. destruct md; [|reflexivity]. destruct al; [|reflexivity].
    destruct (Hab eq_refl eq_refl). cbn. apply orb_false_iff. lia. }
  destruct (resize_images_pixels garbage x B C H W oH oW md al Hx HoH HoW
              (Hdeg oH oW ltac:(intros E1 E2; destruct (Hal E1 E2) as (? & ? & ?); auto)))
    as (r & Hr & Hrdt & Hrsh & Hrlen & Hrat).
  destruct (resize_images_pixels garbage x B C H W oH W md al Hx HoH ltac:(lia)
              (Hdeg oH W ltac:(intros E1 E2; destruct (Hal E1 E2) as (? & ? & ?); auto)))
    as (y & Hy & Hydt & Hysh & Hylen & Hyat).
  assert (Hyb : image_batch y B C oH W).
  { unfold image_batch. repeat split; try assumption; lia. }
  destruct (resize_images_pixels garbage y B C oH W oH oW md al Hyb HoH HoW
              (Hdeg oH oW ltac:(intros E1 E2; destruct (Hal E1 E2) as (? & ? & ?); auto)))
    as (z & Hz & Hzdt & Hzsh & Hzlen & Hzat).
  exists r. split; [exact Hr|]. rewrite Hy. cbn [bind]. rewrite Hz. f_equal.
  apply (array_ext_at4 z r B C oH oW); try assumption; try congruence; try lia.
  intros n c i j Hn Hc Hi Hj.
  rewrite (Hzat n c i j Hn Hc Hi Hj), (Hrat n c i j Hn Hc Hi Hj).
  rewrite same_size_index, same_size_weight
    by (try assumption; intros E1 E2; destruct (Hal E1 E2) as (? & ? & ?); assumption).
  pose proof (axis_index_range md al W oW j ltac:(lia) HoW
                ltac:(intros E1 E2; destruct (Hal E1 E2) as (? & ? & ?); assumption) Hj)
    as Hu0.
  set (u0 := axis_index md al W oW j) in *.
  set (u1 := Z.min (u0 + 1) (W - 1)).
  set (wv := axis_weight md al H oH i). set (wu := axis_weight md al W oW j).
  set (v0 := axis_index md al H oH i).
  assert (Hrow : forall q, 0 <= q < W ->
            pixel y oH W (n * C + c) i q =
            ((1 - wv) * pixel x H W (n * C + c) v0 q
             + wv * pixel x H W (n * C + c) (Z.min (v0 + 1) (H - 1)) q)%Qc).
  { intros q Hq. rewrite <- (at4_pixel y B C oH W) by exact Hysh.
    rewrite (Hyat n c i q Hn Hc Hi Hq).
    rewrite same_size_index, same_size_weight
      by (try assumption; intros E1 E2; destruct (Hal E1 E2) as (? & ? & ?); assumption).
    fold wv v0. unfold bilinear_pixel_spec. cbv zeta. ring. }
  unfold bilinear_pixel_spec. cbv zeta. fold u1.
  rewrite (Hrow u0), (Hrow u1) by (unfold u1; lia).
  ring.
Qed.

Lemma resize_is_separable_witness :
  exists z,
    resize_images 0%Qc X22 (3, 5) bilinear true = Ok z /\
    (y <- resize_images 0%Qc X22 (3, 2) bilinear true ;;
     resize_images 0%Qc y (3, 5) bilinear true) = Ok z.
Proof.
  apply (resize_is_separable 0%Qc X22 1 1 2 2 3 5 bilinear true image_batch_X22); lia.
Defined.

(** * The gradient of the gradient node *)

(** X20.  [ResizeImagesGrad.backward] is the adjoint of
    [ResizeImagesGrad.forward]: for the gradient node built by
    [ResizeImages.backward], a gradient [gy] of the output shape and a
    second-order gradient [ggx] of the input shape, both methods return
    and, in exact arithmetic, <ggx, forward(gy)> = <backward(ggx), gy>. *)
Theorem double_backward_is_adjoint (garbage : Qc) (x gy ggx : array Qc)
    (B C H W oH oW : Z) (md : sampling_mode) (al : bool) :
  image_batch x B C H W -> image_batch gy B C oH oW -> image_batch ggx B C H W ->
  degenerate md al oH oW = false ->
  let node := ResizeImagesGrad_init (shape x) (oH, oW) md al in
  exists gx y,
    apply_node check_type_forward (ResizeImagesGrad_forward node) gy = Ok gx /\
    ResizeImagesGrad_backward garbage node ggx = Ok y /\
    shape gx = shape x /\ shape y = shape gy /\
    inner ggx gx = inner y gy.
Proof.
  intros Hx Hgy Hggx Hdeg node.
  destruct (backward_adjoint_all x gy B C H W oH oW md al Hx Hgy Hdeg)
    as (gx & Hb & Hgx & Hadj).
  pose proof Hgy as (_ & Hgsh & _ & _ & HoH & HoW & _).
  pose proof Hggx as (Hggdt & _).
  pose proof (ResizeImages_forward_value garbage ggx B C H W oH oW md al Hggx
                ltac:(lia) ltac:(lia) Hdeg) as Hf.
  rewrite Hggdt in Hf.
  pose proof (axis_grids_props md al H W oH oW Float32
                ltac:(destruct Hx as (_ & _ & _ & _ & ? & _); lia)
                ltac:(destruct Hx as (_ & _ & _ & _ & _ & ? & _); lia)
                ltac:(lia) ltac:(lia) Hdeg) as Hp.
  destruct (axis_grids md al H W oH oW Float32) as [[[v u] vw] uw].
  destruct Hp as ([Hvs _] & _).
  exists gx, (resize_per_pixel_spec ggx v u vw uw).
  split; [exact Hb|]. split; [|split; [|split]].
  - unfold ResizeImagesGrad_backward, apply_node, node, ResizeImagesGrad_init,
      ResizeImages_init.
    cbn [g_out_H g_out_W g_mode g_align_corners fst snd].
    rewrite (check_type_forward_ok ggx B C H W Hggx). cbn [bind]. exact Hf.
  - destruct Hx as (_ & -> & _). destruct Hgx as (_ & -> & _). reflexivity.
  - unfold resize_per_pixel_spec. destruct Hggx as (_ & -> & _). rewrite Hvs, Hgsh.
    reflexivity.
  - apply Hadj. exact Hggx.
Qed.

Lemma double_backward_is_adjoint_witness :
  exists gx y,
    apply_node check_type_forward
      (ResizeImagesGrad_forward (ResizeImagesGrad_init (shape X22) (1, 1) bilinear false))
      GY11 = Ok gx /\
    ResizeImagesGrad_backward 0%Qc
      (ResizeImagesGrad_init (shape X22) (1, 1) bilinear false) X22 = Ok y /\
    inner X22 gx = inner y GY11.
Proof.
  destruct (double_backward_is_adjoint 0%Qc X22 GY11 X22 1 1 2 2 1 1 bilinear false
              image_batch_X22 image_batch_GY11 image_batch_X22 eq_refl)
    as (gx & y & H1 & H2 & _ & _ & H3).
  exists gx, y. auto.
Defined.

(** * The back ends on an empty batch *)

(** X21.  The two back ends disagree on an empty batch: with no image or
    no channel the GPU kernel has no thread to run and
    [interpolate_bilinear_gpu] returns the empty array of the output
    shape, where the CPU engine stops with [ZeroDivisionError]. *)
Theorem gpu_accepts_empty_batch (garbage : Qc) (x : array Qc) (v u : array Z)
    (vw uw : array Qc) (B C H W oH oW : Z) :
  shape x = [B; C; H; W] -> 0 <= B -> 0 <= C -> B * C = 0 ->
  grid v oH oW -> grid u oH oW -> grid vw oH oW -> grid uw oH oW ->
  0 <= oH -> 0 <= oW ->
  interpolate_bilinear_gpu x v u vw uw
  = Ok (Some (mk_array (dtype x) [B; C; oH; oW] [])) /\
  interpolate_bilinear_cpu garbage x v u vw uw = Raise ZeroDivisionError.
Proof.
  intros Hsh HB HC HBC Hv Hu Hvw Huw HoH HoW. split.
  - unfold interpolate_bilinear_gpu. rewrite Hsh. destruct Hv as [Hvs Hvl]. rewrite Hvs.
    unfold check_alloc. cbn [existsb].
    replace (B <? 0) with false by lia. replace (C <? 0) with false by lia.
    replace (oH <? 0) with false by lia. replace (oW <? 0) with false by lia.
    cbn [orb bind].
    rewrite !broadcast_to_grid by (assumption || (split; assumption)). cbn [bind].
    rewrite HBC. reflexivity.
  - unfold interpolate_bilinear_cpu. destruct Hv as [Hvs _].
    rewrite Hsh, Hvs, infer_lines_empty_batch by exact HBC. reflexivity.
Qed.

Lemma gpu_accepts_empty_batch_witness :
  interpolate_bilinear_gpu (mk_array Float32 [0; 3; 2; 2] []) index_grid_11 index_grid_11
                           weight_grid_11 weight_grid_11
  = Ok (Some (mk_array Float32 [0; 3; 1; 1] [])) /\
  interpolate_bilinear_cpu 0%Qc (mk_array Float32 [0; 3; 2; 2] []) index_grid_11
                           index_grid_11 weight_grid_11 weight_grid_11
  = Raise ZeroDivisionError.
Proof.
  apply (gpu_accepts_empty_batch 0%Qc (mk_array Float32 [0; 3; 2; 2] [])
           index_grid_11 index_grid_11 weight_grid_11 weight_grid_11 0 3 2 2 1 1
           eq_refl); try lia; try reflexivity;
    try exact (proj1 grid_index_11); exact grid_weight_11.
Defined.

(** * What an output pixel depends on *)


